(** * The AppWrapper reconciler: a shallow embedding

    This development embeds
    [internal/controller/appwrapper/appwrapper_controller.go] and states the
    lifecycle properties of the controller over it.

    Layout:
    - machine integers, durations and instants;
    - the condition ledger ([meta.SetStatusCondition] and friends);
    - the workload resource, the reconciler configuration, the collaborators
      that live outside the controller file;
    - the grace-policy evaluator and the retry-limit resolver;
    - the status aggregators;
    - [Reconcile] itself, as explicit state passing over the in-memory object
      and the persisted object;
    - the pod watch ([podMapFunc]);
    - the properties. *)

From Stdlib Require Import ZArith Lia Bool Ascii String.
From stdpp Require Import base option list strings gmap pretty.

Open Scope Z_scope.

(** ** Machine integers, durations, instants *)

(** Go's [int32]: two's complement wrap-around of a mathematical integer. *)
Definition wrap32 (z : Z) : Z := (z + 2 ^ 31) mod 2 ^ 32 - 2 ^ 31.

Definition MaxInt32 : Z := 2 ^ 31 - 1.
Definition MinInt32 : Z := - 2 ^ 31.

(** [time.Duration] is an [int64] count of nanoseconds; [time.Time] is read
    here as nanoseconds on the controller's clock.  The arithmetic the
    controller performs on them ([Add], [Sub], [Before]) is modelled on [Z]. *)
Abbreviation Duration := Z (only parsing).
Abbreviation Time := Z (only parsing).

Definition Second : Duration := 1000000000.
Definition Minute : Duration := 60 * Second.
Definition Hour : Duration := 60 * Minute.

(** The zero value of [time.Time] (January 1, year 1, 00:00 UTC). *)
Definition zeroTime : Time := -62135596800 * Second.

Definition IsZero (t : Time) : bool := bool_decide (t = zeroTime).
Definition Before (t u : Time) : bool := bool_decide (t < u).
Definition Add (t : Time) (d : Duration) : Time := t + d.
Definition Sub (t u : Time) : Duration := t - u.

(** ** The condition ledger *)

Inductive ConditionStatus : Set :=
| ConditionTrue
| ConditionFalse
| ConditionUnknown.

#[global] Instance ConditionStatus_eq_dec : EqDecision ConditionStatus.
Proof. solve_decision. Defined.

(** [metav1.Condition]. *)
Record Condition : Set := mkCondition {
  Type_ : string;
  Status : ConditionStatus;
  ObservedGeneration : Z;
  LastTransitionTime : Time;
  Reason : string;
  Message : string
}.

#[global] Instance Condition_eq_dec : EqDecision Condition.
Proof. solve_decision. Defined.

(** A condition literal as the controller writes it: only type, status,
    reason and message are given, the other fields keep their zero value. *)
Definition newCondition (ty : string) (st : ConditionStatus) (reason message : string)
  : Condition :=
  {| Type_ := ty; Status := st; ObservedGeneration := 0;
     LastTransitionTime := zeroTime; Reason := reason; Message := message |}.

(** [meta.FindStatusCondition]: the first condition of the given type. *)
Fixpoint FindStatusCondition (conditions : list Condition) (conditionType : string)
  : option Condition :=
  match conditions with
  | [] => None
  | c :: rest =>
      if decide (Type_ c = conditionType) then Some c
      else FindStatusCondition rest conditionType
  end.

(** [meta.IsStatusConditionTrue]. *)
Definition IsStatusConditionTrue (conditions : list Condition) (conditionType : string)
  : bool :=
  match FindStatusCondition conditions conditionType with
  | Some c => bool_decide (Status c = ConditionTrue)
  | None => false
  end.

(** What [meta.SetStatusCondition] does to the existing entry it found.
    [now] is the reading of [time.Now()]. *)
Definition mergeCondition (now : Time) (existing new : Condition) : Condition :=
  {| Type_ := Type_ existing;
     Status := Status new;
     ObservedGeneration := ObservedGeneration new;
     LastTransitionTime :=
       if decide (Status existing = Status new) then LastTransitionTime existing
       else if IsZero (LastTransitionTime new) then now
            else LastTransitionTime new;
     Reason := Reason new;
     Message := Message new |}.

Fixpoint updateFirst (now : Time) (new : Condition) (conditions : list Condition)
  : list Condition :=
  match conditions with
  | [] => []
  | c :: rest =>
      if decide (Type_ c = Type_ new) then mergeCondition now c new :: rest
      else c :: updateFirst now new rest
  end.

(** [meta.SetStatusCondition]: append when the type is absent (stamping the
    transition time), otherwise update the first entry of that type in place;
    the transition time moves only when the status changes. *)
Definition SetStatusCondition (now : Time) (conditions : list Condition) (new : Condition)
  : list Condition :=
  match FindStatusCondition conditions (Type_ new) with
  | None =>
      conditions ++
        [ if IsZero (LastTransitionTime new)
          then {| Type_ := Type_ new; Status := Status new;
                  ObservedGeneration := ObservedGeneration new;
                  LastTransitionTime := now;
                  Reason := Reason new; Message := Message new |}
          else new ]
  | Some _ => updateFirst now new conditions
  end.

(** ** The workload resource *)

Inductive AppWrapperPhase : Set :=
| AppWrapperEmpty
| AppWrapperSuspended
| AppWrapperResuming
| AppWrapperRunning
| AppWrapperResetting
| AppWrapperSuspending
| AppWrapperSucceeded
| AppWrapperFailed
| AppWrapperTerminating.

#[global] Instance AppWrapperPhase_eq_dec : EqDecision AppWrapperPhase.
Proof. solve_decision. Defined.

(** [string(phase)]. *)
Definition phaseString (p : AppWrapperPhase) : string :=
  match p with
  | AppWrapperEmpty => EmptyString
  | AppWrapperSuspended => "Suspended"
  | AppWrapperResuming => "Resuming"
  | AppWrapperRunning => "Running"
  | AppWrapperResetting => "Resetting"
  | AppWrapperSuspending => "Suspending"
  | AppWrapperSucceeded => "Succeeded"
  | AppWrapperFailed => "Failed"
  | AppWrapperTerminating => "Terminating"
  end.

Inductive AppWrapperCondition : Set :=
| QuotaReserved
| ResourcesDeployed
| PodsReady
| Unhealthy
| DeletingResources.

#[global] Instance AppWrapperCondition_eq_dec : EqDecision AppWrapperCondition.
Proof. solve_decision. Defined.

(** [string(condition)]. *)
Definition conditionString (c : AppWrapperCondition) : string :=
  match c with
  | QuotaReserved => "QuotaReserved"
  | ResourcesDeployed => "ResourcesDeployed"
  | PodsReady => "PodsReady"
  | Unhealthy => "Unhealthy"
  | DeletingResources => "DeletingResources"
  end.

(** One record per declared component: the identity of the child resource and
    the component's own condition set. *)
Record AppWrapperComponentStatus : Set := mkComponentStatus {
  csName : string;
  csKind : string;
  csAPIVersion : string;
  csConditions : list Condition
}.

#[global] Instance AppWrapperComponentStatus_eq_dec : EqDecision AppWrapperComponentStatus.
Proof. solve_decision. Defined.

Record AppWrapperStatus : Set := mkStatus {
  Phase : AppWrapperPhase;
  Retries : Z;                                   (* int32 *)
  Conditions : list Condition;
  ComponentStatus : list AppWrapperComponentStatus
}.

#[global] Instance AppWrapperStatus_eq_dec : EqDecision AppWrapperStatus.
Proof. solve_decision. Defined.

Record AppWrapper : Type := mkAppWrapper {
  Name : string;
  Namespace : string;
  Annotations : gmap string string;
  Finalizers : list string;
  DeletionTimestamp : option Time;               (* nil when not marked for deletion *)
  Suspend : bool;                                (* aw.Spec.Suspend *)
  AwStatus : AppWrapperStatus                    (* aw.Status *)
}.

Definition AppWrapperLabel : string := "workload.codeflare.dev/appwrapper".
Definition AppWrapperFinalizer : string := "workload.codeflare.dev/finalizer".

(** Field updates of the in-memory object. *)
Definition withStatus (aw : AppWrapper) (s : AppWrapperStatus) : AppWrapper :=
  {| Name := Name aw; Namespace := Namespace aw; Annotations := Annotations aw;
     Finalizers := Finalizers aw; DeletionTimestamp := DeletionTimestamp aw;
     Suspend := Suspend aw; AwStatus := s |}.

Definition withFinalizers (aw : AppWrapper) (f : list string) : AppWrapper :=
  {| Name := Name aw; Namespace := Namespace aw; Annotations := Annotations aw;
     Finalizers := f; DeletionTimestamp := DeletionTimestamp aw;
     Suspend := Suspend aw; AwStatus := AwStatus aw |}.

Definition withPhase (aw : AppWrapper) (p : AppWrapperPhase) : AppWrapper :=
  withStatus aw {| Phase := p; Retries := Retries (AwStatus aw);
                   Conditions := Conditions (AwStatus aw);
                   ComponentStatus := ComponentStatus (AwStatus aw) |}.

Definition withRetries (aw : AppWrapper) (n : Z) : AppWrapper :=
  withStatus aw {| Phase := Phase (AwStatus aw); Retries := n;
                   Conditions := Conditions (AwStatus aw);
                   ComponentStatus := ComponentStatus (AwStatus aw) |}.

Definition withConditions (aw : AppWrapper) (cs : list Condition) : AppWrapper :=
  withStatus aw {| Phase := Phase (AwStatus aw); Retries := Retries (AwStatus aw);
                   Conditions := cs;
                   ComponentStatus := ComponentStatus (AwStatus aw) |}.

Definition withComponentStatus (aw : AppWrapper) (cs : list AppWrapperComponentStatus)
  : AppWrapper :=
  withStatus aw {| Phase := Phase (AwStatus aw); Retries := Retries (AwStatus aw);
                   Conditions := Conditions (AwStatus aw);
                   ComponentStatus := cs |}.

(** [aw.DeletionTimestamp.IsZero()] on the pointer-valued timestamp. *)
Definition deletionTimestampIsZero (aw : AppWrapper) : bool :=
  match DeletionTimestamp aw with
  | None => true
  | Some t => IsZero t
  end.

(** [controllerutil.ContainsFinalizer], [AddFinalizer], [RemoveFinalizer];
    the last two also report whether the finalizer list changed. *)
Definition ContainsFinalizer (aw : AppWrapper) (f : string) : bool :=
  bool_decide (f ∈ Finalizers aw).

Definition AddFinalizer (aw : AppWrapper) (f : string) : AppWrapper * bool :=
  if ContainsFinalizer aw f then (aw, false)
  else (withFinalizers aw (Finalizers aw ++ [f]), true).

Definition RemoveFinalizer (aw : AppWrapper) (f : string) : AppWrapper * bool :=
  let kept := filter (λ g, g ≠ f) (Finalizers aw) in
  (withFinalizers aw kept, bool_decide (length kept ≠ length (Finalizers aw))).

(** ** Errors *)

Inductive ErrorKind : Set :=
| NotFound
| Conflict
| Unavailable
| OtherError.

#[global] Instance ErrorKind_eq_dec : EqDecision ErrorKind.
Proof. solve_decision. Defined.

Record Error : Set := mkError { errKind : ErrorKind; errText : string }.

#[global] Instance Error_eq_dec : EqDecision Error.
Proof. solve_decision. Defined.

(** [apierrors.IsNotFound]. *)
Definition IsNotFound (e : Error) : bool := bool_decide (errKind e = NotFound).

(** ** Configuration *)

(** The fields of [config.FaultToleranceConfig] the controller reads. *)
Record FaultToleranceConfig : Set := mkFaultTolerance {
  AdmissionGracePeriod : Duration;
  WarmupGracePeriod : Duration;
  FailureGracePeriod : Duration;
  RetryPausePeriod : Duration;
  RetryLimit : Z;                                (* int32 *)
  ForcefulDeletionGracePeriod : Duration;
  GracePeriodMaximum : Duration;
  SuccessTTL : Duration
}.

Record AppWrapperConfig : Set := mkConfig { FaultTolerance : FaultToleranceConfig }.

(** The reconciler; its embedded client is the [Env] further down. *)
Record AppWrapperReconciler : Set := mkReconciler { Config : AppWrapperConfig }.

(** ** Collaborators outside the controller file

    Library functions and declarations of other packages that the controller
    calls.  They are parameters of the development: every property below
    holds for any implementation of them. *)
Class Externals : Type := {
  (** [time.ParseDuration]; [None] for a malformed string. *)
  ParseDuration : string → option Duration;
  (** [strconv.Atoi]; [None] for a malformed string. *)
  Atoi : string → option Z;
  (** [%v] of a [time.Duration]. *)
  DurationString : Duration → string;
  (** [utils.ExpectedPodCount], an [int32]. *)
  ExpectedPodCount : AppWrapper → Z;
  (** [awstatus.EnsureComponentStatusInitialized]. *)
  EnsureComponentStatusInitialized : AppWrapper → Error + AppWrapper;
  (** The annotation keys declared in [api/v1beta2]. *)
  AdmissionGracePeriodDurationAnnotation : string;
  WarmupGracePeriodDurationAnnotation : string;
  FailureGracePeriodDurationAnnotation : string;
  RetryPausePeriodDurationAnnotation : string;
  RetryLimitAnnotation : string;
  ForcefulDeletionGracePeriodAnnotation : string;
  DeletionOnFailureGracePeriodAnnotation : string;
  SuccessTTLAnnotation : string
}.

(** ** Grace-policy evaluator *)

Section GracePolicy.
Context `{Externals}.
Variable r : AppWrapperReconciler.

Definition limitDuration (desired : Duration) : Duration :=
  if desired <? 0 then 0 * Second
  else if desired >? GracePeriodMaximum (FaultTolerance (Config r))
       then GracePeriodMaximum (FaultTolerance (Config r))
       else desired.

Definition admissionGraceDuration (aw : AppWrapper) : Duration :=
  match Annotations aw !! AdmissionGracePeriodDurationAnnotation with
  | Some userPeriod =>
      match ParseDuration userPeriod with
      | Some duration => limitDuration duration
      | None => limitDuration (AdmissionGracePeriod (FaultTolerance (Config r)))
      end
  | None => limitDuration (AdmissionGracePeriod (FaultTolerance (Config r)))
  end.

Definition warmupGraceDuration (aw : AppWrapper) : Duration :=
  match Annotations aw !! WarmupGracePeriodDurationAnnotation with
  | Some userPeriod =>
      match ParseDuration userPeriod with
      | Some duration => limitDuration duration
      | None => limitDuration (WarmupGracePeriod (FaultTolerance (Config r)))
      end
  | None => limitDuration (WarmupGracePeriod (FaultTolerance (Config r)))
  end.

Definition failureGraceDuration (aw : AppWrapper) : Duration :=
  match Annotations aw !! FailureGracePeriodDurationAnnotation with
  | Some userPeriod =>
      match ParseDuration userPeriod with
      | Some duration => limitDuration duration
      | None => limitDuration (FailureGracePeriod (FaultTolerance (Config r)))
      end
  | None => limitDuration (FailureGracePeriod (FaultTolerance (Config r)))
  end.

(** [int32(limit)] truncates the parsed [int]. *)
Definition retryLimit (aw : AppWrapper) : Z :=
  match Annotations aw !! RetryLimitAnnotation with
  | Some userLimit =>
      match Atoi userLimit with
      | Some limit => wrap32 limit
      | None => RetryLimit (FaultTolerance (Config r))
      end
  | None => RetryLimit (FaultTolerance (Config r))
  end.

Definition retryPauseDuration (aw : AppWrapper) : Duration :=
  match Annotations aw !! RetryPausePeriodDurationAnnotation with
  | Some userPeriod =>
      match ParseDuration userPeriod with
      | Some duration => limitDuration duration
      | None => limitDuration (RetryPausePeriod (FaultTolerance (Config r)))
      end
  | None => limitDuration (RetryPausePeriod (FaultTolerance (Config r)))
  end.

Definition forcefulDeletionGraceDuration (aw : AppWrapper) : Duration :=
  match Annotations aw !! ForcefulDeletionGracePeriodAnnotation with
  | Some userPeriod =>
      match ParseDuration userPeriod with
      | Some duration => limitDuration duration
      | None => limitDuration (ForcefulDeletionGracePeriod (FaultTolerance (Config r)))
      end
  | None => limitDuration (ForcefulDeletionGracePeriod (FaultTolerance (Config r)))
  end.

Definition deletionOnFailureGraceDuration (aw : AppWrapper) : Duration :=
  match Annotations aw !! DeletionOnFailureGracePeriodAnnotation with
  | Some userPeriod =>
      match ParseDuration userPeriod with
      | Some duration => limitDuration duration
      | None => 0 * Second
      end
  | None => 0 * Second
  end.

Definition timeToLiveAfterSucceededDuration (aw : AppWrapper) : Duration :=
  match Annotations aw !! SuccessTTLAnnotation with
  | Some userPeriod =>
      match ParseDuration userPeriod with
      | Some duration =>
          if (duration >? 0) && (duration <? SuccessTTL (FaultTolerance (Config r)))
          then duration
          else SuccessTTL (FaultTolerance (Config r))
      | None => SuccessTTL (FaultTolerance (Config r))
      end
  | None => SuccessTTL (FaultTolerance (Config r))
  end.

End GracePolicy.

(** ** The cluster as one invocation observes it *)

Inductive PodPhase : Set :=
| PodPending
| PodRunning
| PodSucceeded
| PodFailed
| PodUnknown.

#[global] Instance PodPhase_eq_dec : EqDecision PodPhase.
Proof. solve_decision. Defined.

Record Pod : Type := mkPod {
  podNamespace : string;
  podLabels : gmap string string;
  podPhase : PodPhase                            (* pod.Status.Phase *)
}.

(** The external calls an invocation may issue, in order. *)
Inductive Call : Set :=
| CallStatusUpdate
| CallUpdate
| CallCreateComponents
| CallDeleteComponents.

#[global] Instance Call_eq_dec : EqDecision Call.
Proof. solve_decision. Defined.

(** Everything outside the workload object that one invocation reads: the
    clock, the answers of the resource store and of the two collaborators
    that materialize and delete child resources.  One invocation observes one
    clock reading [now]. *)
Record Env : Type := mkEnv {
  now : Time;
  (** a failure of the initial fetch other than the absence of the object *)
  getErr : option Error;
  (** the answer to [r.Status().Update] and to [r.Update] *)
  statusUpdateErr : option Error;
  updateErr : option Error;
  (** the answer to [r.Get] for a child, by kind, API version, namespace, name *)
  childGet : string → string → string → string → option Error;
  (** the answer to [r.List] for pods: every pod of the cluster, or an error *)
  podList : Error + list Pod;
  (** the answer of [createComponents], the component materializer, whose
      source is in another file of the repository: [(err, fatal)], or [None]
      for a nil error; since it receives the object by pointer, it may also
      have rewritten the in-memory status *)
  createComponents : AppWrapper → AppWrapperStatus * option (Error * bool);
  (** the answer of [deleteComponents], the deletion orchestrator, whose
      source is in another file of the repository: whether every child is
      gone; since it receives the object by pointer, it may also have
      rewritten the in-memory status *)
  deleteComponents : AppWrapper → AppWrapperStatus * bool
}.

(** [ctrl.Result]; the controller only ever sets [RequeueAfter]. *)
Record Result : Set := mkResult { RequeueAfter : Duration }.

Definition emptyResult : Result := {| RequeueAfter := 0 |}.

(** How an invocation ends: a [(ctrl.Result, error)] pair, or a run-time
    panic (a nil condition pointer dereferenced). *)
Inductive Return : Set :=
| Returned (res : Result) (err : option Error)
| Panicked.

(** The state threaded through an invocation: the in-memory object [aw], the
    persisted object, and the external calls issued so far. *)
Record St : Type := mkSt {
  mem : AppWrapper;
  stored : AppWrapper;
  calls : list Call
}.

(** What an invocation leaves behind: how it returned, the in-memory object
    (absent when the fetch failed), the persisted object (absent when the
    store holds no such workload) and the external calls issued. *)
Record Outcome : Type := mkOutcome {
  ret : Return;
  inMemory : option AppWrapper;
  persisted : option AppWrapper;
  issued : list Call
}.

Definition setMem (st : St) (aw : AppWrapper) : St :=
  {| mem := aw; stored := stored st; calls := calls st |}.

Definition logCall (st : St) (c : Call) : St :=
  {| mem := mem st; stored := stored st; calls := calls st ++ [c] |}.

(** [r.Status().Update(ctx, aw)]: on success the status of the in-memory
    object replaces the persisted status, and the object returned by the
    store replaces the in-memory one. *)
Definition statusUpdate (env : Env) (st : St) : St * option Error :=
  let st := logCall st CallStatusUpdate in
  match statusUpdateErr env with
  | Some e => (st, Some e)
  | None =>
      let written := withStatus (stored st) (AwStatus (mem st)) in
      ({| mem := written; stored := written; calls := calls st |}, None)
  end.

(** [r.Update(ctx, aw)]: on success everything but the status subresource is
    persisted, and the object returned by the store replaces the in-memory
    one. *)
Definition update (env : Env) (st : St) : St * option Error :=
  let st := logCall st CallUpdate in
  match updateErr env with
  | Some e => (st, Some e)
  | None =>
      let written := withStatus (mem st) (AwStatus (stored st)) in
      ({| mem := written; stored := written; calls := calls st |}, None)
  end.

Definition finish (st : St) (res : Result) (err : option Error) : Outcome :=
  {| ret := Returned res err; inMemory := Some (mem st);
     persisted := Some (stored st); issued := calls st |}.

Definition panic (st : St) : Outcome :=
  {| ret := Panicked; inMemory := Some (mem st);
     persisted := Some (stored st); issued := calls st |}.

(** [meta.SetStatusCondition(&aw.Status.Conditions, ...)]. *)
Definition setCondition (now : Time) (aw : AppWrapper)
    (ty : AppWrapperCondition) (st : ConditionStatus) (reason message : string)
  : AppWrapper :=
  withConditions aw
    (SetStatusCondition now (Conditions (AwStatus aw))
       (newCondition (conditionString ty) st reason message)).

Definition isTrue (aw : AppWrapper) (ty : AppWrapperCondition) : bool :=
  IsStatusConditionTrue (Conditions (AwStatus aw)) (conditionString ty).

Definition findCondition (aw : AppWrapper) (ty : AppWrapperCondition) : option Condition :=
  FindStatusCondition (Conditions (AwStatus aw)) (conditionString ty).

Definition clearCondition (now : Time) (aw : AppWrapper)
    (condition : AppWrapperCondition) (reason message : string) : AppWrapper :=
  if isTrue aw condition
  then setCondition now aw condition ConditionFalse reason message
  else aw.

(** ** Status aggregators *)

Record podStatusSummary : Set := mkPodStatus {
  ps_expected : Z;
  ps_pending : Z;
  ps_running : Z;
  ps_succeeded : Z;
  ps_failed : Z
}.

Record componentStatusSummary : Set := mkComponentSummary {
  cs_expected : Z;
  cs_deployed : Z
}.

(** The selection [r.List] performs: pods of the workload's namespace whose
    [AppWrapperLabel] carries the workload's name. *)
Definition podMatches (aw : AppWrapper) (p : Pod) : bool :=
  bool_decide (podNamespace p = Namespace aw)
  && bool_decide (podLabels p !! AppWrapperLabel = Some (Name aw)).

Definition countPod (summary : podStatusSummary) (pod : Pod) : podStatusSummary :=
  match podPhase pod with
  | PodPending =>
      {| ps_expected := ps_expected summary;
         ps_pending := wrap32 (ps_pending summary + 1);
         ps_running := ps_running summary;
         ps_succeeded := ps_succeeded summary;
         ps_failed := ps_failed summary |}
  | PodRunning =>
      {| ps_expected := ps_expected summary;
         ps_pending := ps_pending summary;
         ps_running := wrap32 (ps_running summary + 1);
         ps_succeeded := ps_succeeded summary;
         ps_failed := ps_failed summary |}
  | PodSucceeded =>
      {| ps_expected := ps_expected summary;
         ps_pending := ps_pending summary;
         ps_running := ps_running summary;
         ps_succeeded := wrap32 (ps_succeeded summary + 1);
         ps_failed := ps_failed summary |}
  | PodFailed =>
      {| ps_expected := ps_expected summary;
         ps_pending := ps_pending summary;
         ps_running := ps_running summary;
         ps_succeeded := ps_succeeded summary;
         ps_failed := wrap32 (ps_failed summary + 1) |}
  | PodUnknown => summary
  end.

Section Aggregators.
Context `{Externals}.

Definition getPodStatus (env : Env) (aw : AppWrapper) : Error + podStatusSummary :=
  match podList env with
  | inl err => inl err
  | inr pods =>
      inr (fold_left countPod (filter (λ p, podMatches aw p = true) pods)
             {| ps_expected := ExpectedPodCount aw; ps_pending := 0;
                ps_running := 0; ps_succeeded := 0; ps_failed := 0 |})
  end.

(** The loop of [getComponentStatus] over the component records: the
    records as the loop leaves them, and the count of deployed components
    or the error that stopped the loop. *)
Fixpoint componentLoop (env : Env) (ns : string)
    (records : list AppWrapperComponentStatus) (deployed : Z)
  : list AppWrapperComponentStatus * (Error + Z) :=
  match records with
  | [] => ([], inr deployed)
  | cs :: rest =>
      match childGet env (csKind cs) (csAPIVersion cs) ns (csName cs) with
      | None =>
          let '(rest', outcome) := componentLoop env ns rest (wrap32 (deployed + 1)) in
          (cs :: rest', outcome)
      | Some err =>
          if IsNotFound err then
            let cs' :=
              {| csName := csName cs; csKind := csKind cs;
                 csAPIVersion := csAPIVersion cs;
                 csConditions :=
                   SetStatusCondition (now env) (csConditions cs)
                     (newCondition (conditionString Unhealthy) ConditionTrue
                        "ComponentNotFound" EmptyString) |} in
            let '(rest', outcome) := componentLoop env ns rest deployed in
            (cs' :: rest', outcome)
          else (cs :: rest, inl err)
      end
  end.

Definition getComponentStatus (env : Env) (aw : AppWrapper)
  : AppWrapper * (Error + componentStatusSummary) :=
  let records := ComponentStatus (AwStatus aw) in
  let '(records', outcome) := componentLoop env (Namespace aw) records 0 in
  (withComponentStatus aw records',
   match outcome with
   | inl err => inl err
   | inr deployed =>
       inr {| cs_expected := wrap32 (Z.of_nat (length records));
              cs_deployed := deployed |}
   end).

End Aggregators.

(** ** The reconciler *)

Section Reconciler.
Context `{Externals}.
Variable r : AppWrapperReconciler.

Definition updateStatus (env : Env) (st : St) (phase : AppWrapperPhase) : Outcome :=
  let st := setMem st (withPhase (mem st) phase) in
  let '(st, err) := statusUpdate env st in
  finish st emptyResult err.

Definition resetOrFail (env : Env) (st : St) : Outcome :=
  let maxRetries := retryLimit r (mem st) in
  if Retries (AwStatus (mem st)) <? maxRetries then
    let st := setMem st (withRetries (mem st)
                           (wrap32 (Retries (AwStatus (mem st)) + 1))) in
    updateStatus env st AppWrapperResetting
  else updateStatus env st AppWrapperFailed.

(** The call [r.createComponents(ctx, aw)]. *)
Definition callCreateComponents (env : Env) (st : St) : St * option (Error * bool) :=
  let '(status', outcome) := createComponents env (mem st) in
  (logCall (setMem st (withStatus (mem st) status')) CallCreateComponents, outcome).

(** The call [r.deleteComponents(ctx, aw)]. *)
Definition callDeleteComponents (env : Env) (st : St) : St * bool :=
  let '(status', allGone) := deleteComponents env (mem st) in
  (logCall (setMem st (withStatus (mem st) status')) CallDeleteComponents, allGone).

Definition setCond (env : Env) (st : St) (ty : AppWrapperCondition)
    (status : ConditionStatus) (reason message : string) : St :=
  setMem st (setCondition (now env) (mem st) ty status reason message).

Definition clearCond (env : Env) (st : St) (ty : AppWrapperCondition)
    (reason message : string) : St :=
  setMem st (clearCondition (now env) (mem st) ty reason message).

(** The deletion branch from [controllerutil.RemoveFinalizer] on. *)
Definition removeFinalizer (env : Env) (st : St) : Outcome :=
  let '(aw', removed) := RemoveFinalizer (mem st) AppWrapperFinalizer in
  let st := setMem st aw' in
  if removed then
    let '(st, err) := update env st in
    finish st emptyResult err
  else finish st emptyResult None.

(** The deletion branch from the [QuotaReserved] test on; [statusUpdated]
    is the local variable of that name. *)
Definition releaseQuota (env : Env) (st : St) (statusUpdated : bool) : Outcome :=
  let '(st, statusUpdated) :=
    if isTrue (mem st) QuotaReserved
    then (setCond env st QuotaReserved ConditionFalse
            (phaseString AppWrapperTerminating) "No resources deployed", true)
    else (st, statusUpdated) in
  if statusUpdated then
    let '(st, err) := statusUpdate env st in
    match err with
    | Some e => finish st emptyResult (Some e)
    | None => removeFinalizer env st
    end
  else removeFinalizer env st.

(** The branch of [Reconcile] taken when the deletion timestamp is set. *)
Definition reconcileDeletion (env : Env) (st : St) : Outcome :=
  if ContainsFinalizer (mem st) AppWrapperFinalizer then
    if isTrue (mem st) ResourcesDeployed then
      let '(st, allGone) := callDeleteComponents env st in
      if negb allGone then
        (* one or more components are still terminating *)
        if decide (Phase (AwStatus (mem st)) ≠ AppWrapperTerminating) then
          let st := setMem st (withPhase (mem st) AppWrapperTerminating) in
          let '(st, _) := statusUpdate env st in
          finish st {| RequeueAfter := 5 * Second |} None
        else finish st {| RequeueAfter := 5 * Second |} None
      else
        let st := setCond env st ResourcesDeployed ConditionFalse
                    (phaseString AppWrapperTerminating)
                    "Resources successfully deleted" in
        releaseQuota env st true
    else releaseQuota env st false
  else finish st emptyResult None.

(** [case AppWrapperEmpty], from [EnsureComponentStatusInitialized] on. *)
Definition initializeComponents (env : Env) (st : St) : Outcome :=
  match EnsureComponentStatusInitialized (mem st) with
  | inl err => finish st emptyResult (Some err)
  | inr aw' => updateStatus env (setMem st aw') AppWrapperSuspended
  end.

(** [case AppWrapperEmpty]. *)
Definition reconcileEmpty (env : Env) (st : St) : Outcome :=
  let '(aw', added) := AddFinalizer (mem st) AppWrapperFinalizer in
  let st := setMem st aw' in
  if added then
    let '(st, err) := update env st in
    match err with
    | Some e => finish st emptyResult (Some e)
    | None => initializeComponents env st
    end
  else initializeComponents env st.

(** [case AppWrapperSuspended]. *)
Definition reconcileSuspended (env : Env) (st : St) : Outcome :=
  if Suspend (mem st) then finish st emptyResult None
  else
    let reason := phaseString AppWrapperResuming in
    let st := setCond env st QuotaReserved ConditionTrue reason "Suspend is false" in
    let st := setCond env st ResourcesDeployed ConditionTrue reason "Suspend is false" in
    let st := setCond env st PodsReady ConditionFalse reason "Suspend is false" in
    let st := setCond env st Unhealthy ConditionFalse reason "Suspend is false" in
    updateStatus env st AppWrapperResuming.

(** [case AppWrapperResuming]. *)
Definition reconcileResuming (env : Env) (st : St) : Outcome :=
  if Suspend (mem st) then updateStatus env st AppWrapperSuspending
  else
    let '(st, outcome) := callCreateComponents env st in
    match outcome with
    | Some (err, fatal) =>
        let st := setCond env st Unhealthy ConditionTrue "CreateFailed"
                    ("error creating components: " +:+ errText err) in
        if fatal then updateStatus env st AppWrapperFailed
        else resetOrFail env st
    | None => updateStatus env st AppWrapperRunning
    end.

(** [case AppWrapperRunning]. *)
Definition reconcileRunning (env : Env) (st : St) : Outcome :=
  if Suspend (mem st) then updateStatus env st AppWrapperSuspending
  else
    (* First, check the Component-level status of the workload *)
    let '(aw', answer) := getComponentStatus env (mem st) in
    let st := setMem st aw' in
    match answer with
    | inl err => finish st emptyResult (Some err)
    | inr compStatus =>
        if decide (cs_deployed compStatus ≠ cs_expected compStatus) then
          let st := setCond env st Unhealthy ConditionTrue "MissingComponent"
                      ("Only found " +:+ pretty (cs_deployed compStatus)
                       +:+ " deployed components, but was expecting "
                       +:+ pretty (cs_expected compStatus)) in
          updateStatus env st AppWrapperFailed
        else
          (* Second, check the Pod-level status of the workload *)
          match getPodStatus env (mem st) with
          | inl err => finish st emptyResult (Some err)
          | inr podStatus =>
              if (ps_succeeded podStatus >=? ps_expected podStatus)
                 && (wrap32 (wrap32 (ps_pending podStatus + ps_running podStatus)
                             + ps_failed podStatus) =? 0)
              then
                let msg := pretty (ps_succeeded podStatus)
                           +:+ " pods succeeded and no running, pending, or failed pods" in
                let st := setCond env st QuotaReserved ConditionFalse
                            (phaseString AppWrapperSucceeded) msg in
                let st := setCond env st ResourcesDeployed ConditionTrue
                            (phaseString AppWrapperSucceeded) msg in
                updateStatus env st AppWrapperSucceeded
              else if ps_failed podStatus >? 0 then
                let st := setCond env st Unhealthy ConditionTrue "FoundFailedPods"
                            EmptyString in
                match findCondition (mem st) Unhealthy with
                | None => panic st
                | Some c =>
                    let whenDetected := LastTransitionTime c in
                    let gracePeriod := failureGraceDuration r (mem st) in
                    let deadline := Add whenDetected gracePeriod in
                    if Before (now env) deadline then
                      let '(st, err) := statusUpdate env st in
                      finish st {| RequeueAfter := Sub deadline (now env) |} err
                    else resetOrFail env st
                end
              else
                let st := clearCond env st Unhealthy "FoundNoFailedPods" EmptyString in
                if wrap32 (ps_running podStatus + ps_succeeded podStatus)
                   >=? ps_expected podStatus
                then
                  let st := setCond env st PodsReady ConditionTrue "SufficientPodsReady"
                              (pretty (ps_running podStatus) +:+ " pods running; "
                               +:+ pretty (ps_succeeded podStatus)
                               +:+ " pods succeeded") in
                  let '(st, err) := statusUpdate env st in
                  finish st {| RequeueAfter := Minute |} err
                else
                  (* Not ready yet *)
                  let podDetailsMessage :=
                    pretty (ps_pending podStatus) +:+ " pods pending; "
                    +:+ pretty (ps_running podStatus) +:+ " pods running; "
                    +:+ pretty (ps_succeeded podStatus) +:+ " pods succeeded" in
                  let st := clearCond env st PodsReady "InsufficientPodsReady"
                              podDetailsMessage in
                  match findCondition (mem st) ResourcesDeployed with
                  | None => panic st
                  | Some c =>
                      let whenDeployed := LastTransitionTime c in
                      let graceDuration :=
                        if wrap32 (wrap32 (ps_pending podStatus + ps_running podStatus)
                                   + ps_succeeded podStatus)
                           >=? ps_expected podStatus
                        then warmupGraceDuration r (mem st)
                        else admissionGraceDuration r (mem st) in
                      if Before (now env) (Add whenDeployed graceDuration) then
                        let '(st, err) := statusUpdate env st in
                        finish st {| RequeueAfter := 5 * Second |} err
                      else
                        let st := setCond env st Unhealthy ConditionTrue
                                    "InsufficientPodsReady" podDetailsMessage in
                        resetOrFail env st
                  end
          end
    end.

(** [case AppWrapperSuspending], after the children are gone. *)
Definition finishSuspending (env : Env) (st : St) : Outcome :=
  let reason := phaseString AppWrapperSuspended in
  let st := setCond env st QuotaReserved ConditionFalse reason "Suspend is true" in
  let st := clearCond env st PodsReady reason EmptyString in
  let st := clearCond env st Unhealthy reason EmptyString in
  updateStatus env st AppWrapperSuspended.

(** [case AppWrapperSuspending]. *)
Definition reconcileSuspending (env : Env) (st : St) : Outcome :=
  if isTrue (mem st) ResourcesDeployed then
    let '(st, allGone) := callDeleteComponents env st in
    if negb allGone then finish st {| RequeueAfter := 5 * Second |} None
    else
      finishSuspending env
        (setCond env st ResourcesDeployed ConditionFalse
           (phaseString AppWrapperSuspended) "Suspend is true")
  else finishSuspending env st.

(** [case AppWrapperResetting], after the children are gone: pause, then
    resume. *)
Definition pauseBeforeResuming (env : Env) (st : St) : Outcome :=
  match findCondition (mem st) Unhealthy with
  | None => panic st
  | Some c =>
      let whenReset := LastTransitionTime c in
      let pauseDuration := retryPauseDuration r (mem st) in
      let deadline := Add whenReset pauseDuration in
      if Before (now env) deadline then
        let '(st, err) := statusUpdate env st in
        finish st {| RequeueAfter := Sub deadline (now env) |} err
      else
        let st := setCond env st ResourcesDeployed ConditionTrue
                    (phaseString AppWrapperResuming)
                    "Reset complete; resuming" in
        updateStatus env st AppWrapperResuming
  end.

(** [case AppWrapperResetting]. *)
Definition reconcileResetting (env : Env) (st : St) : Outcome :=
  if Suspend (mem st) then updateStatus env st AppWrapperSuspending
  else
    let st := clearCond env st PodsReady (phaseString AppWrapperResetting) EmptyString in
    if isTrue (mem st) ResourcesDeployed then
      let '(st, allGone) := callDeleteComponents env st in
      if negb allGone then finish st {| RequeueAfter := 5 * Second |} None
      else
        pauseBeforeResuming env
          (setCond env st ResourcesDeployed ConditionFalse
             (phaseString AppWrapperResetting)
             "Resources deleted for resetting AppWrapper")
    else pauseBeforeResuming env st.

(** [case AppWrapperFailed], from the release of the quota on. *)
Definition releaseFailed (env : Env) (st : St) : Outcome :=
  let st := setCond env st QuotaReserved ConditionFalse
              (phaseString AppWrapperFailed) "No resources deployed" in
  let '(st, err) := statusUpdate env st in
  finish st emptyResult err.

(** [case AppWrapperFailed], from the [ResourcesDeployed] test on. *)
Definition cleanupFailed (env : Env) (st : St) (deletionDelay : Duration) : Outcome :=
  if isTrue (mem st) ResourcesDeployed then
    let '(st, allGone) := callDeleteComponents env st in
    if negb allGone then finish st {| RequeueAfter := 5 * Second |} None
    else
      let msg :=
        if (deletionDelay >? 0) && Suspend (mem st)
        then "Kueue forced resource deletion by suspending AppWrapper"
        else "Resources deleted for failed AppWrapper" in
      releaseFailed env
        (setCond env st ResourcesDeployed ConditionFalse
           (phaseString AppWrapperFailed) msg)
  else releaseFailed env st.

(** [case AppWrapperFailed]. *)
Definition reconcileFailed (env : Env) (st : St) : Outcome :=
  let deletionDelay := deletionOnFailureGraceDuration r (mem st) in
  if (deletionDelay >? 0) && negb (Suspend (mem st)) then
    let st := setCond env st DeletingResources ConditionFalse "DeletionPaused"
                (DeletionOnFailureGracePeriodAnnotation +:+ " has value "
                 +:+ DurationString deletionDelay) in
    match findCondition (mem st) DeletingResources with
    | None => panic st
    | Some c =>
        let whenDelayed := LastTransitionTime c in
        let deadline := Add whenDelayed deletionDelay in
        if Before (now env) deadline then
          let '(st, err) := statusUpdate env st in
          finish st {| RequeueAfter := Sub deadline (now env) |} err
        else cleanupFailed env st deletionDelay
    end
  else cleanupFailed env st deletionDelay.

(** [case AppWrapperSucceeded]. *)
Definition reconcileSucceeded (env : Env) (st : St) : Outcome :=
  if isTrue (mem st) ResourcesDeployed then
    let deletionDelay := timeToLiveAfterSucceededDuration r (mem st) in
    match findCondition (mem st) ResourcesDeployed with
    | None => panic st
    | Some c =>
        let whenSucceeded := LastTransitionTime c in
        let deadline := Add whenSucceeded deletionDelay in
        if Before (now env) deadline then
          let '(st, err) := statusUpdate env st in
          finish st {| RequeueAfter := Sub deadline (now env) |} err
        else
          let '(st, allGone) := callDeleteComponents env st in
          if negb allGone then finish st {| RequeueAfter := 5 * Second |} None
          else
            let st := setCond env st ResourcesDeployed ConditionFalse
                        (phaseString AppWrapperSucceeded)
                        ("Time to live after success of "
                         +:+ DurationString deletionDelay +:+ " expired") in
            let '(st, err) := statusUpdate env st in
            finish st emptyResult err
    end
  else finish st emptyResult None.

(** The initial [r.Get(ctx, req.NamespacedName, aw)] against the store. *)
Definition get (env : Env) (store : option AppWrapper) : Error + AppWrapper :=
  match getErr env with
  | Some e => inl e
  | None =>
      match store with
      | None => inl {| errKind := NotFound; errText := "not found" |}
      | Some aw => inr aw
      end
  end.

(** The state of an invocation that has just fetched [aw]. *)
Definition fetched (aw : AppWrapper) : St :=
  {| mem := aw; stored := aw; calls := [] |}.

(** [Reconcile], after a successful fetch. *)
Definition reconcileFetched (env : Env) (st : St) : Outcome :=
  (* handle deletion first *)
  if negb (deletionTimestampIsZero (mem st)) then reconcileDeletion env st
  else
    match Phase (AwStatus (mem st)) with
    | AppWrapperEmpty => reconcileEmpty env st
    | AppWrapperSuspended => reconcileSuspended env st
    | AppWrapperResuming => reconcileResuming env st
    | AppWrapperRunning => reconcileRunning env st
    | AppWrapperSuspending => reconcileSuspending env st
    | AppWrapperResetting => reconcileResetting env st
    | AppWrapperFailed => reconcileFailed env st
    | AppWrapperSucceeded => reconcileSucceeded env st
    | AppWrapperTerminating => finish st emptyResult None
    end.

(** [Reconcile]: one invocation against the store [store] (the persisted
    workload, if it exists) in the environment [env]. *)
Definition Reconcile (env : Env) (store : option AppWrapper) : Outcome :=
  match get env store with
  | inl _ =>
      {| ret := Returned emptyResult None; inMemory := None;
         persisted := store; issued := [] |}
  | inr aw => reconcileFetched env (fetched aw)
  end.

End Reconciler.

(** ** A concrete set of collaborators

    Used to run the embedding on concrete workloads.  The duration parser
    reads the fraction-free single-unit fragment of Go's duration syntax
    ([-+]?[0-9]+(ns|us|ms|s|m|h), and the bare "0"); the integer parser reads
    a signed decimal numeral that fits an [int]. *)

Definition digitOf (a : ascii) : option Z :=
  let n := Z.of_nat (nat_of_ascii a) in
  if (48 <=? n) && (n <=? 57) then Some (n - 48) else None.

Fixpoint leadingInt (s : string) (acc : Z) : Z * string :=
  match s with
  | EmptyString => (acc, s)
  | String a rest =>
      match digitOf a with
      | Some d => leadingInt rest (10 * acc + d)
      | None => (acc, s)
      end
  end.

Definition unitOf (u : string) : option Duration :=
  if decide (u = "ns") then Some 1
  else if decide (u = "us") then Some 1000
  else if decide (u = "ms") then Some 1000000
  else if decide (u = "s") then Some Second
  else if decide (u = "m") then Some Minute
  else if decide (u = "h") then Some Hour
  else None.

Definition splitSign (s : string) : bool * string :=
  match s with
  | String "-" rest => (true, rest)
  | String "+" rest => (false, rest)
  | _ => (false, s)
  end.

Definition startsWithDigit (s : string) : bool :=
  match s with
  | String a _ => bool_decide (is_Some (digitOf a))
  | EmptyString => false
  end.

Definition parseSimpleDuration (s : string) : option Duration :=
  let '(neg, body) := splitSign s in
  if decide (body = "0") then Some 0
  else if startsWithDigit body then
    let '(v, rest) := leadingInt body 0 in
    match unitOf rest with
    | Some unit =>
        let d := v * unit in
        if d >? 2 ^ 63 - 1 then None else Some (if neg then - d else d)
    | None => None
    end
  else None.

Definition parseSimpleInt (s : string) : option Z :=
  let '(neg, body) := splitSign s in
  if startsWithDigit body then
    let '(v, rest) := leadingInt body 0 in
    if decide (rest = EmptyString) then
      let n := if neg then - v else v in
      if (n >? 2 ^ 63 - 1) || (n <? - 2 ^ 63) then None else Some n
    else None
  else None.

(** One component record per declared component is what the initializer
    produces; this stand-in declares none. *)
#[local] Instance sampleExternals : Externals := {|
  ParseDuration := parseSimpleDuration;
  Atoi := parseSimpleInt;
  DurationString := λ d, pretty d +:+ "ns";
  ExpectedPodCount := λ _, 1;
  EnsureComponentStatusInitialized := λ aw, inr aw;
  AdmissionGracePeriodDurationAnnotation :=
    "workload.codeflare.dev.appwrapper/admissionGracePeriodDuration";
  WarmupGracePeriodDurationAnnotation :=
    "workload.codeflare.dev.appwrapper/warmupGracePeriodDuration";
  FailureGracePeriodDurationAnnotation :=
    "workload.codeflare.dev.appwrapper/failureGracePeriodDuration";
  RetryPausePeriodDurationAnnotation :=
    "workload.codeflare.dev.appwrapper/retryPausePeriodDuration";
  RetryLimitAnnotation := "workload.codeflare.dev.appwrapper/retryLimit";
  ForcefulDeletionGracePeriodAnnotation :=
    "workload.codeflare.dev.appwrapper/forcefulDeletionGracePeriodDuration";
  DeletionOnFailureGracePeriodAnnotation :=
    "workload.codeflare.dev.appwrapper/deletionOnFailureGracePeriodDuration";
  SuccessTTLAnnotation := "workload.codeflare.dev.appwrapper/successTTLDuration"
|}.

(** A sample configuration: minute-scale grace periods, a one-day ceiling and
    a one-week success TTL. *)
Definition sampleFaultTolerance : FaultToleranceConfig :=
  {| AdmissionGracePeriod := 1 * Minute;
     WarmupGracePeriod := 5 * Minute;
     FailureGracePeriod := 1 * Minute;
     RetryPausePeriod := 90 * Second;
     RetryLimit := 3;
     ForcefulDeletionGracePeriod := 10 * Minute;
     GracePeriodMaximum := 24 * Hour;
     SuccessTTL := 7 * 24 * Hour |}.

Definition sampleReconciler : AppWrapperReconciler :=
  {| Config := {| FaultTolerance := sampleFaultTolerance |} |}.

Definition sampleStatus (p : AppWrapperPhase) (conds : list Condition) : AppWrapperStatus :=
  {| Phase := p; Retries := 0; Conditions := conds; ComponentStatus := [] |}.

Definition sampleWorkload (annotations : gmap string string) (status : AppWrapperStatus)
  : AppWrapper :=
  {| Name := "aw"; Namespace := "default"; Annotations := annotations;
     Finalizers := [AppWrapperFinalizer]; DeletionTimestamp := None;
     Suspend := false; AwStatus := status |}.

(** A quiet cluster: every store call succeeds, every child exists, no pods,
    the collaborators succeed without touching the status. *)
Definition quietEnv (t : Time) : Env :=
  {| now := t; getErr := None; statusUpdateErr := None; updateErr := None;
     childGet := λ _ _ _ _, None;
     podList := inr [];
     createComponents := λ aw, (AwStatus aw, None);
     deleteComponents := λ aw, (AwStatus aw, true) |}.

(** ** Vocabulary of the properties *)

(** The override of a duration as the resolvers see it: the annotation under
    [key], when it is present and parses. *)
Definition parsedOverride `{Externals} (aw : AppWrapper) (key : string) : option Duration :=
  Annotations aw !! key ≫= ParseDuration.

(** Clamping into [[0, M]]. *)
Definition clamp (M d : Z) : Z := Z.max 0 (Z.min d M).

(** A duration resolved under the ceiling [M] from an optional parsed
    override and a default. *)
Definition resolvedUnder (M resolved : Z) (override : option Z) (dflt : Z) : Prop :=
  0 ≤ resolved ≤ M ∧
  match override with
  | Some d => resolved = clamp M d
  | None => resolved = clamp M dflt
  end.

(** The durations a configuration carries. *)
Definition configuredDurations (ft : FaultToleranceConfig) : list Duration :=
  [ AdmissionGracePeriod ft; WarmupGracePeriod ft; FailureGracePeriod ft;
    RetryPausePeriod ft; ForcefulDeletionGracePeriod ft; GracePeriodMaximum ft;
    SuccessTTL ft ].

(** The persisted object after an attempted status write: [written] when the
    store accepted the write, [before] when it refused. *)
Definition afterStatusWrite (env : Env) (before written : AppWrapper) : AppWrapper :=
  match statusUpdateErr env with
  | Some _ => before
  | None => written
  end.

(** The stamped entry [meta.SetStatusCondition] leaves for [new], given the
    entry of that type it found (if any). *)
Definition writtenCondition (now : Time) (found : option Condition) (new : Condition)
  : Condition :=
  match found with
  | Some existing => mergeCondition now existing new
  | None =>
      if IsZero (LastTransitionTime new)
      then {| Type_ := Type_ new; Status := Status new;
              ObservedGeneration := ObservedGeneration new;
              LastTransitionTime := now;
              Reason := Reason new; Message := Message new |}
      else new
  end.

(** The number of pods of [pods] in phase [ph]. *)
Definition countPhase (ph : PodPhase) (pods : list Pod) : Z :=
  Z.of_nat (length (filter (λ p, podPhase p = ph) pods)).

(** The pods [r.List] returns for the workload. *)
Definition matchingPods (aw : AppWrapper) (pods : list Pod) : list Pod :=
  filter (λ p, podMatches aw p = true) pods.

(** An environment whose initial fetch fails with [e]. *)
Definition withGetErr (env : Env) (e : Error) : Env :=
  {| now := now env; getErr := Some e; statusUpdateErr := statusUpdateErr env;
     updateErr := updateErr env; childGet := childGet env; podList := podList env;
     createComponents := createComponents env;
     deleteComponents := deleteComponents env |}.

(** An environment listing the pods [pods]. *)
Definition withPods (env : Env) (pods : list Pod) : Env :=
  {| now := now env; getErr := getErr env; statusUpdateErr := statusUpdateErr env;
     updateErr := updateErr env; childGet := childGet env; podList := inr pods;
     createComponents := createComponents env;
     deleteComponents := deleteComponents env |}.

Definition samplePod (ph : PodPhase) : Pod :=
  {| podNamespace := "default"; podLabels := {[ AppWrapperLabel := "aw" ]};
     podPhase := ph |}.

Definition unavailable : Error :=
  {| errKind := Unavailable; errText := "the server is currently unable to handle the request" |}.

(** A workload as the [Suspended] to [Resuming] transition at instant [t]
    leaves it, in phase [p]. *)
Definition deployedConditions (t : Time) : list Condition :=
  [ mkCondition "QuotaReserved" ConditionTrue 0 t "Resuming" "Suspend is false";
    mkCondition "ResourcesDeployed" ConditionTrue 0 t "Resuming" "Suspend is false";
    mkCondition "PodsReady" ConditionFalse 0 t "Resuming" "Suspend is false";
    mkCondition "Unhealthy" ConditionFalse 0 t "Resuming" "Suspend is false" ].

Definition deployedWorkload (p : AppWrapperPhase) (t : Time) : AppWrapper :=
  sampleWorkload ∅ (sampleStatus p (deployedConditions t)).

(** The store's answer for the child of a component record. *)
Definition childAnswer (env : Env) (ns : string) (cs : AppWrapperComponentStatus)
  : option Error :=
  childGet env (csKind cs) (csAPIVersion cs) ns (csName cs).

(** The number of component records whose child exists. *)
Definition foundChildren (env : Env) (ns : string)
    (records : list AppWrapperComponentStatus) : Z :=
  Z.of_nat (length (filter (λ cs, childAnswer env ns cs = None) records)).

(** An environment in which the child named [gone] has been deleted. *)
Definition withMissingChild (env : Env) (gone : string) : Env :=
  {| now := now env; getErr := getErr env; statusUpdateErr := statusUpdateErr env;
     updateErr := updateErr env;
     childGet := λ kind apiVersion ns name,
       if decide (name = gone)
       then Some {| errKind := NotFound; errText := "not found" |}
       else childGet env kind apiVersion ns name;
     podList := podList env;
     createComponents := createComponents env;
     deleteComponents := deleteComponents env |}.

(** A [Running] workload with two components, deployed at instant [t]. *)
Definition twoComponentWorkload (t : Time) : AppWrapper :=
  sampleWorkload ∅
    {| Phase := AppWrapperRunning; Retries := 1;
       Conditions := deployedConditions t;
       ComponentStatus :=
         [ mkComponentStatus "trainer" "Job" "batch/v1" [];
           mkComponentStatus "frontend" "Service" "v1" [] ] |}.

(** The message of the [InsufficientPodsReady] reports. *)
Definition podDetailsMessage (pending running succeeded : Z) : string :=
  pretty pending +:+ " pods pending; "
  +:+ pretty running +:+ " pods running; "
  +:+ pretty succeeded +:+ " pods succeeded".

(** A deployed workload marked for deletion at 20s. *)
Definition deletingWorkload : AppWrapper :=
  {| Name := "aw"; Namespace := "default"; Annotations := ∅;
     Finalizers := [AppWrapperFinalizer]; DeletionTimestamp := Some (20 * Second);
     Suspend := false;
     AwStatus := sampleStatus AppWrapperRunning (deployedConditions 0) |}.

(** The phase and the conditions of the persisted workload after an
    invocation. *)
Definition persistedPhase (out : Outcome) : option AppWrapperPhase :=
  (λ aw, Phase (AwStatus aw)) <$> persisted out.

Definition persistedConditions (out : Outcome) : option (list Condition) :=
  (λ aw, Conditions (AwStatus aw)) <$> persisted out.

(** A workload as the tenant has just created it. *)
Definition freshWorkload : AppWrapper :=
  {| Name := "aw"; Namespace := "default"; Annotations := ∅;
     Finalizers := []; DeletionTimestamp := None; Suspend := false;
     AwStatus := sampleStatus AppWrapperEmpty [] |}.

(** [aw'] is the object [aw] with another status. *)
Definition sameObject (aw aw' : AppWrapper) : Prop :=
  withStatus aw (AwStatus aw') = aw'.

(** A value of Go's [int32]. *)
Definition int32 (z : Z) : Prop := MinInt32 ≤ z ≤ MaxInt32.

(** Workloads used to exercise the resolvers. *)
Definition overriddenWorkload : AppWrapper :=
  sampleWorkload
    (<[AdmissionGracePeriodDurationAnnotation := "48h"]>
       (<[WarmupGracePeriodDurationAnnotation := "soon"]>
          (<[SuccessTTLAnnotation := "1h"]>
             (<[RetryLimitAnnotation := "5"]> ∅))))
    (sampleStatus AppWrapperRunning []).

Definition plainWorkload : AppWrapper :=
  sampleWorkload ∅ (sampleStatus AppWrapperRunning []).

(** ** The pod watch *)

(** [reconcile.Request]: the namespaced name of the workload to reconcile. *)
Record Request : Set := mkRequest {
  reqNamespace : string;
  reqName : string
}.

(** [podMapFunc]: maps a watched pod to the workload to reconcile. *)
Definition podMapFunc (pod : Pod) : list Request :=
  match podLabels pod !! AppWrapperLabel with
  | Some name =>
      if decide (podPhase pod = PodSucceeded)
      then [ {| reqNamespace := podNamespace pod; reqName := name |} ]
      else []
  | None => []
  end.

(** ** Vocabulary of the further properties *)

(** The status of a condition of the workload, if the condition is there. *)
Definition statusOf (aw : AppWrapper) (ty : AppWrapperCondition) : option ConditionStatus :=
  Status <$> findCondition aw ty.

(** The transition time of a condition of the workload. *)
Definition transitionTimeOf (aw : AppWrapper) (ty : AppWrapperCondition) : option Time :=
  LastTransitionTime <$> findCondition aw ty.

(** The identity of the child a component record names. *)
Definition childIdentity (cs : AppWrapperComponentStatus) : string * string * string :=
  (csKind cs, csAPIVersion cs, csName cs).

(** The edges of the phase graph, self-loops included. *)
Definition phaseEdge (from to : AppWrapperPhase) : bool :=
  bool_decide (from = to) ||
  match from, to with
  | AppWrapperEmpty, AppWrapperSuspended
  | AppWrapperSuspended, AppWrapperResuming
  | AppWrapperResuming, AppWrapperSuspending
  | AppWrapperResuming, AppWrapperRunning
  | AppWrapperResuming, AppWrapperFailed
  | AppWrapperResuming, AppWrapperResetting
  | AppWrapperRunning, AppWrapperSuspending
  | AppWrapperRunning, AppWrapperFailed
  | AppWrapperRunning, AppWrapperSucceeded
  | AppWrapperRunning, AppWrapperResetting
  | AppWrapperSuspending, AppWrapperSuspended
  | AppWrapperResetting, AppWrapperSuspending
  | AppWrapperResetting, AppWrapperResuming => true
  | _, _ => false
  end.

(** An environment whose component materializer answers [answer] and leaves
    the status alone. *)
Definition withCreateAnswer (env : Env) (answer : option (Error * bool)) : Env :=
  {| now := now env; getErr := getErr env; statusUpdateErr := statusUpdateErr env;
     updateErr := updateErr env; childGet := childGet env; podList := podList env;
     createComponents := λ aw, (AwStatus aw, answer);
     deleteComponents := deleteComponents env |}.

(** An environment whose deletion orchestrator answers [allGone] and leaves
    the status alone. *)
Definition withDeleteAnswer (env : Env) (allGone : bool) : Env :=
  {| now := now env; getErr := getErr env; statusUpdateErr := statusUpdateErr env;
     updateErr := updateErr env; childGet := childGet env; podList := podList env;
     createComponents := createComponents env;
     deleteComponents := λ aw, (AwStatus aw, allGone) |}.

(** An environment whose status writes fail with [e]. *)
Definition withStatusUpdateErr (env : Env) (e : Error) : Env :=
  {| now := now env; getErr := getErr env; statusUpdateErr := Some e;
     updateErr := updateErr env; childGet := childGet env; podList := podList env;
     createComponents := createComponents env;
     deleteComponents := deleteComponents env |}.

Definition conflict : Error :=
  {| errKind := Conflict; errText := "the object has been modified" |}.

(** A reconciler configured with a negative ceiling. *)
Definition negativeCeilingReconciler : AppWrapperReconciler :=
  {| Config := {| FaultTolerance :=
       {| AdmissionGracePeriod := 1 * Minute;
          WarmupGracePeriod := 5 * Minute;
          FailureGracePeriod := 1 * Minute;
          RetryPausePeriod := 90 * Second;
          RetryLimit := 3;
          ForcefulDeletionGracePeriod := 10 * Minute;
          GracePeriodMaximum := - Hour;
          SuccessTTL := 7 * 24 * Hour |} |} |}.

(** A failed workload kept for debugging for two days, with no retry. *)
Definition debuggedWorkload : AppWrapper :=
  sampleWorkload
    (<[DeletionOnFailureGracePeriodAnnotation := "48h"]>
       (<[RetryLimitAnnotation := "0"]> ∅))
    (sampleStatus AppWrapperFailed (deployedConditions 0)).

(** What [getComponentStatus] leaves of a component record [cs] in [cs']:
    the record itself when its child exists, the record marked unhealthy
    when its child is not found. *)
Definition recordAfter (env : Env) (ns : string)
    (cs cs' : AppWrapperComponentStatus) : Prop :=
  childIdentity cs' = childIdentity cs ∧
  match childAnswer env ns cs with
  | None => cs' = cs
  | Some _ =>
      ∃ c, FindStatusCondition (csConditions cs') (conditionString Unhealthy) = Some c ∧
           Status c = ConditionTrue ∧ Reason c = "ComponentNotFound"
  end.

(** An environment in which fetching the child named [broken] fails with a
    transient error. *)
Definition withUnavailableChild (env : Env) (broken : string) : Env :=
  {| now := now env; getErr := getErr env; statusUpdateErr := statusUpdateErr env;
     updateErr := updateErr env;
     childGet := λ kind apiVersion ns name,
       if decide (name = broken) then Some unavailable
       else childGet env kind apiVersion ns name;
     podList := podList env;
     createComponents := createComponents env;
     deleteComponents := deleteComponents env |}.

(** A pod of another workload of the same namespace. *)
Definition foreignPod (ph : PodPhase) : Pod :=
  {| podNamespace := "default"; podLabels := {[ AppWrapperLabel := "other" ]};
     podPhase := ph |}.

(** The instant since which the condition [ty] of [aw] has had status [st],
    for an observer writing that status at [now]: the transition time of
    the condition if it already has that status, [now] otherwise. *)
Definition since (now : Time) (aw : AppWrapper) (ty : AppWrapperCondition)
    (st : ConditionStatus) : Time :=
  match findCondition aw ty with
  | Some c => if decide (Status c = st) then LastTransitionTime c else now
  | None => now
  end.

(** A workload whose children have been deleted for a retry at instant [t]. *)
Definition resettingWorkload (t : Time) : AppWrapper :=
  sampleWorkload ∅
    {| Phase := AppWrapperResetting; Retries := 1;
       Conditions :=
         [ mkCondition "QuotaReserved" ConditionTrue 0 0 "Resuming" "Suspend is false";
           mkCondition "ResourcesDeployed" ConditionFalse 0 t "Resetting"
             "Resources deleted for resetting AppWrapper";
           mkCondition "Unhealthy" ConditionTrue 0 t "FoundFailedPods" EmptyString ];
       ComponentStatus := [] |}.

(** * Properties *)

Example parseSimpleDuration_90s : parseSimpleDuration "90s" = Some (90 * Second).
Proof. reflexivity. Qed.
Example parseSimpleDuration_neg : parseSimpleDuration "-5m" = Some (- (5 * Minute)).
Proof. reflexivity. Qed.
Example parseSimpleDuration_bad : parseSimpleDuration "soon" = None.
Proof. reflexivity. Qed.

(** ** Grace-policy evaluator *)

Section GracePolicyFacts.
Context `{Externals}.
Variable r : AppWrapperReconciler.

Let ft := FaultTolerance (Config r).

Lemma limitDuration_clamp d :
  0 ≤ GracePeriodMaximum ft → limitDuration r d = clamp (GracePeriodMaximum ft) d.
Proof.
  intros HM. unfold limitDuration, clamp. fold ft.
  destruct (Z.ltb_spec d 0); [lia|].
  destruct (Z.gtb_spec d (GracePeriodMaximum ft)); lia.
Qed.

Lemma limitDuration_bounds d :
  0 ≤ GracePeriodMaximum ft → 0 ≤ limitDuration r d ≤ GracePeriodMaximum ft.
Proof. intros HM. rewrite limitDuration_clamp by done. unfold clamp. lia. Qed.

Lemma limitDuration_resolved d override dflt :
  0 ≤ GracePeriodMaximum ft →
  d = limitDuration r (default dflt override) →
  resolvedUnder (GracePeriodMaximum ft) d override dflt.
Proof.
  intros HM ->. split; [by apply limitDuration_bounds|].
  destruct override; simpl; by apply limitDuration_clamp.
Qed.

End GracePolicyFacts.

(** Unfolds a resolver and splits on the annotation and on the parse. *)
Ltac split_override :=
  unfold parsedOverride;
  repeat match goal with
         | |- context [Annotations ?aw !! ?k] =>
             destruct (Annotations aw !! k) as [?userPeriod|]; simpl
         | |- context [ParseDuration ?s] =>
             destruct (ParseDuration s) as [?duration|]; simpl
         end.

(** C4.  Under a ceiling [M >= 0], each of the admission, warmup, failure,
    retry-pause and forceful-deletion grace durations resolves to a value in
    [[0, M]]: the parsed override clamped into [[0, M]] when the annotation is
    present and parses, the clamped configured default otherwise.  The
    resolvers are total: they return a duration for every annotation string. *)
Theorem C4_grace_durations_clamped `{Externals} (r : AppWrapperReconciler) (aw : AppWrapper) :
  let ft := FaultTolerance (Config r) in
  let M := GracePeriodMaximum ft in
  0 ≤ M →
  resolvedUnder M (admissionGraceDuration r aw)
    (parsedOverride aw AdmissionGracePeriodDurationAnnotation) (AdmissionGracePeriod ft) ∧
  resolvedUnder M (warmupGraceDuration r aw)
    (parsedOverride aw WarmupGracePeriodDurationAnnotation) (WarmupGracePeriod ft) ∧
  resolvedUnder M (failureGraceDuration r aw)
    (parsedOverride aw FailureGracePeriodDurationAnnotation) (FailureGracePeriod ft) ∧
  resolvedUnder M (retryPauseDuration r aw)
    (parsedOverride aw RetryPausePeriodDurationAnnotation) (RetryPausePeriod ft) ∧
  resolvedUnder M (forcefulDeletionGraceDuration r aw)
    (parsedOverride aw ForcefulDeletionGracePeriodAnnotation)
    (ForcefulDeletionGracePeriod ft).
Proof.
  intros ft M HM.
  repeat split_and; apply limitDuration_resolved; try done.
  - unfold admissionGraceDuration. by split_override.
  - unfold warmupGraceDuration. by split_override.
  - unfold failureGraceDuration. by split_override.
  - unfold retryPauseDuration. by split_override.
  - unfold forcefulDeletionGraceDuration. by split_override.
Qed.

(** C5.  With a success-TTL override that parses to [d] and a configured
    default [T], the resolved TTL is [d] when [0 < d < T] and [T] for every
    other [d]; it is [T] when the annotation is absent or does not parse.  The
    resolved TTL can coincide with [d] outside [0 < d < T] only when [d = T]. *)
Theorem C5_success_ttl_asymmetry `{Externals} (r : AppWrapperReconciler) (aw : AppWrapper) :
  let T := SuccessTTL (FaultTolerance (Config r)) in
  let ttl := timeToLiveAfterSucceededDuration r aw in
  match parsedOverride aw SuccessTTLAnnotation with
  | Some d =>
      (0 < d < T → ttl = d) ∧
      (d ≤ 0 ∨ T ≤ d → ttl = T) ∧
      (ttl = d → 0 < d < T ∨ d = T)
  | None => ttl = T
  end.
Proof.
  intros T ttl. subst T ttl. unfold timeToLiveAfterSucceededDuration.
  split_override; try done.
  destruct (Z.gtb_spec duration 0), (Z.ltb_spec duration (SuccessTTL (FaultTolerance (Config r))));
    simpl; repeat split; intros; lia.
Qed.

(** C6, as amended.  When the override annotation is absent or does not
    parse: the admission, warmup, failure, retry-pause and forceful-deletion
    grace durations resolve to their configured default clamped to the
    ceiling; the deletion-on-failure delay resolves to zero, whatever the
    configuration; the success TTL resolves to the configured success TTL as
    it is, without clamping. *)
Theorem C6_defaults_when_no_override `{Externals} (r : AppWrapperReconciler) (aw : AppWrapper) :
  let ft := FaultTolerance (Config r) in
  (parsedOverride aw AdmissionGracePeriodDurationAnnotation = None →
   admissionGraceDuration r aw = limitDuration r (AdmissionGracePeriod ft)) ∧
  (parsedOverride aw WarmupGracePeriodDurationAnnotation = None →
   warmupGraceDuration r aw = limitDuration r (WarmupGracePeriod ft)) ∧
  (parsedOverride aw FailureGracePeriodDurationAnnotation = None →
   failureGraceDuration r aw = limitDuration r (FailureGracePeriod ft)) ∧
  (parsedOverride aw RetryPausePeriodDurationAnnotation = None →
   retryPauseDuration r aw = limitDuration r (RetryPausePeriod ft)) ∧
  (parsedOverride aw ForcefulDeletionGracePeriodAnnotation = None →
   forcefulDeletionGraceDuration r aw = limitDuration r (ForcefulDeletionGracePeriod ft)) ∧
  (parsedOverride aw DeletionOnFailureGracePeriodAnnotation = None →
   deletionOnFailureGraceDuration r aw = 0) ∧
  (parsedOverride aw SuccessTTLAnnotation = None →
   timeToLiveAfterSucceededDuration r aw = SuccessTTL ft).
Proof.
  intros ft.
  unfold admissionGraceDuration, warmupGraceDuration, failureGraceDuration,
    retryPauseDuration, forcefulDeletionGraceDuration,
    deletionOnFailureGraceDuration, timeToLiveAfterSucceededDuration.
  repeat split_and; split_override; done.
Qed.

Lemma C4_grace_durations_clamped_witness :
  0 ≤ GracePeriodMaximum (FaultTolerance (Config sampleReconciler)) ∧
  admissionGraceDuration sampleReconciler overriddenWorkload = 24 * Hour ∧
  warmupGraceDuration sampleReconciler overriddenWorkload = 5 * Minute.
Proof.
  assert (HM : 0 ≤ GracePeriodMaximum (FaultTolerance (Config sampleReconciler)))
    by (by vm_compute).
  destruct (C4_grace_durations_clamped sampleReconciler overriddenWorkload HM)
    as ([_ Hadm] & [_ Hwarm] & _).
  split; [exact HM|]. split; [exact Hadm | exact Hwarm].
Defined.

Lemma C5_success_ttl_asymmetry_witness :
  timeToLiveAfterSucceededDuration sampleReconciler overriddenWorkload = 1 * Hour.
Proof.
  pose proof (C5_success_ttl_asymmetry sampleReconciler overriddenWorkload) as Httl.
  change (parsedOverride overriddenWorkload SuccessTTLAnnotation)
    with (Some (1 * Hour)) in Httl.
  apply Httl. by vm_compute.
Defined.

(** C6, refuted as stated.  In the sample configuration every configured
    duration is positive, yet with no override the deletion-on-failure delay
    resolves to zero, which is the clamped value of none of them; and the
    success TTL resolves to one week, above the one-day ceiling. *)
Lemma C6_counterexample :
  parsedOverride plainWorkload DeletionOnFailureGracePeriodAnnotation = None ∧
  Forall (λ d, deletionOnFailureGraceDuration sampleReconciler plainWorkload
               ≠ limitDuration sampleReconciler d)
    (configuredDurations (FaultTolerance (Config sampleReconciler))) ∧
  parsedOverride plainWorkload SuccessTTLAnnotation = None ∧
  timeToLiveAfterSucceededDuration sampleReconciler plainWorkload
  ≠ limitDuration sampleReconciler (SuccessTTL (FaultTolerance (Config sampleReconciler))).
Proof.
  split; [reflexivity|]. split.
  - repeat constructor; by vm_compute.
  - split; [reflexivity | by vm_compute].
Qed.

Lemma C6_defaults_when_no_override_witness :
  parsedOverride plainWorkload DeletionOnFailureGracePeriodAnnotation = None ∧
  deletionOnFailureGraceDuration sampleReconciler plainWorkload = 0 ∧
  parsedOverride overriddenWorkload WarmupGracePeriodDurationAnnotation = None ∧
  warmupGraceDuration sampleReconciler overriddenWorkload
  = limitDuration sampleReconciler (WarmupGracePeriod (FaultTolerance (Config sampleReconciler))).
Proof.
  pose proof (C6_defaults_when_no_override sampleReconciler plainWorkload)
    as (_ & _ & _ & _ & _ & Hdel & _).
  pose proof (C6_defaults_when_no_override sampleReconciler overriddenWorkload)
    as (_ & Hwarm & _).
  split; [reflexivity|]. split; [apply Hdel; reflexivity|].
  split; [reflexivity | apply Hwarm; reflexivity].
Defined.

(** ** The bounded-retry gate *)

Lemma wrap32_int32 z : int32 (wrap32 z).
Proof.
  unfold int32, wrap32, MinInt32, MaxInt32.
  pose proof (Z.mod_pos_bound (z + 2 ^ 31) (2 ^ 32) ltac:(lia)). lia.
Qed.

Lemma wrap32_id z : int32 z → wrap32 z = z.
Proof.
  unfold int32, wrap32, MinInt32, MaxInt32. intros Hz.
  rewrite Z.mod_small; lia.
Qed.

Lemma retryLimit_int32 `{Externals} (r : AppWrapperReconciler) (aw : AppWrapper) :
  int32 (RetryLimit (FaultTolerance (Config r))) → int32 (retryLimit r aw).
Proof.
  intros Hcfg. unfold retryLimit.
  destruct (Annotations aw !! RetryLimitAnnotation) as [userLimit|]; [|done].
  destruct (Atoi userLimit) as [limit|]; [apply wrap32_int32 | done].
Qed.

(** What [updateStatus] leaves behind: the in-memory object carries the new
    phase; the store carries it too exactly when the write succeeded. *)
Lemma updateStatus_spec `{Externals} (env : Env) (st : St) (phase : AppWrapperPhase) :
  ∃ aw',
    inMemory (updateStatus env st phase) = Some aw' ∧
    AwStatus aw' = AwStatus (withPhase (mem st) phase) ∧
    ret (updateStatus env st phase) = Returned emptyResult (statusUpdateErr env) ∧
    persisted (updateStatus env st phase)
    = Some (afterStatusWrite env (stored st) (withStatus (stored st) (AwStatus aw'))).
Proof.
  unfold updateStatus, statusUpdate, afterStatusWrite. simpl.
  destruct (statusUpdateErr env) as [e|]; simpl; eexists; repeat split.
Qed.

(** C1.  The reset-or-fail gate: with fewer retries than the resolved limit
    it adds exactly one retry and sets the phase to [Resetting]; otherwise it
    sets the phase to [Failed] and leaves the retries alone.  Hence the gate
    never raises the retries above the limit: a workload it sends to
    [Resetting] has at most [limit] retries, and a bound [retries <= limit]
    that held before the gate holds after it.  The store receives this status
    when the status write succeeds and is left untouched when it fails. *)
Theorem C1_reset_or_fail_gate `{Externals} (r : AppWrapperReconciler) (env : Env) (st : St) :
  let before := AwStatus (mem st) in
  let limit := retryLimit r (mem st) in
  let out := resetOrFail r env st in
  int32 (Retries before) →
  int32 (RetryLimit (FaultTolerance (Config r))) →
  ∃ aw',
    inMemory out = Some aw' ∧
    (Retries before < limit →
       Retries (AwStatus aw') = Retries before + 1 ∧
       Phase (AwStatus aw') = AppWrapperResetting) ∧
    (¬ Retries before < limit →
       Retries (AwStatus aw') = Retries before ∧
       Phase (AwStatus aw') = AppWrapperFailed) ∧
    (Phase (AwStatus aw') = AppWrapperResetting → Retries (AwStatus aw') ≤ limit) ∧
    (Retries before ≤ limit → Retries (AwStatus aw') ≤ limit) ∧
    persisted out
    = Some (afterStatusWrite env (stored st) (withStatus (stored st) (AwStatus aw'))).
Proof.
  intros before limit out Hretries Hcfg. subst out. unfold resetOrFail.
  fold limit. fold before.
  pose proof (retryLimit_int32 r (mem st) Hcfg) as Hlimit. fold limit in Hlimit.
  destruct (Z.ltb_spec (Retries before) limit) as [Hlt|Hge].
  - match goal with
    | |- context [updateStatus env ?s ?p] =>
        destruct (updateStatus_spec env s p) as (aw' & Hmem & Hst & _ & Hstore)
    end.
    exists aw'. rewrite Hmem, Hstore, Hst. simpl.
    assert (wrap32 (Retries before + 1) = Retries before + 1) as ->
      by (apply wrap32_id; unfold int32 in *; lia).
    repeat split; intros; try lia.
  - destruct (updateStatus_spec env st AppWrapperFailed) as (aw' & Hmem & Hst & _ & Hstore).
    exists aw'. rewrite Hmem, Hstore, Hst. simpl. fold before.
    repeat split; intros; try lia; try done.
Qed.

Lemma C1_reset_or_fail_gate_witness :
  ∃ aw',
    inMemory (resetOrFail sampleReconciler (quietEnv 0)
                {| mem := overriddenWorkload; stored := overriddenWorkload; calls := [] |})
    = Some aw' ∧
    Retries (AwStatus aw') = 1 ∧ Phase (AwStatus aw') = AppWrapperResetting.
Proof.
  destruct (C1_reset_or_fail_gate sampleReconciler (quietEnv 0)
              {| mem := overriddenWorkload; stored := overriddenWorkload; calls := [] |})
    as (aw' & Hmem & Hreset & _).
  - by vm_compute.
  - by vm_compute.
  - exists aw'. split; [exact Hmem|]. apply Hreset. by vm_compute.
Defined.

(** ** The condition ledger *)

Section LedgerFacts.
Variable now : Time.

Lemma Find_app l x ty :
  FindStatusCondition (l ++ [x]) ty =
  match FindStatusCondition l ty with
  | Some c => Some c
  | None => if decide (Type_ x = ty) then Some x else None
  end.
Proof.
  induction l as [|c l IH]; simpl; [done|].
  destruct (decide (Type_ c = ty)); [done | apply IH].
Qed.

Lemma Find_updateFirst_same new l :
  FindStatusCondition (updateFirst now new l) (Type_ new) =
  (λ c, mergeCondition now c new) <$> FindStatusCondition l (Type_ new).
Proof.
  induction l as [|c l IH]; simpl; [done|].
  destruct (decide (Type_ c = Type_ new)) as [Heq|Hne]; simpl.
  - by rewrite decide_True.
  - by rewrite decide_False.
Qed.

Lemma Find_updateFirst_other new l ty :
  ty ≠ Type_ new →
  FindStatusCondition (updateFirst now new l) ty = FindStatusCondition l ty.
Proof.
  intros Hne. induction l as [|c l IH]; simpl; [done|].
  destruct (decide (Type_ c = Type_ new)) as [Heq|Hne']; simpl.
  - rewrite !decide_False by congruence. done.
  - destruct (decide (Type_ c = ty)); [done | apply IH].
Qed.

(** After a write, the entry of the written type is the stamped one. *)
Lemma Find_Set_same l new :
  FindStatusCondition (SetStatusCondition now l new) (Type_ new)
  = Some (writtenCondition now (FindStatusCondition l (Type_ new)) new).
Proof.
  unfold SetStatusCondition, writtenCondition.
  destruct (FindStatusCondition l (Type_ new)) as [c|] eqn:Hfind.
  - rewrite Find_updateFirst_same, Hfind. done.
  - rewrite Find_app, Hfind.
    destruct (IsZero (LastTransitionTime new)); simpl; by rewrite decide_True.
Qed.

(** A write leaves the entries of the other types alone. *)
Lemma Find_Set_other l new ty :
  ty ≠ Type_ new →
  FindStatusCondition (SetStatusCondition now l new) ty = FindStatusCondition l ty.
Proof.
  intros Hne. unfold SetStatusCondition.
  destruct (FindStatusCondition l (Type_ new)) eqn:Hfind.
  - by apply Find_updateFirst_other.
  - rewrite Find_app.
    destruct (FindStatusCondition l ty); [done|].
    destruct (IsZero (LastTransitionTime new)); simpl; by rewrite decide_False.
Qed.

Lemma writtenCondition_status found new :
  Status (writtenCondition now found new) = Status new.
Proof.
  unfold writtenCondition.
  destruct found; [done|]. by destruct (IsZero _).
Qed.

Lemma writtenCondition_reason found new :
  Reason (writtenCondition now found new) = Reason new.
Proof.
  unfold writtenCondition.
  destruct found; [done|]. by destruct (IsZero _).
Qed.

Lemma writtenCondition_message found new :
  Message (writtenCondition now found new) = Message new.
Proof.
  unfold writtenCondition.
  destruct found; [done|]. by destruct (IsZero _).
Qed.

Lemma IsTrue_Set_same l new :
  IsStatusConditionTrue (SetStatusCondition now l new) (Type_ new)
  = bool_decide (Status new = ConditionTrue).
Proof.
  unfold IsStatusConditionTrue.
  by rewrite Find_Set_same, writtenCondition_status.
Qed.

Lemma IsTrue_Set_other l new ty :
  ty ≠ Type_ new →
  IsStatusConditionTrue (SetStatusCondition now l new) ty
  = IsStatusConditionTrue l ty.
Proof.
  intros Hne. unfold IsStatusConditionTrue. by rewrite Find_Set_other.
Qed.

End LedgerFacts.

Lemma conditionString_inj : Inj (=) (=) conditionString.
Proof. intros [] [] Heq; try done; by vm_compute in Heq. Qed.

(** ** Entry of the reconciliation *)

(** What [Reconcile] does with an error of the initial fetch: whatever the
    error, not-found or transient, the invocation returns an empty result
    and a nil error, issues no call and leaves the store as it was. *)
Lemma fetch_error_is_dropped `{Externals} (r : AppWrapperReconciler) (env : Env)
    (store : option AppWrapper) (e : Error) :
  get env store = inl e →
  Reconcile r env store
  = {| ret := Returned emptyResult None; inMemory := None;
       persisted := store; issued := [] |}.
Proof. intros Hget. unfold Reconcile. by rewrite Hget. Qed.

(** C9, at the failing input.  The workload exists and is [Running]; its
    fetch fails with a transient [Unavailable] error, which is not a
    not-found.  The invocation returns an empty result and a nil error and
    does nothing else, so the dispatcher is not asked to retry, where the
    claim has the error propagated.  The same error on the fetch of a child
    of the same workload is returned to the dispatcher as it is. *)
Lemma C9_transient_fetch_error_is_dropped :
  get (withGetErr (quietEnv 0) unavailable) (Some (twoComponentWorkload 0))
  = inl unavailable ∧
  IsNotFound unavailable = false ∧
  Reconcile sampleReconciler (withGetErr (quietEnv 0) unavailable)
    (Some (twoComponentWorkload 0))
  = {| ret := Returned emptyResult None; inMemory := None;
       persisted := Some (twoComponentWorkload 0); issued := [] |} ∧
  ret (Reconcile sampleReconciler (withUnavailableChild (quietEnv 0) "trainer")
         (Some (twoComponentWorkload 0)))
  = Returned emptyResult (Some unavailable).
Proof. repeat split. Qed.

(** ** Status aggregation *)

Lemma wrap32_add_l a b : wrap32 (wrap32 a + b) = wrap32 (a + b).
Proof.
  unfold wrap32. f_equal.
  replace (((a + 2 ^ 31) mod 2 ^ 32 - 2 ^ 31) + b + 2 ^ 31)
    with ((a + 2 ^ 31) mod 2 ^ 32 + b) by lia.
  rewrite Zplus_mod_idemp_l. f_equal. lia.
Qed.

Lemma countPhase_cons ph p pods :
  countPhase ph (p :: pods)
  = (if decide (podPhase p = ph) then 1 else 0) + countPhase ph pods.
Proof.
  unfold countPhase. rewrite filter_cons.
  destruct (decide (podPhase p = ph)); simpl; lia.
Qed.

Lemma countPhase_nonneg ph pods : 0 ≤ countPhase ph pods.
Proof. unfold countPhase. lia. Qed.

Lemma countPhase_le_length ph pods : countPhase ph pods ≤ Z.of_nat (length pods).
Proof. unfold countPhase. pose proof (length_filter (λ p, podPhase p = ph) pods). lia. Qed.

(** The counting loop of [getPodStatus]: each counter advances, with
    [int32] wrap-around, by the number of pods in its phase. *)
Lemma countPod_fold pods : ∀ s,
  fold_left countPod pods s
  = {| ps_expected := ps_expected s;
       ps_pending := if decide (countPhase PodPending pods = 0) then ps_pending s
                     else wrap32 (ps_pending s + countPhase PodPending pods);
       ps_running := if decide (countPhase PodRunning pods = 0) then ps_running s
                     else wrap32 (ps_running s + countPhase PodRunning pods);
       ps_succeeded := if decide (countPhase PodSucceeded pods = 0) then ps_succeeded s
                       else wrap32 (ps_succeeded s + countPhase PodSucceeded pods);
       ps_failed := if decide (countPhase PodFailed pods = 0) then ps_failed s
                    else wrap32 (ps_failed s + countPhase PodFailed pods) |}.
Proof.
  induction pods as [|p pods IH]; intros s.
  - by destruct s.
  - simpl. rewrite IH. rewrite !(countPhase_cons _ p).
    pose proof (countPhase_nonneg PodPending pods).
    pose proof (countPhase_nonneg PodRunning pods).
    pose proof (countPhase_nonneg PodSucceeded pods).
    pose proof (countPhase_nonneg PodFailed pods).
    unfold countPod. destruct (podPhase p); simpl;
      repeat case_decide; try lia; f_equal;
      rewrite ?wrap32_add_l; try done; try (f_equal; lia);
      match goal with
      | Hz : countPhase _ _ = 0 |- _ => rewrite Hz; f_equal; lia
      end.
Qed.

Lemma sum_countPhase pods :
  countPhase PodPending pods + countPhase PodRunning pods
  + countPhase PodSucceeded pods + countPhase PodFailed pods
  + countPhase PodUnknown pods
  = Z.of_nat (length pods).
Proof.
  induction pods as [|p pods IH]; [done|].
  rewrite !(countPhase_cons _ p). simpl length.
  destruct (podPhase p); repeat case_decide; try done; lia.
Qed.

Lemma getPodStatus_listed `{Externals} (env : Env) (aw : AppWrapper) (pods : list Pod) :
  podList env = inr pods →
  getPodStatus env aw
  = inr {| ps_expected := ExpectedPodCount aw;
           ps_pending := wrap32 (countPhase PodPending (matchingPods aw pods));
           ps_running := wrap32 (countPhase PodRunning (matchingPods aw pods));
           ps_succeeded := wrap32 (countPhase PodSucceeded (matchingPods aw pods));
           ps_failed := wrap32 (countPhase PodFailed (matchingPods aw pods)) |}.
Proof.
  intros Hlist. unfold getPodStatus. rewrite Hlist, countPod_fold. simpl.
  fold (matchingPods aw pods).
  f_equal. f_equal; case_decide as Hz; try done; by rewrite Hz.
Qed.

Lemma getPodStatus_counts `{Externals} (env : Env) (aw : AppWrapper) (pods : list Pod) :
  getPodStatus (withPods env pods) aw
  = inr {| ps_expected := ExpectedPodCount aw;
           ps_pending := wrap32 (countPhase PodPending (matchingPods aw pods));
           ps_running := wrap32 (countPhase PodRunning (matchingPods aw pods));
           ps_succeeded := wrap32 (countPhase PodSucceeded (matchingPods aw pods));
           ps_failed := wrap32 (countPhase PodFailed (matchingPods aw pods)) |}.
Proof. by apply getPodStatus_listed. Qed.

Lemma countPhase_drop_unknown ph aw pods :
  ph ≠ PodUnknown →
  countPhase ph (matchingPods aw (filter (λ p, podPhase p ≠ PodUnknown) pods))
  = countPhase ph (matchingPods aw pods).
Proof.
  intros Hph. induction pods as [|p pods IH]; [done|].
  unfold matchingPods in *. rewrite !filter_cons.
  destruct (decide (podPhase p ≠ PodUnknown)) as [Hknown|Hunknown].
  - rewrite filter_cons. destruct (decide (podMatches aw p = true)); [|done].
    rewrite !countPhase_cons. by rewrite IH.
  - destruct (decide (podMatches aw p = true)); [|done].
    rewrite countPhase_cons, IH. rewrite decide_False; [done|].
    intros Heq. apply Hunknown. congruence.
Qed.

(** C10.  The pod-status aggregation counts a matching pod under [pending],
    [running], [succeeded] or [failed] according to its phase and counts a
    pod in the [Unknown] phase nowhere: the summary is the same with the
    [Unknown] pods removed from the listing, and the four counts add up to
    the number of matching pods minus the [Unknown] ones.  In particular a
    [Running] workload passes the success test and moves to [Succeeded] while
    a matching pod in the [Unknown] phase still exists. *)
Theorem C10_unknown_pods_are_not_counted :
  (∀ (E : Externals) (env : Env) (aw : AppWrapper) (pods : list Pod),
     let listed := matchingPods aw pods in
     getPodStatus (withPods env pods) aw
     = inr {| ps_expected := ExpectedPodCount aw;
              ps_pending := wrap32 (countPhase PodPending listed);
              ps_running := wrap32 (countPhase PodRunning listed);
              ps_succeeded := wrap32 (countPhase PodSucceeded listed);
              ps_failed := wrap32 (countPhase PodFailed listed) |}
     ∧ getPodStatus (withPods env pods) aw
       = getPodStatus (withPods env (filter (λ p, podPhase p ≠ PodUnknown) pods)) aw
     ∧ countPhase PodPending listed + countPhase PodRunning listed
       + countPhase PodSucceeded listed + countPhase PodFailed listed
       = Z.of_nat (length listed) - countPhase PodUnknown listed)
  ∧ (∃ (E : Externals) (r : AppWrapperReconciler) (env : Env) (aw : AppWrapper)
       (pods : list Pod) (unknown : Pod) (s : podStatusSummary) (aw' : AppWrapper),
       podList env = inr pods
       ∧ unknown ∈ matchingPods aw pods ∧ podPhase unknown = PodUnknown
       ∧ Phase (AwStatus aw) = AppWrapperRunning
       ∧ getPodStatus env aw = inr s
       ∧ ps_pending s + ps_running s + ps_succeeded s + ps_failed s
         < Z.of_nat (length (matchingPods aw pods))
       ∧ ps_expected s ≤ ps_succeeded s
       ∧ ps_pending s + ps_running s + ps_failed s = 0
       ∧ persisted (Reconcile r env (Some aw)) = Some aw'
       ∧ Phase (AwStatus aw') = AppWrapperSucceeded).
Proof.
  split.
  - intros E env aw pods listed. subst listed. split; [apply getPodStatus_counts|]. split.
    + rewrite !getPodStatus_counts. by rewrite !countPhase_drop_unknown.
    + pose proof (sum_countPhase (matchingPods aw pods)). lia.
  - exists sampleExternals, sampleReconciler,
      (withPods (quietEnv (10 * Second)) [samplePod PodSucceeded; samplePod PodUnknown]),
      (deployedWorkload AppWrapperRunning 0),
      [samplePod PodSucceeded; samplePod PodUnknown], (samplePod PodUnknown).
    eexists. eexists.
    split; [reflexivity|]. split; [by vm_compute; apply list_elem_of_In; right; left|].
    split; [reflexivity|]. split; [reflexivity|]. split; [vm_compute; reflexivity|].
    split; [by vm_compute|]. split; [by vm_compute|]. split; [reflexivity|].
    split; [vm_compute; reflexivity | reflexivity].
Qed.

(** ** Missing components *)

(** [getComponentStatus] touches the component records only. *)
Lemma getComponentStatus_frame `{Externals} (env : Env) (aw aw1 : AppWrapper) answer :
  getComponentStatus env aw = (aw1, answer) →
  ∃ records', aw1 = withComponentStatus aw records'.
Proof.
  unfold getComponentStatus.
  destruct (componentLoop env (Namespace aw) (ComponentStatus (AwStatus aw)) 0)
    as [records' outcome].
  intros [= <- _]. by exists records'.
Qed.

Lemma foundChildren_cons env ns cs records :
  foundChildren env ns (cs :: records)
  = (if decide (childAnswer env ns cs = None) then 1 else 0)
    + foundChildren env ns records.
Proof.
  unfold foundChildren. rewrite filter_cons.
  destruct (decide (childAnswer env ns cs = None)); simpl; lia.
Qed.

Lemma foundChildren_bounds env ns records :
  0 ≤ foundChildren env ns records ≤ Z.of_nat (length records).
Proof.
  unfold foundChildren.
  pose proof (length_filter (λ cs, childAnswer env ns cs = None) records). lia.
Qed.

(** When every failed child fetch is a not-found, the loop ends normally and
    has counted the children that exist. *)
Lemma componentLoop_deployed `{Externals} (env : Env) (ns : string) records :
  Forall (λ cs, ∀ e, childAnswer env ns cs = Some e → IsNotFound e = true) records →
  ∀ d0, int32 d0 →
  (componentLoop env ns records d0).2 = inr (wrap32 (d0 + foundChildren env ns records)).
Proof.
  induction 1 as [|cs records Hcs _ IH]; intros d0 Hd0; simpl.
  - unfold foundChildren. simpl. rewrite Z.add_0_r. by rewrite wrap32_id.
  - rewrite foundChildren_cons. fold (childAnswer env ns cs).
    destruct (childAnswer env ns cs) as [e|] eqn:Hanswer.
    + rewrite (Hcs e eq_refl). rewrite decide_False by done.
      specialize (IH d0 Hd0).
      destruct (componentLoop env ns records d0) as [rest' outcome]. simpl in *.
      by rewrite IH.
    + rewrite decide_True by done.
      specialize (IH (wrap32 (d0 + 1)) (wrap32_int32 _)).
      destruct (componentLoop env ns records (wrap32 (d0 + 1))) as [rest' outcome].
      simpl in *. rewrite IH, wrap32_add_l. f_equal. f_equal. lia.
Qed.

(** An externally deleted child shows as fewer deployed components than
    expected. *)
Lemma missing_child_is_reported `{Externals} (env : Env) (aw : AppWrapper) :
  let records := ComponentStatus (AwStatus aw) in
  Z.of_nat (length records) ≤ MaxInt32 →
  Forall (λ cs, ∀ e, childAnswer env (Namespace aw) cs = Some e → IsNotFound e = true)
    records →
  Exists (λ cs, childAnswer env (Namespace aw) cs ≠ None) records →
  ∃ aw1 summary,
    getComponentStatus env aw = (aw1, inr summary) ∧
    cs_deployed summary < cs_expected summary.
Proof.
  intros records Hlen Hall Hmissing.
  pose proof (componentLoop_deployed env (Namespace aw) records Hall 0) as Hloop.
  unfold getComponentStatus. fold records.
  destruct (componentLoop env (Namespace aw) records 0) as [records' outcome].
  simpl in Hloop. rewrite Hloop by (by vm_compute).
  eexists _, _. split; [reflexivity|]. simpl.
  assert (foundChildren env (Namespace aw) records < Z.of_nat (length records)) as Hlt.
  { clear -Hmissing. induction records as [|cs records IH].
    - by apply Exists_nil in Hmissing.
    - rewrite foundChildren_cons. simpl length.
      pose proof (foundChildren_bounds env (Namespace aw) records).
      apply Exists_cons in Hmissing as [Hcs|Hrest].
      + rewrite decide_False by done. lia.
      + specialize (IH Hrest). case_decide; lia. }
  pose proof (foundChildren_bounds env (Namespace aw) records).
  rewrite !wrap32_id; unfold int32, MinInt32, MaxInt32 in *; lia.
Qed.

(** C7.  A [Running] workload that is not suspended and whose component
    aggregation reports fewer deployed components than expected goes straight
    to [Failed]: the [Unhealthy] condition becomes true with reason
    [MissingComponent], the retries are left as they were, and the invocation
    returns at once with no requeue delay, whatever the clock and the grace
    periods.  The store receives this status when the status write
    succeeds. *)
Theorem C7_missing_component_fails_without_retry `{Externals}
    (r : AppWrapperReconciler) (env : Env) (aw aw1 : AppWrapper)
    (summary : componentStatusSummary) :
  let out := Reconcile r env (Some aw) in
  getErr env = None →
  deletionTimestampIsZero aw = true →
  Phase (AwStatus aw) = AppWrapperRunning →
  Suspend aw = false →
  getComponentStatus env aw = (aw1, inr summary) →
  cs_deployed summary < cs_expected summary →
  ∃ aw' c,
    inMemory out = Some aw' ∧
    Phase (AwStatus aw') = AppWrapperFailed ∧
    Retries (AwStatus aw') = Retries (AwStatus aw) ∧
    findCondition aw' Unhealthy = Some c ∧
    Status c = ConditionTrue ∧
    Reason c = "MissingComponent" ∧
    ret out = Returned emptyResult (statusUpdateErr env) ∧
    persisted out = Some (afterStatusWrite env aw (withStatus aw (AwStatus aw'))) ∧
    issued out = [CallStatusUpdate].
Proof.
  intros out Hget Hdel Hphase Hsuspend Hcomp Hlt. subst out.
  unfold Reconcile, get. rewrite Hget. unfold reconcileFetched, fetched. simpl.
  rewrite Hdel, Hphase. simpl. unfold reconcileRunning. simpl.
  rewrite Hsuspend, Hcomp. simpl.
  rewrite decide_True by lia.
  destruct (getComponentStatus_frame env aw aw1 _ Hcomp) as [records' ->].
  unfold updateStatus, statusUpdate, afterStatusWrite, setCond, setCondition,
    findCondition. simpl.
  destruct (statusUpdateErr env) as [e|]; simpl;
    eexists _, _; (split; [reflexivity|]); simpl;
    rewrite (Find_Set_same (now env) (Conditions (AwStatus aw))
               (newCondition (conditionString Unhealthy) ConditionTrue
                  "MissingComponent" _));
    repeat split;
    try apply writtenCondition_status; try apply writtenCondition_reason.
Qed.

Lemma C7_missing_component_fails_without_retry_witness :
  ∃ aw',
    persisted (Reconcile sampleReconciler (withMissingChild (quietEnv 1000) "frontend")
                 (Some (twoComponentWorkload 0)))
    = Some aw' ∧
    Phase (AwStatus aw') = AppWrapperFailed ∧
    Retries (AwStatus aw') = 1.
Proof.
  destruct (C7_missing_component_fails_without_retry sampleReconciler
              (withMissingChild (quietEnv 1000) "frontend")
              (twoComponentWorkload 0)
              (getComponentStatus (withMissingChild (quietEnv 1000) "frontend")
                 (twoComponentWorkload 0)).1
              {| cs_expected := 2; cs_deployed := 1 |})
    as (aw' & c & _ & Hphase & Hretries & _ & _ & _ & _ & Hstore & _);
    [reflexivity | reflexivity | reflexivity | reflexivity | by vm_compute
    | by vm_compute |].
  exists (withStatus (twoComponentWorkload 0) (AwStatus aw')).
  split; [exact Hstore|]. split; [exact Hphase | exact Hretries].
Defined.

(** ** Waiting for pods *)

Lemma findCondition_setCondition_other now aw ty st reason message ty' :
  ty' ≠ ty →
  findCondition (setCondition now aw ty st reason message) ty' = findCondition aw ty'.
Proof.
  intros Hne. unfold findCondition, setCondition. simpl.
  apply Find_Set_other. simpl. intros Heq. by apply conditionString_inj in Heq.
Qed.

Lemma findCondition_setCondition_same now aw ty st reason message :
  findCondition (setCondition now aw ty st reason message) ty
  = Some (writtenCondition now (findCondition aw ty)
            (newCondition (conditionString ty) st reason message)).
Proof.
  unfold findCondition, setCondition. simpl.
  apply (Find_Set_same now _ (newCondition (conditionString ty) st reason message)).
Qed.

Lemma isTrue_setCondition_other now aw ty st reason message ty' :
  ty' ≠ ty →
  isTrue (setCondition now aw ty st reason message) ty' = isTrue aw ty'.
Proof.
  intros Hne. unfold isTrue, IsStatusConditionTrue.
  fold (findCondition (setCondition now aw ty st reason message) ty').
  fold (findCondition aw ty'). by rewrite findCondition_setCondition_other.
Qed.

Lemma isTrue_setCondition_same now aw ty st reason message :
  isTrue (setCondition now aw ty st reason message) ty
  = bool_decide (st = ConditionTrue).
Proof.
  unfold isTrue, IsStatusConditionTrue.
  fold (findCondition (setCondition now aw ty st reason message) ty).
  by rewrite findCondition_setCondition_same, writtenCondition_status.
Qed.

Lemma findCondition_clearCondition_other now aw ty reason message ty' :
  ty' ≠ ty →
  findCondition (clearCondition now aw ty reason message) ty' = findCondition aw ty'.
Proof.
  intros Hne. unfold clearCondition.
  destruct (isTrue aw ty); [by apply findCondition_setCondition_other | done].
Qed.

Lemma isTrue_clearCondition_other now aw ty reason message ty' :
  ty' ≠ ty →
  isTrue (clearCondition now aw ty reason message) ty' = isTrue aw ty'.
Proof.
  intros Hne. unfold clearCondition.
  destruct (isTrue aw ty); [by apply isTrue_setCondition_other | done].
Qed.

Lemma isTrue_clearCondition_same now aw ty reason message :
  isTrue (clearCondition now aw ty reason message) ty = false.
Proof.
  unfold clearCondition.
  destruct (isTrue aw ty) eqn:Htrue; [by rewrite isTrue_setCondition_same | done].
Qed.

(** C8, refuted as stated.  A [Running] workload deployed at instant 0 is
    reconciled at 10s: no pod exists yet, one is expected, and the admission
    grace period of one minute has 50s left.  The invocation asks to be
    requeued after 5s, not after the 50s that remain; and the [PodsReady]
    condition, already false, keeps its old reason. *)
Lemma C8_counterexample :
  Suspend (deployedWorkload AppWrapperRunning 0) = false ∧
  getPodStatus (quietEnv (10 * Second)) (deployedWorkload AppWrapperRunning 0)
  = inr (mkPodStatus 1 0 0 0 0) ∧
  (∃ c, findCondition (deployedWorkload AppWrapperRunning 0) ResourcesDeployed = Some c ∧
        LastTransitionTime c
        + admissionGraceDuration sampleReconciler (deployedWorkload AppWrapperRunning 0)
        - now (quietEnv (10 * Second))
        = 50 * Second) ∧
  ret (Reconcile sampleReconciler (quietEnv (10 * Second))
         (Some (deployedWorkload AppWrapperRunning 0)))
  = Returned {| RequeueAfter := 5 * Second |} None ∧
  (∃ aw' c,
      persisted (Reconcile sampleReconciler (quietEnv (10 * Second))
                   (Some (deployedWorkload AppWrapperRunning 0)))
      = Some aw' ∧
      Phase (AwStatus aw') = AppWrapperRunning ∧
      findCondition aw' PodsReady = Some c ∧ Reason c = "Resuming").
Proof.
  repeat split.
  - eexists. split; reflexivity.
  - eexists _, _. repeat split.
Qed.

(** C8, as amended.  A [Running] workload that is not suspended, has all its
    components, no failed pod and fewer running-or-succeeded pods than
    expected, reconciled before the applicable grace period (warmup when
    pending, running and succeeded pods together reach the expected count,
    admission otherwise) has elapsed since [ResourcesDeployed] last changed:
    the phase remains [Running]; [PodsReady], when it was true, becomes false
    with reason [InsufficientPodsReady] and the pod-count message, and is
    left as it was when it was not true; the status is written; and the
    invocation asks to be requeued after a fixed 5 seconds. *)
Theorem C8_waiting_for_pods_polls `{Externals}
    (r : AppWrapperReconciler) (env : Env) (aw aw1 : AppWrapper)
    (summary : componentStatusSummary) (pods : list Pod) (deployed : Condition) :
  let out := Reconcile r env (Some aw) in
  let listed := matchingPods aw pods in
  let pending := countPhase PodPending listed in
  let running := countPhase PodRunning listed in
  let succeeded := countPhase PodSucceeded listed in
  let expected := ExpectedPodCount aw1 in
  let grace :=
    if pending + running + succeeded >=? expected
    then warmupGraceDuration r aw else admissionGraceDuration r aw in
  let waiting :=
    clearCondition (now env)
      (clearCondition (now env) aw1 Unhealthy "FoundNoFailedPods" EmptyString)
      PodsReady "InsufficientPodsReady" (podDetailsMessage pending running succeeded) in
  getErr env = None →
  deletionTimestampIsZero aw = true →
  Phase (AwStatus aw) = AppWrapperRunning →
  Suspend aw = false →
  getComponentStatus env aw = (aw1, inr summary) →
  cs_deployed summary = cs_expected summary →
  podList env = inr pods →
  Z.of_nat (length listed) ≤ MaxInt32 →
  countPhase PodFailed listed = 0 →
  running + succeeded < expected →
  findCondition aw ResourcesDeployed = Some deployed →
  now env < LastTransitionTime deployed + grace →
  ret out = Returned {| RequeueAfter := 5 * Second |} (statusUpdateErr env) ∧
  issued out = [CallStatusUpdate] ∧
  persisted out = Some (afterStatusWrite env aw (withStatus aw (AwStatus waiting))) ∧
  (∃ aw', inMemory out = Some aw' ∧ AwStatus aw' = AwStatus waiting) ∧
  Phase (AwStatus waiting) = AppWrapperRunning ∧
  isTrue waiting PodsReady = false ∧
  (isTrue aw PodsReady = true →
   ∃ c, findCondition waiting PodsReady = Some c ∧
        Status c = ConditionFalse ∧
        Reason c = "InsufficientPodsReady" ∧
        Message c = podDetailsMessage pending running succeeded) ∧
  (isTrue aw PodsReady = false →
   findCondition waiting PodsReady = findCondition aw PodsReady).
Proof.
  intros out listed pending running succeeded expected grace waiting
    Hget Hdel Hphase Hsuspend Hcomp Hall Hlist Hlen Hfailed Hready Hdeployed Hgrace.
  destruct (getComponentStatus_frame env aw aw1 _ Hcomp) as [records' Haw1].
  pose proof (countPhase_nonneg PodPending listed) as Hp.
  pose proof (countPhase_nonneg PodRunning listed) as Hr.
  pose proof (countPhase_nonneg PodSucceeded listed) as Hs.
  pose proof (sum_countPhase listed) as Hsum.
  pose proof (countPhase_nonneg PodUnknown listed) as Hu.
  fold pending running succeeded in Hp, Hr, Hs, Hsum. rewrite Hfailed in Hsum.
  assert (Hin : ∀ z, 0 ≤ z ≤ pending + running + succeeded → wrap32 z = z).
  { intros z Hz. apply wrap32_id. unfold int32, MinInt32, MaxInt32 in *. lia. }
  (* the waiting state *)
  assert (Hrd : findCondition waiting ResourcesDeployed = Some deployed).
  { subst waiting. rewrite !findCondition_clearCondition_other by done.
    by rewrite Haw1. }
  assert (Hwphase : Phase (AwStatus waiting) = AppWrapperRunning).
  { subst waiting. unfold clearCondition.
    repeat match goal with |- context [if ?b then _ else _] => destruct b end;
      simpl; by rewrite Haw1. }
  (* the run *)
  subst out. unfold Reconcile, get. rewrite Hget. unfold reconcileFetched, fetched. simpl.
  rewrite Hdel, Hphase. simpl. unfold reconcileRunning. simpl.
  rewrite Hsuspend, Hcomp. simpl.
  rewrite decide_False by (rewrite Hall; tauto).
  rewrite (getPodStatus_listed env aw1 pods Hlist). simpl.
  replace (matchingPods aw1 pods) with listed by (by rewrite Haw1).
  fold pending running succeeded expected. rewrite Hfailed.
  rewrite !(Hin pending), !(Hin running), !(Hin succeeded), !(Hin 0) by lia.
  rewrite !(Hin (pending + running)), !(Hin (running + succeeded)),
    ?(Hin (pending + running + succeeded)) by lia.
  rewrite Z.add_0_r, (Hin (pending + running)) by lia.
  replace (succeeded >=? expected) with false by (symmetry; rewrite Z.geb_leb; apply Z.leb_gt; lia).
  replace (running + succeeded >=? expected) with false
    by (symmetry; rewrite Z.geb_leb; apply Z.leb_gt; lia).
  simpl. unfold clearCond. simpl.
  fold (podDetailsMessage pending running succeeded). fold waiting.
  rewrite Hrd.
  replace (if pending + running + succeeded >=? expected
           then warmupGraceDuration r waiting else admissionGraceDuration r waiting)
    with grace.
  2:{ subst grace waiting. unfold warmupGraceDuration, admissionGraceDuration, clearCondition.
      repeat match goal with |- context [if isTrue ?a ?t then _ else _] =>
               destruct (isTrue a t) end; simpl; by rewrite Haw1. }
  unfold Before, Add. rewrite bool_decide_eq_true_2 by done.
  unfold statusUpdate, afterStatusWrite. simpl.
  split; [by destruct (statusUpdateErr env)|].
  split; [by destruct (statusUpdateErr env)|].
  split; [by destruct (statusUpdateErr env)|].
  split; [destruct (statusUpdateErr env); eexists; split; reflexivity|].
  split; [exact Hwphase|].
  split; [apply isTrue_clearCondition_same|].
  assert (Hpr : ∀ b, isTrue aw PodsReady = b →
                isTrue (clearCondition (now env) aw1 Unhealthy "FoundNoFailedPods" EmptyString)
                  PodsReady = b).
  { intros b <-. rewrite isTrue_clearCondition_other by done. by rewrite Haw1. }
  split.
  - intros Htrue. subst waiting. unfold clearCondition at 1. rewrite (Hpr _ Htrue).
    rewrite findCondition_setCondition_same. eexists. split; [reflexivity|].
    by rewrite writtenCondition_status, writtenCondition_reason, writtenCondition_message.
  - intros Hfalse. subst waiting. unfold clearCondition at 1. rewrite (Hpr _ Hfalse).
    rewrite findCondition_clearCondition_other by done. by rewrite Haw1.
Qed.

Lemma C8_waiting_for_pods_polls_witness :
  ret (Reconcile sampleReconciler (quietEnv (10 * Second))
         (Some (deployedWorkload AppWrapperRunning 0)))
  = Returned {| RequeueAfter := 5 * Second |} None ∧
  issued (Reconcile sampleReconciler (quietEnv (10 * Second))
            (Some (deployedWorkload AppWrapperRunning 0)))
  = [CallStatusUpdate].
Proof.
  destruct (C8_waiting_for_pods_polls sampleReconciler (quietEnv (10 * Second))
              (deployedWorkload AppWrapperRunning 0)
              (deployedWorkload AppWrapperRunning 0)
              {| cs_expected := 0; cs_deployed := 0 |} []
              (mkCondition "ResourcesDeployed" ConditionTrue 0 0 "Resuming"
                 "Suspend is false"))
    as (Hret & Hcalls & _);
    [reflexivity | reflexivity | reflexivity | reflexivity | reflexivity | reflexivity
    | reflexivity | by vm_compute | reflexivity | by vm_compute | reflexivity
    | by vm_compute |].
  split; [exact Hret | exact Hcalls].
Defined.

(** ** Deletion protocol *)

Lemma RemoveFinalizer_spec (aw : AppWrapper) (f : string) :
  ContainsFinalizer aw f = true →
  RemoveFinalizer aw f = (withFinalizers aw (filter (λ g, g ≠ f) (Finalizers aw)), true) ∧
  ContainsFinalizer (withFinalizers aw (filter (λ g, g ≠ f) (Finalizers aw))) f = false.
Proof.
  intros Hin. apply bool_decide_eq_true in Hin.
  unfold RemoveFinalizer. split.
  - f_equal. apply bool_decide_eq_true.
    induction (Finalizers aw) as [|g l IH]; [by apply elem_of_nil in Hin|].
    rewrite filter_cons. pose proof (length_filter (λ g, g ≠ f) l).
    destruct (decide (g ≠ f)) as [Hne|Heq]; simpl; [|lia].
    apply elem_of_cons in Hin as [->|Hin]; [done|]. specialize (IH Hin). lia.
  - apply bool_decide_eq_false. simpl. rewrite list_elem_of_filter. tauto.
Qed.

(** The tail of the deletion branch: the finalizer leaves the store exactly
    when [r.Update] succeeds, and that call is the last one issued. *)
Lemma removeFinalizer_spec `{Externals} (env : Env) (st : St) :
  ContainsFinalizer (mem st) AppWrapperFinalizer = true →
  let kept := filter (λ g, g ≠ AppWrapperFinalizer) (Finalizers (mem st)) in
  removeFinalizer env st
  = {| ret := Returned emptyResult (updateErr env);
       inMemory := Some match updateErr env with
                        | Some _ => withFinalizers (mem st) kept
                        | None => withStatus (withFinalizers (mem st) kept)
                                    (AwStatus (stored st))
                        end;
       persisted := Some match updateErr env with
                         | Some _ => stored st
                         | None => withStatus (withFinalizers (mem st) kept)
                                     (AwStatus (stored st))
                         end;
       issued := calls st ++ [CallUpdate] |}.
Proof.
  intros Hin kept. unfold removeFinalizer.
  destruct (RemoveFinalizer_spec (mem st) AppWrapperFinalizer Hin) as [-> _].
  unfold update, finish. simpl. by destruct (updateErr env).
Qed.

(** The deletion branch from the [QuotaReserved] test on, for an in-memory
    object that differs from the stored one in its status only. *)
Lemma releaseQuota_spec `{Externals} (env : Env) (aw : AppWrapper)
    (status : AppWrapperStatus) (issuedSoFar : list Call) (statusUpdated : bool) :
  let current := withStatus aw status in
  let released :=
    clearCondition (now env) current QuotaReserved
      (phaseString AppWrapperTerminating) "No resources deployed" in
  releaseQuota env {| mem := current; stored := aw; calls := issuedSoFar |} statusUpdated
  = if statusUpdated || isTrue current QuotaReserved then
      match statusUpdateErr env with
      | Some e =>
          {| ret := Returned emptyResult (Some e); inMemory := Some released;
             persisted := Some aw; issued := issuedSoFar ++ [CallStatusUpdate] |}
      | None =>
          removeFinalizer env
            {| mem := withStatus aw (AwStatus released);
               stored := withStatus aw (AwStatus released);
               calls := issuedSoFar ++ [CallStatusUpdate] |}
      end
    else removeFinalizer env {| mem := current; stored := aw; calls := issuedSoFar |}.
Proof.
  intros current released. subst released. unfold releaseQuota, clearCondition. simpl.
  destruct (isTrue current QuotaReserved) eqn:Hqr; simpl.
  - rewrite orb_true_r. unfold statusUpdate, finish. simpl.
    by destruct (statusUpdateErr env).
  - rewrite orb_false_r. destruct statusUpdated; [|done].
    unfold statusUpdate, finish. simpl. by destruct (statusUpdateErr env).
Qed.

(** C2.  A workload marked for deletion that carries the finalizer: while
    [ResourcesDeployed] is true and the deletion orchestrator reports children
    remaining, the invocation asks to be requeued after 5 seconds, issues no
    [r.Update] and leaves the finalizers in the store as they were.  Whenever
    the finalizer has left the store, the orchestrator had reported every
    child gone (if [ResourcesDeployed] was true), neither [ResourcesDeployed]
    nor [QuotaReserved] is true any more in the store, and the [r.Update]
    that removed the finalizer was the last call issued, after any status
    write.  When the children are gone and the store accepts the writes, the
    finalizer is removed. *)
Theorem C2_deletion_protocol `{Externals} (r : AppWrapperReconciler) (env : Env)
    (aw : AppWrapper) :
  let out := Reconcile r env (Some aw) in
  getErr env = None →
  deletionTimestampIsZero aw = false →
  ContainsFinalizer aw AppWrapperFinalizer = true →
  (isTrue aw ResourcesDeployed = true →
   snd (deleteComponents env aw) = false →
   ret out = Returned {| RequeueAfter := 5 * Second |} None ∧
   (CallUpdate ∉ issued out) ∧
   ∃ aw', persisted out = Some aw' ∧
          Finalizers aw' = Finalizers aw ∧
          ContainsFinalizer aw' AppWrapperFinalizer = true) ∧
  (∀ aw', persisted out = Some aw' →
          ContainsFinalizer aw' AppWrapperFinalizer = false →
          (isTrue aw ResourcesDeployed = true → snd (deleteComponents env aw) = true) ∧
          isTrue aw' ResourcesDeployed = false ∧
          isTrue aw' QuotaReserved = false ∧
          (isTrue aw ResourcesDeployed = true →
           ∃ c, findCondition aw' ResourcesDeployed = Some c ∧ Status c = ConditionFalse) ∧
          ret out = Returned emptyResult None ∧
          ∃ before, issued out = before ++ [CallUpdate] ∧ CallUpdate ∉ before) ∧
  ((isTrue aw ResourcesDeployed = true → snd (deleteComponents env aw) = true) →
   statusUpdateErr env = None →
   updateErr env = None →
   ∃ aw', persisted out = Some aw' ∧
          Finalizers aw' = filter (λ g, g ≠ AppWrapperFinalizer) (Finalizers aw) ∧
          ContainsFinalizer aw' AppWrapperFinalizer = false).
Proof.
  intros out Hget Hdel Hfin. subst out.
  unfold Reconcile, get. rewrite Hget. unfold reconcileFetched, fetched. simpl.
  rewrite Hdel. simpl. unfold reconcileDeletion. simpl. rewrite Hfin.
  destruct (isTrue aw ResourcesDeployed) eqn:Hrd.
  - unfold callDeleteComponents. simpl.
    destruct (deleteComponents env aw) as [status' allGone] eqn:Hdelete. simpl.
    destruct allGone; simpl.
    + unfold setCond, logCall, setMem. simpl.
      set (aw2 := setCondition _ _ ResourcesDeployed _ _ _).
      replace aw2 with (withStatus aw (AwStatus aw2)) by done.
      rewrite releaseQuota_spec. simpl.
      set (released := clearCondition _ _ QuotaReserved _ _).
      assert (Hrd2 : isTrue released ResourcesDeployed = false).
      { subst released. rewrite isTrue_clearCondition_other by done.
        change (isTrue aw2 ResourcesDeployed = false).
        subst aw2. by rewrite isTrue_setCondition_same. }
      assert (Hqr2 : isTrue released QuotaReserved = false)
        by apply isTrue_clearCondition_same.
      assert (Hfind : ∃ c, findCondition released ResourcesDeployed = Some c
                           ∧ Status c = ConditionFalse).
      { subst released. rewrite findCondition_clearCondition_other by done.
        change (∃ c, findCondition aw2 ResourcesDeployed = Some c
                     ∧ Status c = ConditionFalse).
        subst aw2. rewrite findCondition_setCondition_same. eexists. split; [done|].
        by rewrite writtenCondition_status. }
      destruct (statusUpdateErr env) as [e|] eqn:Hsu; simpl.
      * split; [done|]. split; [|done].
        intros aw' [= <-] Hgone. unfold ContainsFinalizer in *; simpl in *; congruence.
      * rewrite removeFinalizer_spec by done. simpl.
        destruct (updateErr env) as [e|] eqn:Hup; simpl.
        -- split; [done|]. split; [|done].
           intros aw' [= <-] Hgone. unfold ContainsFinalizer in *; simpl in *; congruence.
        -- split; [done|]. split.
           ++ intros aw' [= <-] _. repeat split; try done.
              exists [CallDeleteComponents; CallStatusUpdate]. split; [done|].
              by apply (bool_decide_unpack _).
           ++ intros _ _ _. eexists. split; [done|]. split; [done|].
              apply (RemoveFinalizer_spec aw AppWrapperFinalizer Hfin).
    + split; [|split].
      * intros _ _. case_decide; unfold statusUpdate, finish; simpl.
        -- destruct (statusUpdateErr env); simpl;
             (split; [done|]); (split; [by apply (bool_decide_unpack _)|]); eexists; by repeat split.
        -- split; [done|]. split; [by apply (bool_decide_unpack _)|]. eexists. by repeat split.
      * intros aw' Hp Hgone. exfalso.
        case_decide; unfold statusUpdate, finish in Hp; simpl in Hp;
          [destruct (statusUpdateErr env)|]; simpl in Hp;
          injection Hp as <-; unfold ContainsFinalizer in *; simpl in *; congruence.
      * intros Hgone. specialize (Hgone eq_refl). done.
  - pose proof (releaseQuota_spec env aw (AwStatus aw) [] false) as Hspec.
    assert (Hid : withStatus aw (AwStatus aw) = aw) by (by destruct aw).
    cbv zeta in Hspec. rewrite Hid in Hspec. rewrite Hspec. clear Hspec. simpl.
    set (released := clearCondition _ _ QuotaReserved _ _).
    assert (Hrd2 : isTrue released ResourcesDeployed = false).
    { subst released. by rewrite isTrue_clearCondition_other. }
    assert (Hqr2 : isTrue released QuotaReserved = false)
      by apply isTrue_clearCondition_same.
    split; [done|].
    destruct (isTrue aw QuotaReserved) eqn:Hqr; simpl.
    + destruct (statusUpdateErr env) as [e|] eqn:Hsu; simpl.
      * split; [|done]. intros aw' [= <-] Hgone. unfold ContainsFinalizer in *; simpl in *; congruence.
      * rewrite removeFinalizer_spec by done. simpl.
        destruct (updateErr env) as [e|] eqn:Hup; simpl.
        -- split; [|done]. intros aw' [= <-] Hgone. unfold ContainsFinalizer in *; simpl in *; congruence.
        -- split.
           ++ intros aw' [= <-] _. repeat split; try done.
              exists [CallStatusUpdate]. split; [done|]. by apply (bool_decide_unpack _).
           ++ intros _ _ _. eexists. split; [done|]. split; [done|].
              apply (RemoveFinalizer_spec aw AppWrapperFinalizer Hfin).
    + rewrite removeFinalizer_spec by done. simpl.
      assert (released = aw) as Hsame.
      { subst released. unfold clearCondition. by rewrite Hqr. }
      rewrite Hsame in Hrd2, Hqr2.
      destruct (updateErr env) as [e|] eqn:Hup; simpl.
      * split; [|done]. intros aw' [= <-] Hgone. unfold ContainsFinalizer in *; simpl in *; congruence.
      * split.
        -- intros aw' [= <-] _. repeat split; try done.
           exists []. split; [done|]. by apply (bool_decide_unpack _).
        -- intros _ _ _. eexists. split; [done|]. split; [done|].
           apply (RemoveFinalizer_spec aw AppWrapperFinalizer Hfin).
Qed.

Lemma C2_deletion_protocol_witness :
  ∃ aw',
    persisted (Reconcile sampleReconciler (quietEnv (30 * Second)) (Some deletingWorkload))
    = Some aw' ∧
    ContainsFinalizer aw' AppWrapperFinalizer = false ∧
    isTrue aw' ResourcesDeployed = false ∧
    isTrue aw' QuotaReserved = false.
Proof.
  destruct (C2_deletion_protocol sampleReconciler (quietEnv (30 * Second)) deletingWorkload)
    as (_ & Hcleared & Hremoved); [reflexivity | reflexivity | reflexivity |].
  destruct Hremoved as (aw' & Hstore & _ & Hgone); [reflexivity | reflexivity | reflexivity |].
  destruct (Hcleared aw' Hstore Hgone) as (_ & Hrd & Hqr & _).
  exists aw'. repeat split; assumption.
Defined.

(** ** Re-invocation *)

Lemma writtenCondition_generation now found new :
  ObservedGeneration (writtenCondition now found new) = ObservedGeneration new.
Proof.
  unfold writtenCondition. destruct found; [done|]. by destruct (IsZero _).
Qed.

(** A write that repeats what the entry already says changes nothing. *)
Lemma Set_stable now l new c :
  FindStatusCondition l (Type_ new) = Some c →
  Status c = Status new →
  ObservedGeneration c = ObservedGeneration new →
  Reason c = Reason new →
  Message c = Message new →
  SetStatusCondition now l new = l.
Proof.
  intros Hfind Hst Hgen Hreason Hmsg. unfold SetStatusCondition. rewrite Hfind.
  induction l as [|c' l IH]; [done|]. simpl in *.
  destruct (decide (Type_ c' = Type_ new)) as [Heq|Hne].
  - injection Hfind as ->. f_equal. unfold mergeCondition.
    rewrite decide_True by done. destruct c. simpl in *. by subst.
  - f_equal. by apply IH.
Qed.

Lemma Set_idempotent now l new :
  SetStatusCondition now (SetStatusCondition now l new) new
  = SetStatusCondition now l new.
Proof.
  eapply Set_stable; [apply Find_Set_same|..].
  - apply writtenCondition_status.
  - apply writtenCondition_generation.
  - apply writtenCondition_reason.
  - apply writtenCondition_message.
Qed.

Lemma withConditions_same aw : withConditions aw (Conditions (AwStatus aw)) = aw.
Proof. by destruct aw as [? ? ? ? ? ? []]. Qed.

Lemma setCondition_stable now aw ty st reason message c :
  findCondition aw ty = Some c →
  Status c = st → ObservedGeneration c = 0 → Reason c = reason → Message c = message →
  setCondition now aw ty st reason message = aw.
Proof.
  intros Hfind Hst Hgen Hreason Hmsg. unfold setCondition.
  rewrite (Set_stable now _ (newCondition (conditionString ty) st reason message) c);
    try done.
  apply withConditions_same.
Qed.

Lemma setCondition_idempotent now aw ty st reason message :
  setCondition now (setCondition now aw ty st reason message) ty st reason message
  = setCondition now aw ty st reason message.
Proof.
  eapply setCondition_stable; [apply findCondition_setCondition_same|..].
  - apply writtenCondition_status.
  - apply writtenCondition_generation.
  - apply writtenCondition_reason.
  - apply writtenCondition_message.
Qed.

Lemma clearCondition_noop now aw ty reason message :
  isTrue aw ty = false → clearCondition now aw ty reason message = aw.
Proof. intros Hfalse. unfold clearCondition. by rewrite Hfalse. Qed.

(** Running the component loop on the records it produced reproduces them. *)
Lemma componentLoop_idempotent `{Externals} (env : Env) (ns : string) records :
  ∀ d0 records' outcome,
    componentLoop env ns records d0 = (records', outcome) →
    componentLoop env ns records' d0 = (records', outcome).
Proof.
  induction records as [|cs records IH]; intros d0 records' outcome; simpl.
  - by intros [= <- <-].
  - destruct (childGet env (csKind cs) (csAPIVersion cs) ns (csName cs)) as [e|] eqn:Hget.
    + destruct (IsNotFound e) eqn:Hnf.
      * destruct (componentLoop env ns records d0) as [rest' outcome'] eqn:Hloop.
        intros [= <- <-]. simpl. rewrite Hget, Hnf.
        rewrite (IH _ _ _ Hloop). by rewrite Set_idempotent.
      * intros [= <- <-]. simpl. by rewrite Hget, Hnf.
    + destruct (componentLoop env ns records (wrap32 (d0 + 1))) as [rest' outcome'] eqn:Hloop.
      intros [= <- <-]. simpl. rewrite Hget. by rewrite (IH _ _ _ Hloop).
Qed.

Lemma componentLoop_length `{Externals} (env : Env) (ns : string) records :
  ∀ d0, length (componentLoop env ns records d0).1 = length records.
Proof.
  induction records as [|cs records IH]; intros d0; simpl; [done|].
  destruct (childGet env (csKind cs) (csAPIVersion cs) ns (csName cs)) as [e|].
  - destruct (IsNotFound e); [|done].
    specialize (IH d0). destruct (componentLoop env ns records d0). simpl in *. lia.
  - specialize (IH (wrap32 (d0 + 1))).
    destruct (componentLoop env ns records (wrap32 (d0 + 1))). simpl in *. lia.
Qed.

(** [getComponentStatus] on its own result: same records, same answer. *)
Lemma getComponentStatus_idempotent `{Externals} (env : Env) (aw aw1 : AppWrapper) answer :
  getComponentStatus env aw = (aw1, answer) →
  ∀ conds phase retries,
    let again :=
      withStatus aw {| Phase := phase; Retries := retries; Conditions := conds;
                       ComponentStatus := ComponentStatus (AwStatus aw1) |} in
    getComponentStatus env again = (again, answer).
Proof.
  unfold getComponentStatus.
  destruct (componentLoop env (Namespace aw) (ComponentStatus (AwStatus aw)) 0)
    as [records' outcome] eqn:Hloop.
  intros [= <- <-] conds phase retries. simpl.
  rewrite (componentLoop_idempotent env _ _ _ _ _ Hloop).
  pose proof (componentLoop_length env (Namespace aw) (ComponentStatus (AwStatus aw)) 0)
    as Hlen.
  rewrite Hloop in Hlen. simpl in Hlen. by rewrite Hlen.
Qed.


Lemma sameObject_refl aw : sameObject aw aw.
Proof. by destruct aw. Qed.

Lemma sameObject_withStatus aw s : sameObject aw (withStatus aw s).
Proof. done. Qed.

Lemma sameObject_fields aw aw' :
  sameObject aw aw' →
  Name aw' = Name aw ∧ Namespace aw' = Namespace aw ∧
  Annotations aw' = Annotations aw ∧ Finalizers aw' = Finalizers aw ∧
  DeletionTimestamp aw' = DeletionTimestamp aw ∧ Suspend aw' = Suspend aw.
Proof. unfold sameObject. intros Heq. by rewrite <- Heq. Qed.

Lemma sameObject_setCondition now aw aw' ty st reason message :
  sameObject aw aw' → sameObject aw (setCondition now aw' ty st reason message).
Proof. unfold sameObject. intros Heq. by rewrite <- Heq. Qed.

Lemma sameObject_clearCondition now aw aw' ty reason message :
  sameObject aw aw' → sameObject aw (clearCondition now aw' ty reason message).
Proof.
  intros Hsame. unfold clearCondition.
  destruct (isTrue aw' ty); [by apply sameObject_setCondition | done].
Qed.

Lemma sameObject_getComponentStatus `{Externals} env aw aw' awc answer :
  getComponentStatus env aw' = (awc, answer) →
  sameObject aw aw' → sameObject aw awc.
Proof.
  unfold sameObject. intros Hcomp Heq.
  destruct (getComponentStatus_frame _ _ _ _ Hcomp) as [records' ->].
  by rewrite <- Heq.
Qed.

Lemma getComponentStatus_again `{Externals} (env : Env) (aw awc aw2 : AppWrapper) answer :
  getComponentStatus env aw = (awc, answer) →
  sameObject aw aw2 →
  ComponentStatus (AwStatus aw2) = ComponentStatus (AwStatus awc) →
  getComponentStatus env aw2 = (aw2, answer).
Proof.
  intros Hcomp Hsame Hrecords.
  pose proof (getComponentStatus_idempotent env aw awc answer Hcomp
                (Conditions (AwStatus aw2)) (Phase (AwStatus aw2))
                (Retries (AwStatus aw2))) as Hagain.
  simpl in Hagain. rewrite <- Hrecords in Hagain.
  replace {| Phase := Phase (AwStatus aw2); Retries := Retries (AwStatus aw2);
             Conditions := Conditions (AwStatus aw2);
             ComponentStatus := ComponentStatus (AwStatus aw2) |}
    with (AwStatus aw2) in Hagain by (by destruct (AwStatus aw2)).
  by rewrite Hsame in Hagain.
Qed.

Lemma getPodStatus_sameObject `{Externals} (env : Env) (aw aw' aw'' : AppWrapper) :
  (∀ s, ExpectedPodCount (withStatus aw s) = ExpectedPodCount aw) →
  sameObject aw aw' → sameObject aw aw'' →
  getPodStatus env aw'' = getPodStatus env aw'.
Proof.
  unfold sameObject. intros Hexp Heq' Heq''. rewrite <- Heq', <- Heq''.
  unfold getPodStatus, podMatches. simpl. by rewrite !Hexp.
Qed.

#[local] Arguments setCondition : simpl never.
#[local] Arguments clearCondition : simpl never.
#[local] Arguments isTrue : simpl never.
#[local] Arguments findCondition : simpl never.
#[local] Arguments getComponentStatus : simpl never.
#[local] Arguments getPodStatus : simpl never.
#[local] Arguments failureGraceDuration : simpl never.
#[local] Arguments warmupGraceDuration : simpl never.
#[local] Arguments admissionGraceDuration : simpl never.
#[local] Arguments retryPauseDuration : simpl never.
#[local] Arguments deletionOnFailureGraceDuration : simpl never.
#[local] Arguments timeToLiveAfterSucceededDuration : simpl never.
#[local] Arguments retryLimit : simpl never.
#[local] Arguments Z.mul : simpl never.
#[local] Arguments Z.add : simpl never.
#[local] Arguments wrap32 : simpl never.
#[local] Arguments callDeleteComponents : simpl never.
#[local] Arguments callCreateComponents : simpl never.

(** Closes a case in which the first invocation wrote nothing ([Honce] gives
    its outcome, with the stored object untouched) or changed the phase. *)
Ltac settle_leaf Horig Honce Hstore Hsame :=
  rewrite Honce in Hstore; simpl in Hstore; injection Hstore as <-;
  first
    [ split; [first [apply sameObject_refl | reflexivity] | by rewrite <- Horig, Honce]
    | simpl in Hsame; congruence ].

Section Stability.
Context `{Externals}.
Variable r : AppWrapperReconciler.
Variable env : Env.

(** [updateStatus] either writes nothing or changes the phase. *)
Ltac settle_updateStatus Horig Honce Hstore Hsame :=
  unfold updateStatus, statusUpdate in Honce; simpl in Honce;
  destruct (statusUpdateErr env) eqn:?; simpl in Honce;
  settle_leaf Horig Honce Hstore Hsame.

Ltac settle_resetOrFail Horig Honce Hstore Hsame :=
  unfold resetOrFail in Honce; simpl in Honce;
  match type of Honce with
  | context [if ?b then _ else _] => destruct b
  end;
  settle_updateStatus Horig Honce Hstore Hsame.

Lemma reconcileRunning_stable (aw aw1 : AppWrapper) (once : Outcome) :
  (∀ s, ExpectedPodCount (withStatus aw s) = ExpectedPodCount aw) →
  Phase (AwStatus aw) = AppWrapperRunning →
  once = reconcileRunning r env (fetched aw) →
  persisted once = Some aw1 →
  Phase (AwStatus aw1) = Phase (AwStatus aw) →
  sameObject aw aw1 ∧
  persisted (reconcileRunning r env (fetched aw1)) = Some aw1.
Proof.
  intros Hexp Hphase Horig Hstore Hsame. pose proof Horig as Honce.
  unfold reconcileRunning, fetched, setCond, clearCond in Honce. simpl in Honce.
  destruct (Suspend aw) eqn:Hsuspend.
  { settle_updateStatus Horig Honce Hstore Hsame. }
  destruct (getComponentStatus env aw) as [awc answer] eqn:Hcomp. simpl in Honce.
  pose proof (sameObject_getComponentStatus env aw aw awc _ Hcomp (sameObject_refl aw))
    as Hawc.
  destruct answer as [err|compStatus].
  { settle_leaf Horig Honce Hstore Hsame. }
  destruct (decide (cs_deployed compStatus ≠ cs_expected compStatus)) as [Hmiss|Hall].
  { settle_updateStatus Horig Honce Hstore Hsame. }
  destruct (getPodStatus env awc) as [err|podStatus] eqn:Hpods.
  { settle_leaf Horig Honce Hstore Hsame. }
  destruct ((ps_succeeded podStatus >=? ps_expected podStatus) && _) eqn:Hsuccess.
  { settle_updateStatus Horig Honce Hstore Hsame. }
  (* what the second invocation sees before it looks at the pods *)
  assert (Hsecond : ∀ mem1,
    sameObject aw mem1 →
    ComponentStatus (AwStatus mem1) = ComponentStatus (AwStatus awc) →
    Suspend mem1 = false ∧
    getComponentStatus env mem1 = (mem1, inr compStatus) ∧
    getPodStatus env mem1 = inr podStatus).
  { intros mem1 Hm1 Hrecords.
    split; [by destruct (sameObject_fields _ _ Hm1) as (_ & _ & _ & _ & _ & ->)|].
    split; [by apply (getComponentStatus_again env aw awc)|].
    by rewrite (getPodStatus_sameObject env aw awc mem1). }
  destruct (ps_failed podStatus >? 0) eqn:Hfailed.
  { remember (setCondition (now env) awc Unhealthy ConditionTrue "FoundFailedPods"
                EmptyString) as mem1 eqn:Hmem1.
    assert (Hm1 : sameObject aw mem1) by (subst mem1; by apply sameObject_setCondition).
    assert (Hidem : setCondition (now env) mem1 Unhealthy ConditionTrue
                      "FoundFailedPods" EmptyString = mem1)
      by (subst mem1; apply setCondition_idempotent).
    destruct (findCondition mem1 Unhealthy) as [c|] eqn:Hfind.
    2:{ settle_leaf Horig Honce Hstore Hsame. }
    destruct (Before _ _) eqn:Hbefore.
    2:{ settle_resetOrFail Horig Honce Hstore Hsame. }
    unfold statusUpdate in Honce. simpl in Honce.
    destruct (statusUpdateErr env) eqn:Hsu; simpl in Honce.
    { settle_leaf Horig Honce Hstore Hsame. }
    rewrite Honce in Hstore. simpl in Hstore. injection Hstore as <-.
    rewrite Hm1. split; [done|].
    destruct (Hsecond mem1 Hm1) as (Hs & Hc & Hp); [by subst mem1|].
    unfold reconcileRunning, fetched, setCond, clearCond. simpl.
    rewrite Hs, Hc. simpl. rewrite decide_False by done. rewrite Hp.
    rewrite Hsuccess, Hfailed, Hidem, Hfind, Hbefore.
    unfold statusUpdate. simpl. rewrite Hsu. simpl. first [done | f_equal; apply sameObject_refl]. }
  remember (clearCondition (now env) awc Unhealthy "FoundNoFailedPods" EmptyString)
    as mem1 eqn:Hmem1.
  assert (Hm1 : sameObject aw mem1) by (subst mem1; by apply sameObject_clearCondition).
  assert (Hu1 : isTrue mem1 Unhealthy = false)
    by (subst mem1; apply isTrue_clearCondition_same).
  destruct (wrap32 (ps_running podStatus + ps_succeeded podStatus)
            >=? ps_expected podStatus) eqn:Hready.
  { remember (setCondition (now env) mem1 PodsReady ConditionTrue "SufficientPodsReady" _)
      as mem2 eqn:Hmem2.
    assert (Hm2 : sameObject aw mem2) by (subst mem2; by apply sameObject_setCondition).
    assert (Hidem : setCondition (now env) mem2 PodsReady ConditionTrue
                      "SufficientPodsReady"
                      (pretty (ps_running podStatus) +:+ " pods running; "
                       +:+ pretty (ps_succeeded podStatus) +:+ " pods succeeded")
                    = mem2)
      by (subst mem2; apply setCondition_idempotent).
    unfold statusUpdate in Honce. simpl in Honce.
    destruct (statusUpdateErr env) eqn:Hsu; simpl in Honce.
    { settle_leaf Horig Honce Hstore Hsame. }
    rewrite Honce in Hstore. simpl in Hstore. injection Hstore as <-.
    rewrite Hm2. split; [done|].
    destruct (Hsecond mem2 Hm2) as (Hs & Hc & Hp);
      [by subst mem2 mem1; unfold clearCondition; destruct (isTrue awc Unhealthy)|].
    unfold reconcileRunning, fetched, setCond, clearCond. simpl.
    rewrite Hs, Hc. simpl. rewrite decide_False by done. rewrite Hp.
    rewrite Hsuccess, Hfailed, Hready.
    rewrite (clearCondition_noop _ mem2)
      by (subst mem2; by rewrite isTrue_setCondition_other).
    rewrite Hidem.
    unfold statusUpdate. simpl. rewrite Hsu. simpl. first [done | f_equal; apply sameObject_refl]. }
  remember (clearCondition (now env) mem1 PodsReady "InsufficientPodsReady" _)
    as mem2 eqn:Hmem2.
  assert (Hm2 : sameObject aw mem2) by (subst mem2; by apply sameObject_clearCondition).
  destruct (findCondition mem2 ResourcesDeployed) as [c|] eqn:Hfind.
  2:{ settle_leaf Horig Honce Hstore Hsame. }
  destruct (Before _ _) eqn:Hbefore.
  2:{ settle_resetOrFail Horig Honce Hstore Hsame. }
  unfold statusUpdate in Honce. simpl in Honce.
  destruct (statusUpdateErr env) eqn:Hsu; simpl in Honce.
  { settle_leaf Horig Honce Hstore Hsame. }
  rewrite Honce in Hstore. simpl in Hstore. injection Hstore as <-.
  rewrite Hm2. split; [done|].
  destruct (Hsecond mem2 Hm2) as (Hs & Hc & Hp);
    [by subst mem2 mem1; unfold clearCondition;
        repeat match goal with |- context [if ?b then _ else _] => destruct b end|].
  unfold reconcileRunning, fetched, setCond, clearCond. simpl.
  rewrite Hs, Hc. simpl. rewrite decide_False by done. rewrite Hp.
  rewrite Hsuccess, Hfailed, Hready.
  rewrite (clearCondition_noop _ mem2 Unhealthy)
    by (subst mem2; by rewrite isTrue_clearCondition_other).
  rewrite (clearCondition_noop _ mem2 PodsReady)
    by (subst mem2; apply isTrue_clearCondition_same).
  rewrite Hfind, Hbefore.
  unfold statusUpdate. simpl. rewrite Hsu. simpl. first [done | f_equal; apply sameObject_refl].
Qed.


(** *** Calls are only ever appended *)

Ltac split_matches :=
  repeat match goal with
         | |- context [if ?b then _ else _] => destruct b
         end.

Ltac still_issued :=
  intros; simpl; unfold statusUpdate, update, finish, panic, logCall, setMem; simpl;
  destruct (statusUpdateErr env), (updateErr env); simpl;
  split_matches; simpl; rewrite ?elem_of_app; auto.

Lemma updateStatus_keeps_calls st phase c :
  c ∈ calls st → c ∈ issued (updateStatus env st phase).
Proof. unfold updateStatus. still_issued. Qed.

Lemma removeFinalizer_keeps_calls st c :
  c ∈ calls st → c ∈ issued (removeFinalizer env st).
Proof. unfold removeFinalizer, RemoveFinalizer. still_issued. Qed.

Lemma releaseQuota_keeps_calls st statusUpdated c :
  c ∈ calls st → c ∈ issued (releaseQuota env st statusUpdated).
Proof.
  intros Hin. unfold releaseQuota, setCond, statusUpdate, logCall, setMem. simpl.
  destruct (statusUpdateErr env); split_matches; simpl;
    try (rewrite elem_of_app; by auto);
    apply removeFinalizer_keeps_calls; simpl; rewrite ?elem_of_app; auto.
Qed.

Lemma finishSuspending_keeps_calls st c :
  c ∈ calls st → c ∈ issued (finishSuspending env st).
Proof. intros Hin. unfold finishSuspending. by apply updateStatus_keeps_calls. Qed.

Lemma pauseBeforeResuming_keeps_calls st c :
  c ∈ calls st → c ∈ issued (pauseBeforeResuming r env st).
Proof.
  intros Hin. unfold pauseBeforeResuming.
  destruct (findCondition (mem st) Unhealthy); [|done].
  destruct (Before _ _); [revert Hin; still_issued|].
  by apply updateStatus_keeps_calls.
Qed.

Lemma releaseFailed_keeps_calls st c :
  c ∈ calls st → c ∈ issued (releaseFailed env st).
Proof. unfold releaseFailed, setCond. still_issued. Qed.

Lemma callDeleteComponents_logged st st' allGone :
  callDeleteComponents env st = (st', allGone) →
  CallDeleteComponents ∈ calls st'.
Proof.
  unfold callDeleteComponents. destruct (deleteComponents env (mem st)).
  intros [= <- _]. simpl. rewrite elem_of_app. right. by left.
Qed.


(** Closes a case in which the deletion orchestrator was invoked. *)
Ltac settle_deleted Honce Hnodelete Hdelete lemma :=
  exfalso; apply Hnodelete; rewrite Honce;
  first [ apply lemma | idtac ];
  simpl; unfold statusUpdate, logCall; simpl;
  try (destruct (statusUpdateErr env); simpl);
  rewrite ?elem_of_app;
  pose proof (callDeleteComponents_logged _ _ _ Hdelete); auto.

Lemma sameObject_graces (aw aw' : AppWrapper) :
  sameObject aw aw' →
  deletionOnFailureGraceDuration r aw' = deletionOnFailureGraceDuration r aw ∧
  retryPauseDuration r aw' = retryPauseDuration r aw ∧
  timeToLiveAfterSucceededDuration r aw' = timeToLiveAfterSucceededDuration r aw.
Proof.
  intros Hsame. destruct (sameObject_fields _ _ Hsame) as (_ & _ & Hann & _).
  unfold deletionOnFailureGraceDuration, retryPauseDuration,
    timeToLiveAfterSucceededDuration. by rewrite Hann.
Qed.

Lemma reconcileSuspended_stable (aw aw1 : AppWrapper) (once : Outcome) :
  Phase (AwStatus aw) = AppWrapperSuspended →
  once = reconcileSuspended env (fetched aw) →
  persisted once = Some aw1 →
  Phase (AwStatus aw1) = Phase (AwStatus aw) →
  DeletionTimestamp aw1 = DeletionTimestamp aw ∧
  persisted (reconcileSuspended env (fetched aw1)) = Some aw1.
Proof.
  intros Hphase Horig Hstore Hsame. pose proof Horig as Honce.
  unfold reconcileSuspended, fetched, setCond in Honce. simpl in Honce.
  destruct (Suspend aw) eqn:Hsuspend.
  { settle_leaf Horig Honce Hstore Hsame. }
  settle_updateStatus Horig Honce Hstore Hsame.
Qed.

Lemma reconcileResuming_stable (aw aw1 : AppWrapper) (once : Outcome) :
  Phase (AwStatus aw) = AppWrapperResuming →
  once = reconcileResuming r env (fetched aw) →
  persisted once = Some aw1 →
  Phase (AwStatus aw1) = Phase (AwStatus aw) →
  DeletionTimestamp aw1 = DeletionTimestamp aw ∧
  persisted (reconcileResuming r env (fetched aw1)) = Some aw1.
Proof.
  intros Hphase Horig Hstore Hsame. pose proof Horig as Honce.
  unfold reconcileResuming, fetched, setCond in Honce. simpl in Honce.
  destruct (Suspend aw) eqn:Hsuspend.
  { settle_updateStatus Horig Honce Hstore Hsame. }
  unfold callCreateComponents in Honce. simpl in Honce.
  destruct (createComponents env aw) as [status' [[err fatal]|]]; simpl in Honce.
  - destruct fatal.
    + settle_updateStatus Horig Honce Hstore Hsame.
    + settle_resetOrFail Horig Honce Hstore Hsame.
  - settle_updateStatus Horig Honce Hstore Hsame.
Qed.

Lemma reconcileSuspending_stable (aw aw1 : AppWrapper) (once : Outcome) :
  Phase (AwStatus aw) = AppWrapperSuspending →
  once = reconcileSuspending env (fetched aw) →
  persisted once = Some aw1 →
  Phase (AwStatus aw1) = Phase (AwStatus aw) →
  CallDeleteComponents ∉ issued once →
  DeletionTimestamp aw1 = DeletionTimestamp aw ∧
  persisted (reconcileSuspending env (fetched aw1)) = Some aw1.
Proof.
  intros Hphase Horig Hstore Hsame Hnodelete. pose proof Horig as Honce.
  unfold reconcileSuspending, fetched in Honce. simpl in Honce.
  destruct (isTrue aw ResourcesDeployed) eqn:Hrd.
  { destruct (callDeleteComponents env _) as [st' allGone] eqn:Hdelete.
    destruct allGone; simpl in Honce.
    - settle_deleted Honce Hnodelete Hdelete finishSuspending_keeps_calls.
    - settle_deleted Honce Hnodelete Hdelete finishSuspending_keeps_calls. }
  unfold finishSuspending, setCond, clearCond in Honce. simpl in Honce.
  settle_updateStatus Horig Honce Hstore Hsame.
Qed.

Lemma reconcileResetting_stable (aw aw1 : AppWrapper) (once : Outcome) :
  Phase (AwStatus aw) = AppWrapperResetting →
  once = reconcileResetting r env (fetched aw) →
  persisted once = Some aw1 →
  Phase (AwStatus aw1) = Phase (AwStatus aw) →
  CallDeleteComponents ∉ issued once →
  DeletionTimestamp aw1 = DeletionTimestamp aw ∧
  persisted (reconcileResetting r env (fetched aw1)) = Some aw1.
Proof.
  intros Hphase Horig Hstore Hsame Hnodelete. pose proof Horig as Honce.
  unfold reconcileResetting, fetched, clearCond in Honce. simpl in Honce.
  destruct (Suspend aw) eqn:Hsuspend.
  { settle_updateStatus Horig Honce Hstore Hsame. }
  remember (clearCondition (now env) aw PodsReady "Resetting" EmptyString)
    as mem1 eqn:Hmem1.
  assert (Hm1 : sameObject aw mem1)
    by (subst mem1; apply sameObject_clearCondition, sameObject_refl).
  destruct (isTrue mem1 ResourcesDeployed) eqn:Hrd.
  { destruct (callDeleteComponents env _) as [st' allGone] eqn:Hdelete.
    destruct allGone; simpl in Honce.
    - settle_deleted Honce Hnodelete Hdelete pauseBeforeResuming_keeps_calls.
    - settle_deleted Honce Hnodelete Hdelete pauseBeforeResuming_keeps_calls. }
  unfold pauseBeforeResuming, setCond in Honce. simpl in Honce.
  destruct (findCondition mem1 Unhealthy) as [c|] eqn:Hfind.
  2:{ settle_leaf Horig Honce Hstore Hsame. }
  destruct (Before _ _) eqn:Hbefore.
  2:{ settle_updateStatus Horig Honce Hstore Hsame. }
  unfold statusUpdate in Honce. simpl in Honce.
  destruct (statusUpdateErr env) eqn:Hsu; simpl in Honce.
  { settle_leaf Horig Honce Hstore Hsame. }
  rewrite Honce in Hstore. simpl in Hstore. injection Hstore as <-.
  rewrite Hm1.
  split; [by destruct (sameObject_fields _ _ Hm1) as (_ & _ & _ & _ & -> & _)|].
  unfold reconcileResetting, fetched, clearCond. simpl.
  destruct (sameObject_fields _ _ Hm1) as (_ & _ & _ & _ & _ & ->). rewrite Hsuspend.
  rewrite (clearCondition_noop _ mem1 PodsReady)
    by (subst mem1; apply isTrue_clearCondition_same).
  rewrite Hrd. unfold pauseBeforeResuming. simpl. rewrite Hfind, Hbefore.
  unfold statusUpdate. simpl. rewrite Hsu. simpl. first [done | f_equal; apply sameObject_refl].
Qed.


Lemma reconcileFailed_stable (aw aw1 : AppWrapper) (once : Outcome) :
  Phase (AwStatus aw) = AppWrapperFailed →
  once = reconcileFailed r env (fetched aw) →
  persisted once = Some aw1 →
  Phase (AwStatus aw1) = Phase (AwStatus aw) →
  CallDeleteComponents ∉ issued once →
  DeletionTimestamp aw1 = DeletionTimestamp aw ∧
  persisted (reconcileFailed r env (fetched aw1)) = Some aw1.
Proof.
  intros Hphase Horig Hstore Hsame Hnodelete. pose proof Horig as Honce.
  unfold reconcileFailed, fetched, setCond in Honce. simpl in Honce.
  remember (deletionOnFailureGraceDuration r aw) as delay eqn:Hdelay.
  (* the release of the quota, from an in-memory object [mem1] *)
  assert (Hrelease : ∀ mem1 out,
    sameObject aw mem1 →
    isTrue mem1 ResourcesDeployed = false →
    out = releaseFailed env {| mem := mem1; stored := aw; calls := [] |} →
    persisted out = Some aw1 →
    aw1 = aw ∨
    (statusUpdateErr env = None ∧
     aw1 = setCondition (now env) mem1 QuotaReserved ConditionFalse "Failed"
             "No resources deployed")).
  { intros mem1 out Hm1 Hrd ->. unfold releaseFailed, setCond, statusUpdate. simpl.
    destruct (statusUpdateErr env); simpl; intros [= <-]; [by left|]. right.
    split; [done|].
    apply (sameObject_setCondition (now env) aw mem1 QuotaReserved ConditionFalse
             "Failed" "No resources deployed" Hm1). }
  assert (Hagain : ∀ mem1,
    sameObject aw mem1 →
    isTrue mem1 ResourcesDeployed = false →
    statusUpdateErr env = None →
    let mem2 := setCondition (now env) mem1 QuotaReserved ConditionFalse "Failed"
                  "No resources deployed" in
    persisted (cleanupFailed env {| mem := mem2; stored := mem2; calls := [] |} delay)
    = Some mem2).
  { intros mem1 Hm1 Hrd Hsu mem2. unfold cleanupFailed. simpl.
    replace (isTrue mem2 ResourcesDeployed) with false
      by (subst mem2; by rewrite isTrue_setCondition_other).
    unfold releaseFailed, setCond, setMem. cbn [mem stored calls].
    replace (phaseString AppWrapperFailed) with "Failed" by done.
    subst mem2. rewrite setCondition_idempotent.
    unfold statusUpdate. simpl. rewrite Hsu. simpl. first [done | f_equal; apply sameObject_refl]. }
  destruct ((delay >? 0) && negb (Suspend aw)) eqn:Hpaused.
  - remember (setCondition (now env) aw DeletingResources ConditionFalse
                "DeletionPaused" _) as mem1 eqn:Hmem1.
    assert (Hm1 : sameObject aw mem1)
      by (subst mem1; apply sameObject_setCondition, sameObject_refl).
    assert (Hidem : setCondition (now env) mem1 DeletingResources ConditionFalse
                      "DeletionPaused"
                      (DeletionOnFailureGracePeriodAnnotation +:+ " has value "
                       +:+ DurationString delay) = mem1)
      by (subst mem1; apply setCondition_idempotent).
    destruct (findCondition mem1 DeletingResources) as [c|] eqn:Hfind.
    2:{ settle_leaf Horig Honce Hstore Hsame. }
    destruct (Before _ _) eqn:Hbefore.
    + unfold statusUpdate in Honce. simpl in Honce.
      destruct (statusUpdateErr env) eqn:Hsu; simpl in Honce.
      { settle_leaf Horig Honce Hstore Hsame. }
      rewrite Honce in Hstore. simpl in Hstore. injection Hstore as <-.
      rewrite Hm1.
      split; [by destruct (sameObject_fields _ _ Hm1) as (_ & _ & _ & _ & -> & _)|].
      unfold reconcileFailed, fetched, setCond. simpl.
      destruct (sameObject_graces _ _ Hm1) as (-> & _).
      destruct (sameObject_fields _ _ Hm1) as (_ & _ & _ & _ & _ & ->).
      rewrite <- Hdelay, Hpaused, Hidem, Hfind, Hbefore.
      unfold statusUpdate. simpl. rewrite Hsu. simpl. first [done | f_equal; apply sameObject_refl].
    + unfold cleanupFailed in Honce. simpl in Honce.
      destruct (isTrue mem1 ResourcesDeployed) eqn:Hrd.
      { destruct (callDeleteComponents env _) as [st' allGone] eqn:Hdelete.
        destruct allGone; simpl in Honce.
        - settle_deleted Honce Hnodelete Hdelete releaseFailed_keeps_calls.
        - settle_deleted Honce Hnodelete Hdelete releaseFailed_keeps_calls. }
      destruct (Hrelease mem1 once Hm1 Hrd Honce Hstore) as [->|[Hsu ->]].
      { split; [done|]. by rewrite <- Horig, Hstore. }
      remember (setCondition (now env) mem1 QuotaReserved ConditionFalse "Failed"
                  "No resources deployed") as mem2 eqn:Hmem2.
      assert (Hm2 : sameObject aw mem2)
        by (subst mem2; by apply sameObject_setCondition).
      split; [by destruct (sameObject_fields _ _ Hm2) as (_ & _ & _ & _ & -> & _)|].
      unfold reconcileFailed, fetched, setCond. simpl.
      destruct (sameObject_graces _ _ Hm2) as (-> & _).
      destruct (sameObject_fields _ _ Hm2) as (_ & _ & _ & _ & _ & ->).
      rewrite <- Hdelay, Hpaused.
      assert (Hfind2 : findCondition mem2 DeletingResources = Some c)
        by (subst mem2; by rewrite findCondition_setCondition_other).
      rewrite (setCondition_stable (now env) mem2 DeletingResources ConditionFalse
                 "DeletionPaused" _ c Hfind2).
      * rewrite Hfind2, Hbefore, Hmem2. by apply Hagain.
      * rewrite Hmem1, findCondition_setCondition_same in Hfind.
        injection Hfind as <-. apply writtenCondition_status.
      * rewrite Hmem1, findCondition_setCondition_same in Hfind.
        injection Hfind as <-. apply writtenCondition_generation.
      * rewrite Hmem1, findCondition_setCondition_same in Hfind.
        injection Hfind as <-. apply writtenCondition_reason.
      * rewrite Hmem1, findCondition_setCondition_same in Hfind.
        injection Hfind as <-. apply writtenCondition_message.
  - unfold cleanupFailed in Honce. simpl in Honce.
    destruct (isTrue aw ResourcesDeployed) eqn:Hrd.
    { destruct (callDeleteComponents env _) as [st' allGone] eqn:Hdelete.
      destruct allGone; simpl in Honce.
      - settle_deleted Honce Hnodelete Hdelete releaseFailed_keeps_calls.
      - settle_deleted Honce Hnodelete Hdelete releaseFailed_keeps_calls. }
    destruct (Hrelease aw once (sameObject_refl aw) Hrd Honce Hstore) as [->|[Hsu ->]].
    { split; [done|]. by rewrite <- Horig, Hstore. }
    remember (setCondition (now env) aw QuotaReserved ConditionFalse "Failed"
                "No resources deployed") as mem2 eqn:Hmem2.
    assert (Hm2 : sameObject aw mem2)
      by (subst mem2; apply sameObject_setCondition, sameObject_refl).
    split; [by destruct (sameObject_fields _ _ Hm2) as (_ & _ & _ & _ & -> & _)|].
    unfold reconcileFailed, fetched, setCond. simpl.
    destruct (sameObject_graces _ _ Hm2) as (-> & _).
    destruct (sameObject_fields _ _ Hm2) as (_ & _ & _ & _ & _ & ->).
    rewrite <- Hdelay, Hpaused, Hmem2. apply Hagain; [apply sameObject_refl|done..].
Qed.


Lemma reconcileSucceeded_stable (aw aw1 : AppWrapper) (once : Outcome) :
  Phase (AwStatus aw) = AppWrapperSucceeded →
  once = reconcileSucceeded r env (fetched aw) →
  persisted once = Some aw1 →
  Phase (AwStatus aw1) = Phase (AwStatus aw) →
  CallDeleteComponents ∉ issued once →
  DeletionTimestamp aw1 = DeletionTimestamp aw ∧
  persisted (reconcileSucceeded r env (fetched aw1)) = Some aw1.
Proof.
  intros Hphase Horig Hstore Hsame Hnodelete. pose proof Horig as Honce.
  unfold reconcileSucceeded, fetched, setCond in Honce. simpl in Honce.
  destruct (isTrue aw ResourcesDeployed) eqn:Hrd.
  2:{ settle_leaf Horig Honce Hstore Hsame. }
  destruct (findCondition aw ResourcesDeployed) as [c|] eqn:Hfind.
  2:{ settle_leaf Horig Honce Hstore Hsame. }
  destruct (Before _ _) eqn:Hbefore.
  - unfold statusUpdate in Honce. simpl in Honce.
    destruct (statusUpdateErr env) eqn:Hsu; simpl in Honce.
    { settle_leaf Horig Honce Hstore Hsame. }
    rewrite Honce in Hstore. simpl in Hstore. injection Hstore as <-.
    rewrite (sameObject_refl aw). split; [done|].
    rewrite <- Horig, Honce. simpl. f_equal. apply sameObject_refl.
  - destruct (callDeleteComponents env _) as [st' allGone] eqn:Hdelete.
    destruct allGone; simpl in Honce.
    + settle_deleted Honce Hnodelete Hdelete updateStatus_keeps_calls.
    + settle_deleted Honce Hnodelete Hdelete updateStatus_keeps_calls.
Qed.

Lemma reconcileEmpty_stable (aw aw1 : AppWrapper) (once : Outcome) :
  Phase (AwStatus aw) = AppWrapperEmpty →
  once = reconcileEmpty env (fetched aw) →
  persisted once = Some aw1 →
  Phase (AwStatus aw1) = Phase (AwStatus aw) →
  DeletionTimestamp aw1 = DeletionTimestamp aw ∧
  persisted (reconcileEmpty env (fetched aw1)) = Some aw1.
Proof.
  intros Hphase Horig Hstore Hsame. pose proof Horig as Honce.
  unfold reconcileEmpty, AddFinalizer, fetched in Honce. simpl in Honce.
  destruct (ContainsFinalizer aw AppWrapperFinalizer) eqn:Hfin; simpl in Honce.
  - unfold initializeComponents in Honce. simpl in Honce.
    destruct (EnsureComponentStatusInitialized aw) as [err|aw'].
    + settle_leaf Horig Honce Hstore Hsame.
    + settle_updateStatus Horig Honce Hstore Hsame.
  - unfold update in Honce. simpl in Honce.
    destruct (updateErr env) eqn:Hup; simpl in Honce.
    { settle_leaf Horig Honce Hstore Hsame. }
    remember (withStatus (withFinalizers aw (Finalizers aw ++ [AppWrapperFinalizer]))
                (AwStatus aw)) as awF eqn:HawF.
    assert (HfinF : ContainsFinalizer awF AppWrapperFinalizer = true).
    { subst awF. apply bool_decide_eq_true. simpl. rewrite elem_of_app. right. by left. }
    assert (Hsecond : reconcileEmpty env (fetched awF)
                      = initializeComponents env (fetched awF)).
    { unfold reconcileEmpty, AddFinalizer, fetched. simpl. by rewrite HfinF. }
    unfold initializeComponents in Honce. simpl in Honce.
    destruct (EnsureComponentStatusInitialized awF) as [err|aw'] eqn:Hensure.
    + rewrite Honce in Hstore. simpl in Hstore. injection Hstore as <-.
      split; [by subst awF|]. rewrite Hsecond.
      unfold initializeComponents, fetched. simpl. by rewrite Hensure.
    + unfold updateStatus, statusUpdate in Honce. simpl in Honce.
      destruct (statusUpdateErr env) eqn:Hsu; simpl in Honce;
        rewrite Honce in Hstore; simpl in Hstore; injection Hstore as <-.
      * split; [by subst awF|]. rewrite Hsecond.
        unfold initializeComponents, fetched. simpl. rewrite Hensure.
        unfold updateStatus, statusUpdate. simpl. by rewrite Hsu.
      * simpl in Hsame. congruence.
Qed.

Lemma reconcileDeletion_stable (aw aw1 : AppWrapper) (once : Outcome) :
  once = reconcileDeletion env (fetched aw) →
  persisted once = Some aw1 →
  CallDeleteComponents ∉ issued once →
  DeletionTimestamp aw1 = DeletionTimestamp aw ∧
  persisted (reconcileDeletion env (fetched aw1)) = Some aw1.
Proof.
  intros Horig Hstore Hnodelete. pose proof Horig as Honce.
  unfold reconcileDeletion, fetched in Honce. simpl in Honce.
  destruct (ContainsFinalizer aw AppWrapperFinalizer) eqn:Hfin.
  2:{ rewrite Honce in Hstore. simpl in Hstore. injection Hstore as <-.
      split; [done|]. by rewrite <- Horig, Honce. }
  destruct (isTrue aw ResourcesDeployed) eqn:Hrd.
  { destruct (callDeleteComponents env _) as [st' allGone] eqn:Hdelete.
    destruct allGone; simpl in Honce.
    - settle_deleted Honce Hnodelete Hdelete releaseQuota_keeps_calls.
    - case_decide; settle_deleted Honce Hnodelete Hdelete releaseQuota_keeps_calls. }
  pose proof (releaseQuota_spec env aw (AwStatus aw) [] false) as Hspec.
  cbv zeta in Hspec. rewrite (sameObject_refl aw) in Hspec.
  rewrite Hspec in Honce. clear Hspec. simpl in Honce.
  remember (clearCondition (now env) aw QuotaReserved "Terminating"
              "No resources deployed") as released eqn:Hreleased.
  assert (Hr : sameObject aw released)
    by (subst released; apply sameObject_clearCondition, sameObject_refl).
  assert (Hgone : ∀ obj status,
    ContainsFinalizer obj AppWrapperFinalizer = true →
    let gone := withStatus
                  (withFinalizers obj
                     (filter (λ g, g ≠ AppWrapperFinalizer) (Finalizers obj)))
                  status in
    persisted (reconcileDeletion env (fetched gone)) = Some gone).
  { intros obj status Hobj gone. unfold reconcileDeletion, fetched. simpl.
    replace (ContainsFinalizer gone AppWrapperFinalizer) with false; [done|].
    symmetry. apply (RemoveFinalizer_spec obj AppWrapperFinalizer Hobj). }
  destruct (isTrue aw QuotaReserved) eqn:Hqr; simpl in Honce.
  - destruct (statusUpdateErr env) eqn:Hsu.
    { rewrite Honce in Hstore. simpl in Hstore. injection Hstore as <-.
      split; [done|]. by rewrite <- Horig, Honce. }
    rewrite removeFinalizer_spec in Honce
      by (simpl; unfold ContainsFinalizer in *; by rewrite <- Hr).
    simpl in Honce. rewrite Hr in Honce.
    destruct (updateErr env) eqn:Hup;
      rewrite Honce in Hstore; simpl in Hstore; injection Hstore as <-.
    + split; [first [done | by destruct (sameObject_fields _ _ Hr)
                                   as (_ & _ & _ & _ & -> & _)]|].
      assert (HfinR : ContainsFinalizer released AppWrapperFinalizer = true)
        by (unfold ContainsFinalizer in *; by rewrite <- Hr).
      unfold reconcileDeletion, fetched. simpl. rewrite HfinR.
      replace (isTrue released ResourcesDeployed) with false
        by (subst released; by rewrite isTrue_clearCondition_other).
      pose proof (releaseQuota_spec env released (AwStatus released) [] false) as Hspec.
      cbv zeta in Hspec. rewrite (sameObject_refl released) in Hspec.
      rewrite Hspec. clear Hspec. simpl.
      replace (isTrue released QuotaReserved) with false
        by (subst released; by rewrite isTrue_clearCondition_same).
      simpl. rewrite removeFinalizer_spec by done. simpl. by rewrite Hup.
    + destruct (sameObject_fields _ _ Hr) as (_ & _ & _ & Hf & Hd & _).
      rewrite <- Hf. split; [simpl; by rewrite Hd|].
      apply Hgone. unfold ContainsFinalizer in *. by rewrite Hf.
  - rewrite removeFinalizer_spec in Honce by done. simpl in Honce.
    destruct (updateErr env) eqn:Hup;
      rewrite Honce in Hstore; simpl in Hstore; injection Hstore as <-.
    + split; [done|]. by rewrite <- Horig, Honce.
    + split; [done|]. by apply Hgone.
Qed.

End Stability.

(** C3, refuted as stated.  A freshly created workload with [suspend=false]
    is reconciled twice in the same environment.  One invocation leaves it
    [Suspended] with no condition; two invocations leave it [Resuming] with
    four conditions. *)
Lemma C3_counterexample :
  persistedPhase (Reconcile sampleReconciler (quietEnv 0) (Some freshWorkload))
  = Some AppWrapperSuspended ∧
  persistedPhase
    (Reconcile sampleReconciler (quietEnv 0)
       (persisted (Reconcile sampleReconciler (quietEnv 0) (Some freshWorkload))))
  = Some AppWrapperResuming ∧
  persistedConditions (Reconcile sampleReconciler (quietEnv 0) (Some freshWorkload))
  = Some [] ∧
  persistedConditions
    (Reconcile sampleReconciler (quietEnv 0)
       (persisted (Reconcile sampleReconciler (quietEnv 0) (Some freshWorkload))))
  = Some (deployedConditions 0).
Proof. repeat split. Qed.

(** C3, as amended.  An invocation moves the workload along at most one edge
    of the phase graph, so two invocations differ from one across a
    transition.  When an invocation leaves the persisted phase as it found it
    and has not invoked the deletion orchestrator, a second invocation in the
    same environment (same clock reading, same suspend flag, same
    observations, same answers of the store) leaves the persisted workload,
    hence its phase and its conditions, exactly as the first one left it.
    The expected pod count is assumed to depend on nothing in the status. *)
Theorem C3_reinvocation_without_transition `{Externals}
    (r : AppWrapperReconciler) (env : Env) (aw : AppWrapper) :
  let once := Reconcile r env (Some aw) in
  let twice := Reconcile r env (persisted once) in
  (∀ s, ExpectedPodCount (withStatus aw s) = ExpectedPodCount aw) →
  persistedPhase once = Some (Phase (AwStatus aw)) →
  CallDeleteComponents ∉ issued once →
  persisted twice = persisted once ∧
  persistedPhase twice = persistedPhase once ∧
  persistedConditions twice = persistedConditions once.
Proof.
  intros once twice Hexp Hphase Hnodelete.
  enough (persisted twice = persisted once) as Heq.
  { split; [done|]. unfold persistedPhase, persistedConditions. by rewrite Heq. }
  subst twice. unfold persistedPhase in Hphase.
  destruct (persisted once) as [aw1|] eqn:Hstore; [|done].
  injection Hphase as Hphase.
  subst once. unfold Reconcile, get in *.
  destruct (getErr env) as [e|] eqn:Hget.
  { simpl in Hstore. by injection Hstore as <-. }
  unfold reconcileFetched in Hstore, Hnodelete.
  assert (Hzero : DeletionTimestamp aw1 = DeletionTimestamp aw →
                  deletionTimestampIsZero aw1 = deletionTimestampIsZero aw).
  { unfold deletionTimestampIsZero. by intros ->. }
  simpl in Hstore, Hnodelete.
  destruct (deletionTimestampIsZero aw) eqn:Hdel; simpl in Hstore, Hnodelete.
  2:{ pose proof (reconcileDeletion_stable env aw aw1 _ eq_refl Hstore Hnodelete)
        as [Hts Hagain].
      unfold reconcileFetched. simpl. by rewrite (Hzero Hts). }
  assert (Hbranch : ∀ f : St → Outcome,
    DeletionTimestamp aw1 = DeletionTimestamp aw →
    (match Phase (AwStatus aw) with
     | AppWrapperEmpty => reconcileEmpty env (fetched aw1)
     | AppWrapperSuspended => reconcileSuspended env (fetched aw1)
     | AppWrapperResuming => reconcileResuming r env (fetched aw1)
     | AppWrapperRunning => reconcileRunning r env (fetched aw1)
     | AppWrapperResetting => reconcileResetting r env (fetched aw1)
     | AppWrapperSuspending => reconcileSuspending env (fetched aw1)
     | AppWrapperSucceeded => reconcileSucceeded r env (fetched aw1)
     | AppWrapperFailed => reconcileFailed r env (fetched aw1)
     | AppWrapperTerminating => finish (fetched aw1) emptyResult None
     end = f (fetched aw1)) →
    persisted (f (fetched aw1)) = Some aw1 →
    persisted (reconcileFetched r env (fetched aw1)) = Some aw1).
  { intros f Hts Hf Hagain. unfold reconcileFetched. simpl.
    rewrite (Hzero Hts). simpl. rewrite Hphase. by rewrite Hf. }
  destruct (Phase (AwStatus aw)) eqn:Hp.
  - destruct (reconcileEmpty_stable env aw aw1 _ Hp eq_refl Hstore) as [Hts Hagain];
      [congruence|]. by apply (Hbranch (reconcileEmpty env)).
  - destruct (reconcileSuspended_stable env aw aw1 _ Hp eq_refl Hstore) as [Hts Hagain];
      [congruence|]. by apply (Hbranch (reconcileSuspended env)).
  - destruct (reconcileResuming_stable r env aw aw1 _ Hp eq_refl Hstore) as [Hts Hagain];
      [congruence|]. by apply (Hbranch (reconcileResuming r env)).
  - destruct (reconcileRunning_stable r env aw aw1 _ Hexp Hp eq_refl Hstore)
      as [Hobj Hagain]; [congruence|].
    apply (Hbranch (reconcileRunning r env)); try done.
    by destruct (sameObject_fields _ _ Hobj) as (_ & _ & _ & _ & -> & _).
  - destruct (reconcileResetting_stable r env aw aw1 _ Hp eq_refl Hstore)
      as [Hts Hagain]; [congruence | done |].
    by apply (Hbranch (reconcileResetting r env)).
  - destruct (reconcileSuspending_stable env aw aw1 _ Hp eq_refl Hstore)
      as [Hts Hagain]; [congruence | done |].
    by apply (Hbranch (reconcileSuspending env)).
  - destruct (reconcileSucceeded_stable r env aw aw1 _ Hp eq_refl Hstore)
      as [Hts Hagain]; [congruence | done |].
    by apply (Hbranch (reconcileSucceeded r env)).
  - destruct (reconcileFailed_stable r env aw aw1 _ Hp eq_refl Hstore)
      as [Hts Hagain]; [congruence | done |].
    by apply (Hbranch (reconcileFailed r env)).
  - simpl in Hstore. injection Hstore as <-.
    by apply (Hbranch (λ st, finish st emptyResult None)).
Qed.

Lemma C3_reinvocation_without_transition_witness :
  persisted
    (Reconcile sampleReconciler (withPods (quietEnv (10 * Second)) [samplePod PodFailed])
       (persisted
          (Reconcile sampleReconciler
             (withPods (quietEnv (10 * Second)) [samplePod PodFailed])
             (Some (deployedWorkload AppWrapperRunning 0)))))
  = persisted
      (Reconcile sampleReconciler
         (withPods (quietEnv (10 * Second)) [samplePod PodFailed])
         (Some (deployedWorkload AppWrapperRunning 0))).
Proof.
  apply (C3_reinvocation_without_transition sampleReconciler
           (withPods (quietEnv (10 * Second)) [samplePod PodFailed])
           (deployedWorkload AppWrapperRunning 0)).
  - reflexivity.
  - reflexivity.
  - by apply (bool_decide_unpack _).
Defined.


(** * Further properties of the controller *)

(** ** Resolvers *)

(** X1.  Clamping is idempotent and monotone under a non-negative ceiling. *)
Theorem limitDuration_idempotent_monotone (r : AppWrapperReconciler) (d d' : Z) :
  0 ≤ GracePeriodMaximum (FaultTolerance (Config r)) →
  limitDuration r (limitDuration r d) = limitDuration r d ∧
  (d ≤ d' → limitDuration r d ≤ limitDuration r d').
Proof.
  intros HM. rewrite !limitDuration_clamp by done. unfold clamp. lia.
Qed.

Lemma limitDuration_idempotent_monotone_witness :
  limitDuration sampleReconciler (limitDuration sampleReconciler (48 * Hour))
  = limitDuration sampleReconciler (48 * Hour) ∧
  limitDuration sampleReconciler (- Second) ≤ limitDuration sampleReconciler (48 * Hour).
Proof.
  destruct (limitDuration_idempotent_monotone sampleReconciler (48 * Hour) (48 * Hour))
    as [Hidem _]; [by vm_compute|].
  destruct (limitDuration_idempotent_monotone sampleReconciler (- Second) (48 * Hour))
    as [_ Hmono]; [by vm_compute|].
  split; [exact Hidem | apply Hmono; by vm_compute].
Defined.

(** X2.  The ceiling is not validated: under a negative ceiling a
    non-negative request resolves to the negative ceiling itself, and a
    negative request to zero, above the ceiling. *)
Theorem limitDuration_negative_ceiling (r : AppWrapperReconciler) (d : Z) :
  GracePeriodMaximum (FaultTolerance (Config r)) < 0 →
  (0 ≤ d → limitDuration r d = GracePeriodMaximum (FaultTolerance (Config r))) ∧
  (d < 0 → limitDuration r d = 0).
Proof.
  intros HM. unfold limitDuration.
  destruct (Z.ltb_spec d 0); [split; [lia | done]|].
  destruct (Z.gtb_spec d (GracePeriodMaximum (FaultTolerance (Config r)))); split; lia.
Qed.

Lemma limitDuration_negative_ceiling_witness :
  limitDuration negativeCeilingReconciler Minute = - Hour.
Proof.
  destruct (limitDuration_negative_ceiling negativeCeilingReconciler Minute) as [Hpos _];
    [by vm_compute|].
  apply Hpos. by vm_compute.
Defined.

(** X3.  The deletion-on-failure delay lies within [[0, M]] under a ceiling
    [M >= 0], whatever the annotation: the clamped override when it parses,
    zero otherwise. *)
Theorem deletionOnFailure_delay_bounded `{Externals} (r : AppWrapperReconciler)
    (aw : AppWrapper) :
  let M := GracePeriodMaximum (FaultTolerance (Config r)) in
  0 ≤ M →
  0 ≤ deletionOnFailureGraceDuration r aw ≤ M ∧
  deletionOnFailureGraceDuration r aw
  = match parsedOverride aw DeletionOnFailureGracePeriodAnnotation with
    | Some d => clamp M d
    | None => 0
    end.
Proof.
  intros M HM. unfold deletionOnFailureGraceDuration.
  split_override; try (split; [lia | done]).
  split; [by apply limitDuration_bounds | by apply limitDuration_clamp].
Qed.

Lemma deletionOnFailure_delay_bounded_witness :
  deletionOnFailureGraceDuration sampleReconciler debuggedWorkload = 24 * Hour.
Proof.
  destruct (deletionOnFailure_delay_bounded sampleReconciler debuggedWorkload) as [_ Heq];
    [by vm_compute|].
  exact Heq.
Defined.

(** X4.  An override can only shorten the success TTL: the resolved TTL
    never exceeds the configured one, and it is positive whenever the
    configured one is. *)
Theorem successTTL_only_shortened `{Externals} (r : AppWrapperReconciler) (aw : AppWrapper) :
  let T := SuccessTTL (FaultTolerance (Config r)) in
  timeToLiveAfterSucceededDuration r aw ≤ T ∧
  (0 < T → 0 < timeToLiveAfterSucceededDuration r aw).
Proof.
  intros T. subst T. unfold timeToLiveAfterSucceededDuration.
  split_override; try lia.
  destruct (Z.gtb_spec duration 0),
    (Z.ltb_spec duration (SuccessTTL (FaultTolerance (Config r)))); simpl; lia.
Qed.

(** X5.  The retry-limit annotation overrides the configuration in
    [resetOrFail]: when it parses to an [int32] value that the retries have
    reached, the workload is sent to [Failed] with its retries unchanged,
    whatever limit is configured; when it is absent or malformed the
    configured limit applies. *)
Theorem retryLimit_annotation_rules_the_gate `{Externals} (r : AppWrapperReconciler)
    (env : Env) (st : St) :
  (∀ userLimit n,
     Annotations (mem st) !! RetryLimitAnnotation = Some userLimit →
     Atoi userLimit = Some n →
     retryLimit r (mem st) = wrap32 n ∧
     (int32 n → n ≤ Retries (AwStatus (mem st)) →
      ∃ aw', inMemory (resetOrFail r env st) = Some aw' ∧
             Phase (AwStatus aw') = AppWrapperFailed ∧
             Retries (AwStatus aw') = Retries (AwStatus (mem st)))) ∧
  (Annotations (mem st) !! RetryLimitAnnotation ≫= Atoi = None →
   retryLimit r (mem st) = RetryLimit (FaultTolerance (Config r))).
Proof.
  split.
  - intros userLimit n Hann Hatoi.
    assert (Hlimit : retryLimit r (mem st) = wrap32 n)
      by (unfold retryLimit; by rewrite Hann, Hatoi).
    split; [done|]. intros Hn Hle. unfold resetOrFail. rewrite Hlimit, (wrap32_id n Hn).
    destruct (Z.ltb_spec (Retries (AwStatus (mem st))) n); [lia|].
    destruct (updateStatus_spec env st AppWrapperFailed) as (aw' & Hmem & Hst & _).
    exists aw'. rewrite Hst. by repeat split.
  - unfold retryLimit.
    destruct (Annotations (mem st) !! RetryLimitAnnotation) as [userLimit|]; simpl; [|done].
    by intros ->.
Qed.

Lemma retryLimit_annotation_rules_the_gate_witness :
  ∃ aw', inMemory (resetOrFail sampleReconciler (quietEnv 0) (fetched debuggedWorkload))
         = Some aw' ∧
         Phase (AwStatus aw') = AppWrapperFailed.
Proof.
  destruct (retryLimit_annotation_rules_the_gate sampleReconciler (quietEnv 0)
              (fetched debuggedWorkload)) as [Hoverride _].
  destruct (Hoverride "0" 0) as [_ Hfail]; [reflexivity | reflexivity |].
  destruct Hfail as (aw' & Hmem & Hphase & _); [by vm_compute | by vm_compute |].
  exists aw'. split; [exact Hmem | exact Hphase].
Defined.


Lemma successTTL_only_shortened_witness :
  0 < timeToLiveAfterSucceededDuration sampleReconciler overriddenWorkload ≤ 7 * 24 * Hour.
Proof.
  destruct (successTTL_only_shortened sampleReconciler overriddenWorkload) as [Hle Hpos].
  split; [apply Hpos; by vm_compute | exact Hle].
Defined.

(** ** Clearing a condition *)

Lemma length_updateFirst now new l : length (updateFirst now new l) = length l.
Proof.
  induction l as [|c l IH]; simpl; [done|].
  destruct (decide (Type_ c = Type_ new)); simpl; by rewrite ?IH.
Qed.

(** X6.  [clearCondition] never adds a condition and never makes one true:
    a condition that is true becomes false with the given reason and
    message and is stamped with the clock reading; a condition that is not
    true (absent, false or unknown) leaves the whole workload as it was, the
    old reason and message included; the conditions of the other types are
    untouched either way. *)
Theorem clearCondition_effect (now : Time) (aw : AppWrapper) (ty : AppWrapperCondition)
    (reason message : string) :
  let aw' := clearCondition now aw ty reason message in
  length (Conditions (AwStatus aw')) = length (Conditions (AwStatus aw)) ∧
  isTrue aw' ty = false ∧
  (∀ ty', ty' ≠ ty → findCondition aw' ty' = findCondition aw ty') ∧
  (isTrue aw ty = false → aw' = aw) ∧
  (isTrue aw ty = true →
   ∃ c, findCondition aw' ty = Some c ∧ Status c = ConditionFalse ∧
        Reason c = reason ∧ Message c = message ∧ LastTransitionTime c = now).
Proof.
  intros aw'. subst aw'. split; [|split; [|split; [|split]]].
  - unfold clearCondition. destruct (isTrue aw ty) eqn:Htrue; [|done].
    unfold setCondition, SetStatusCondition. simpl.
    unfold isTrue, IsStatusConditionTrue in Htrue.
    destruct (FindStatusCondition _ _); [apply length_updateFirst | done].
  - apply isTrue_clearCondition_same.
  - intros ty' Hne. by apply findCondition_clearCondition_other.
  - apply clearCondition_noop.
  - intros Htrue. unfold clearCondition. rewrite Htrue.
    rewrite findCondition_setCondition_same. eexists. split; [done|].
    rewrite writtenCondition_status, writtenCondition_reason, writtenCondition_message.
    repeat split.
    unfold isTrue, IsStatusConditionTrue in Htrue. unfold findCondition.
    destruct (FindStatusCondition _ _) as [c|]; [|done].
    apply bool_decide_eq_true in Htrue. unfold writtenCondition, mergeCondition. simpl.
    rewrite Htrue. by rewrite decide_False.
Qed.

(** ** The pod watch *)

(** X7.  [podMapFunc] asks for a reconciliation only for a pod that carries
    the workload label and has succeeded, and then for exactly one workload:
    the one the label names, in the pod's namespace, by which the pod is
    counted as a matching succeeded pod.  Pods in any other phase, failed
    ones included, and unlabelled pods trigger nothing. *)
Theorem podMapFunc_requests (pod : Pod) :
  (∀ name, podLabels pod !! AppWrapperLabel = Some name →
           podPhase pod = PodSucceeded →
           podMapFunc pod = [ {| reqNamespace := podNamespace pod; reqName := name |} ]) ∧
  (podLabels pod !! AppWrapperLabel = None ∨ podPhase pod ≠ PodSucceeded →
   podMapFunc pod = []) ∧
  (∀ req aw, req ∈ podMapFunc pod →
             Name aw = reqName req → Namespace aw = reqNamespace req →
             podMatches aw pod = true ∧ countPod (mkPodStatus 0 0 0 0 0) pod
                                       = mkPodStatus 0 0 0 1 0).
Proof.
  unfold podMapFunc. split; [|split].
  - intros name -> Hphase. by rewrite decide_True.
  - intros [-> | Hphase]; [done|].
    destruct (podLabels pod !! AppWrapperLabel); [|done]. by rewrite decide_False.
  - intros req aw Hin Hname Hns.
    destruct (podLabels pod !! AppWrapperLabel) as [name|] eqn:Hlabel;
      [|by apply elem_of_nil in Hin].
    destruct (decide (podPhase pod = PodSucceeded)) as [Hphase|];
      [|by apply elem_of_nil in Hin].
    apply list_elem_of_singleton in Hin as ->. simpl in *.
    unfold podMatches, countPod. rewrite Hlabel, Hphase, Hname, Hns.
    by rewrite !bool_decide_eq_true_2.
Qed.

Lemma podMapFunc_requests_witness :
  podMapFunc (samplePod PodSucceeded) = [ {| reqNamespace := "default"; reqName := "aw" |} ] ∧
  podMapFunc (samplePod PodFailed) = [].
Proof.
  destruct (podMapFunc_requests (samplePod PodSucceeded)) as (Hsucc & _).
  destruct (podMapFunc_requests (samplePod PodFailed)) as (_ & Hnone & _).
  split; [apply Hsucc; reflexivity | apply Hnone; right; by vm_compute].
Defined.


(** ** Component aggregation *)

Lemma componentLoop_records `{Externals} (env : Env) (ns : string) records :
  Forall (λ cs, ∀ e, childAnswer env ns cs = Some e → IsNotFound e = true) records →
  ∀ d0, Forall2 (recordAfter env ns) records (componentLoop env ns records d0).1.
Proof.
  induction 1 as [|cs records Hcs _ IH]; intros d0; simpl; [by apply Forall2_nil|].
  fold (childAnswer env ns cs).
  destruct (childAnswer env ns cs) as [e|] eqn:Hanswer.
  - rewrite (Hcs e eq_refl). specialize (IH d0).
    destruct (componentLoop env ns records d0) as [rest' outcome]. simpl in *.
    apply Forall2_cons. split; [|done].
    unfold recordAfter. rewrite Hanswer. split; [done|].
    eexists. split.
    + exact (Find_Set_same (now env) (csConditions cs)
               (newCondition (conditionString Unhealthy) ConditionTrue
                  "ComponentNotFound" EmptyString)).
    + by rewrite writtenCondition_status, writtenCondition_reason.
  - specialize (IH (wrap32 (d0 + 1))).
    destruct (componentLoop env ns records (wrap32 (d0 + 1))) as [rest' outcome].
    simpl in *. apply Forall2_cons. split; [|done].
    unfold recordAfter. by rewrite Hanswer.
Qed.

(** The scan of [getComponentStatus] when no child fetch fails with anything
    but a not-found. *)
Lemma getComponentStatus_scan `{Externals} (env : Env) (aw : AppWrapper) :
  let records := ComponentStatus (AwStatus aw) in
  Forall (λ cs, ∀ e, childAnswer env (Namespace aw) cs = Some e → IsNotFound e = true)
    records →
  ∃ records',
    getComponentStatus env aw
    = (withComponentStatus aw records',
       inr {| cs_expected := wrap32 (Z.of_nat (length records));
              cs_deployed := wrap32 (foundChildren env (Namespace aw) records) |}) ∧
    Forall2 (recordAfter env (Namespace aw)) records records'.
Proof.
  intros records Hall.
  pose proof (componentLoop_deployed env (Namespace aw) records Hall 0) as Hloop.
  pose proof (componentLoop_records env (Namespace aw) records Hall 0) as Hrecords.
  unfold getComponentStatus. fold records.
  destruct (componentLoop env (Namespace aw) records 0) as [records' outcome].
  simpl in *. rewrite Hloop by (by vm_compute). rewrite Z.add_0_l.
  by exists records'.
Qed.

(** X8.  When every failed child fetch is a not-found, [getComponentStatus]
    succeeds: it expects one component per record, counts the children that
    exist, marks each record whose child is missing with a true [Unhealthy]
    condition of reason [ComponentNotFound], leaves the other records, the
    identity of every record and the workload's own conditions, phase and
    retries as they were. *)
Theorem getComponentStatus_marks_missing `{Externals} (env : Env) (aw : AppWrapper) :
  let records := ComponentStatus (AwStatus aw) in
  Forall (λ cs, ∀ e, childAnswer env (Namespace aw) cs = Some e → IsNotFound e = true)
    records →
  ∃ aw1,
    getComponentStatus env aw
    = (aw1, inr {| cs_expected := wrap32 (Z.of_nat (length records));
                   cs_deployed := wrap32 (foundChildren env (Namespace aw) records) |}) ∧
    Forall2 (recordAfter env (Namespace aw)) records (ComponentStatus (AwStatus aw1)) ∧
    Conditions (AwStatus aw1) = Conditions (AwStatus aw) ∧
    Phase (AwStatus aw1) = Phase (AwStatus aw) ∧
    Retries (AwStatus aw1) = Retries (AwStatus aw).
Proof.
  intros records Hall.
  destruct (getComponentStatus_scan env aw Hall) as (records' & Heq & Hrecords).
  exists (withComponentStatus aw records'). by repeat split.
Qed.

Lemma getComponentStatus_marks_missing_witness :
  ∃ aw1,
    getComponentStatus (withMissingChild (quietEnv 1000) "frontend") (twoComponentWorkload 0)
    = (aw1, inr {| cs_expected := 2; cs_deployed := 1 |}).
Proof.
  destruct (getComponentStatus_marks_missing (withMissingChild (quietEnv 1000) "frontend")
              (twoComponentWorkload 0)) as (aw1 & Heq & _).
  - apply Forall_cons; split; [by vm_compute|].
    apply Forall_cons; split; [|by apply Forall_nil].
    intros e. vm_compute. by intros [= <-].
  - exists aw1. exact Heq.
Defined.

(** X9.  When every child exists, [getComponentStatus] leaves the workload
    untouched and reports as many deployed components as expected. *)
Theorem getComponentStatus_all_present `{Externals} (env : Env) (aw : AppWrapper) :
  let records := ComponentStatus (AwStatus aw) in
  Forall (λ cs, childAnswer env (Namespace aw) cs = None) records →
  ∃ n, getComponentStatus env aw = (aw, inr {| cs_expected := n; cs_deployed := n |}).
Proof.
  intros records Hall.
  destruct (getComponentStatus_scan env aw) as (records' & Heq & Hrecords).
  { eapply Forall_impl; [exact Hall|]. simpl. intros cs -> e. discriminate. }
  fold records in Heq, Hrecords.
  assert (records' = records) as ->.
  { clear Heq. revert Hrecords. generalize records'.
    induction Hall as [|cs l Hcs _ IH]; intros l' Hl'.
    - by apply Forall2_nil_inv_l in Hl'.
    - apply Forall2_cons_inv_l in Hl' as (cs' & rest' & [_ Hcs'] & Hrest & ->).
      rewrite Hcs in Hcs'. rewrite Hcs'. f_equal. by apply IH. }
  assert (foundChildren env (Namespace aw) records = Z.of_nat (length records)) as Hfound.
  { clear -Hall. induction Hall as [|cs l Hcs _ IH]; [done|].
    rewrite foundChildren_cons, decide_True by done. simpl length. lia. }
  rewrite Hfound in Heq. eexists. rewrite Heq. f_equal.
  subst records. by destruct aw as [? ? ? ? ? ? []].
Qed.

Lemma getComponentStatus_all_present_witness :
  ∃ n, getComponentStatus (quietEnv 1000) (twoComponentWorkload 0)
       = (twoComponentWorkload 0, inr {| cs_expected := n; cs_deployed := n |}).
Proof.
  apply (getComponentStatus_all_present (quietEnv 1000) (twoComponentWorkload 0)).
  repeat (apply Forall_cons; split; [reflexivity|]). by apply Forall_nil.
Defined.

(** X10.  A failed child fetch that is not a not-found aborts the
    aggregation: [getComponentStatus] returns an error that is not a
    not-found and that the store gave for one of the records. *)
Theorem getComponentStatus_aborts_on_error `{Externals} (env : Env) (aw : AppWrapper) :
  let records := ComponentStatus (AwStatus aw) in
  Exists (λ cs, ∃ e, childAnswer env (Namespace aw) cs = Some e ∧ IsNotFound e = false)
    records →
  ∃ e cs,
    (getComponentStatus env aw).2 = inl e ∧
    IsNotFound e = false ∧
    cs ∈ records ∧ childAnswer env (Namespace aw) cs = Some e.
Proof.
  intros records Hbroken. unfold getComponentStatus. fold records.
  enough (∀ d0, ∃ e cs, (componentLoop env (Namespace aw) records d0).2 = inl e ∧
                        IsNotFound e = false ∧ cs ∈ records ∧
                        childAnswer env (Namespace aw) cs = Some e) as Hloop.
  { destruct (Hloop 0) as (e & cs & Heq & Hnf & Hin & Hanswer).
    destruct (componentLoop env (Namespace aw) records 0) as [records' outcome].
    simpl in *. subst outcome. by exists e, cs. }
  induction records as [|cs records IH]; [by apply Exists_nil in Hbroken|].
  intros d0. simpl. fold (childAnswer env (Namespace aw) cs).
  destruct (childAnswer env (Namespace aw) cs) as [e|] eqn:Hanswer.
  - destruct (IsNotFound e) eqn:Hnf.
    + apply Exists_cons in Hbroken as [(e' & He' & Hnf')|Hrest]; [congruence|].
      destruct (IH Hrest d0) as (e' & cs' & Heq & Hnf' & Hin & Hans).
      destruct (componentLoop env (Namespace aw) records d0). simpl in *.
      exists e', cs'. repeat split; try done. by right.
    + exists e, cs. repeat split; try done. by left.
  - apply Exists_cons in Hbroken as [(e' & He' & _)|Hrest]; [congruence|].
    destruct (IH Hrest (wrap32 (d0 + 1))) as (e' & cs' & Heq & Hnf' & Hin & Hans).
    destruct (componentLoop env (Namespace aw) records (wrap32 (d0 + 1))). simpl in *.
    exists e', cs'. repeat split; try done. by right.
Qed.

Lemma getComponentStatus_aborts_on_error_witness :
  (getComponentStatus (withUnavailableChild (quietEnv 1000) "frontend")
     (twoComponentWorkload 0)).2 = inl unavailable.
Proof.
  destruct (getComponentStatus_aborts_on_error
              (withUnavailableChild (quietEnv 1000) "frontend") (twoComponentWorkload 0))
    as (e & cs & Heq & _).
  - apply Exists_cons_tl, Exists_cons_hd. exists unavailable. split; reflexivity.
  - reflexivity.
Defined.

(** ** Pod aggregation *)

(** X11.  The pod summary of a workload depends only on the pods that match
    it and not on their order: pods of other namespaces or other workloads
    change nothing, and neither does a reordering of the listing. *)
Theorem getPodStatus_only_matching_pods `{Externals} (env : Env) (aw : AppWrapper)
    (pods pods' : list Pod) :
  getPodStatus (withPods env pods) aw
  = getPodStatus (withPods env (matchingPods aw pods)) aw ∧
  (∀ others, Forall (λ p, podMatches aw p = false) others →
             getPodStatus (withPods env (pods ++ others)) aw
             = getPodStatus (withPods env pods) aw) ∧
  (pods ≡ₚ pods' →
   getPodStatus (withPods env pods') aw = getPodStatus (withPods env pods) aw).
Proof.
  rewrite !getPodStatus_counts. split; [|split].
  - unfold matchingPods. by rewrite list_filter_filter_l.
  - intros others Hothers. rewrite getPodStatus_counts.
    assert (matchingPods aw (pods ++ others) = matchingPods aw pods) as ->; [|done].
    unfold matchingPods. rewrite filter_app.
    assert (filter (λ p, podMatches aw p = true) others = []) as ->.
    { induction Hothers as [|p l Hp _ IH]; [done|].
      rewrite filter_cons, decide_False by congruence. done. }
    apply app_nil_r.
  - intros Hperm. unfold countPhase, matchingPods. by rewrite Hperm.
Qed.

Lemma getPodStatus_only_matching_pods_witness :
  getPodStatus (withPods (quietEnv 0) [samplePod PodRunning; foreignPod PodFailed])
    plainWorkload
  = getPodStatus (withPods (quietEnv 0) [samplePod PodRunning]) plainWorkload.
Proof.
  destruct (getPodStatus_only_matching_pods (quietEnv 0) plainWorkload
              [samplePod PodRunning] []) as (_ & Hothers & _).
  apply (Hothers [foreignPod PodFailed]).
  apply Forall_cons; split; [reflexivity | by apply Forall_nil].
Defined.


(** ** Every branch of an invocation *)

(** Unfolds the helpers of an invocation. *)
Ltac open_helpers :=
  unfold reconcileDeletion, releaseQuota, removeFinalizer,
    reconcileEmpty, initializeComponents, reconcileSuspended, reconcileResuming,
    reconcileRunning, reconcileSuspending, finishSuspending,
    reconcileResetting, pauseBeforeResuming,
    reconcileFailed, cleanupFailed, releaseFailed, reconcileSucceeded,
    resetOrFail, updateStatus, statusUpdate, update,
    callDeleteComponents, callCreateComponents,
    setCond, clearCond, setMem, logCall, finish, panic,
    AddFinalizer, RemoveFinalizer.

Ltac walk_step :=
  match goal with
  | |- context [deleteComponents ?e ?a] =>
      let status' := fresh "status'" in
      let allGone := fresh "allGone" in
      destruct (deleteComponents e a) as [status' allGone] eqn:?
  | |- context [createComponents ?e ?a] =>
      let status' := fresh "status'" in
      destruct (createComponents e a) as [status' [[? ?]|]] eqn:?
  | |- context [getComponentStatus ?e ?a] =>
      destruct (getComponentStatus e a) as [? [?|?]] eqn:?
  | |- context [if isTrue ?a ?t then _ else _] => destruct (isTrue a t) eqn:?
  | |- context [statusUpdateErr ?e] => destruct (statusUpdateErr e) eqn:?
  | |- context [updateErr ?e] => destruct (updateErr e) eqn:?
  | |- context [match ?x with _ => _ end] => destruct x eqn:?
  end; simpl.

Ltac walk := simpl; repeat walk_step.

(** Splits an invocation on a fetched workload by branch (the deletion
    branch, then one case per phase) and walks each branch to its leaves. *)
Ltac by_branch env aw :=
  unfold Reconcile, get, reconcileFetched, fetched; simpl;
  destruct (getErr env) eqn:?; simpl;
  [ | destruct (deletionTimestampIsZero aw) eqn:?; simpl;
      [ destruct (Phase (AwStatus aw)) eqn:? | ] ];
  open_helpers; walk.

Ltac use_before :=
  repeat match goal with
         | Hb : Before _ _ = true |- _ => apply bool_decide_eq_true in Hb
         | Hb : Before _ _ = false |- _ => apply bool_decide_eq_false in Hb
         end;
  unfold Add, Sub in *.

(** Membership of a call in an explicit list of calls. *)
Ltac in_calls :=
  repeat match goal with
         | Hin : _ ∈ _ :: _ |- _ => apply elem_of_cons in Hin as [Hin|Hin]; try discriminate
         | Hin : _ ∈ [] |- _ => by apply elem_of_nil in Hin
         end.

(** Brings the condition tests of a walked branch back to the fetched
    workload. *)
Ltac to_fetched :=
  repeat match goal with
         | Hc : getComponentStatus _ _ = (_, _) |- _ =>
             let records' := fresh "records'" in
             destruct (getComponentStatus_frame _ _ _ _ Hc) as [records' ->]; clear Hc
         | Ht : context [isTrue (clearCondition _ _ _ _ _) _] |- _ =>
             rewrite isTrue_clearCondition_other in Ht by done
         | Ht : context [isTrue (setCondition _ _ _ _ _ _) _] |- _ =>
             rewrite isTrue_setCondition_other in Ht by done
         | Ht : context [findCondition (clearCondition _ _ _ _ _) _] |- _ =>
             rewrite findCondition_clearCondition_other in Ht by done
         | Ht : context [findCondition (setCondition _ _ _ _ _ _) _] |- _ =>
             first [ rewrite findCondition_setCondition_other in Ht by done
                   | rewrite findCondition_setCondition_same in Ht ]
         end.

(** What writing or clearing a condition leaves alone. *)
Lemma Phase_setCondition now aw ty st reason message :
  Phase (AwStatus (setCondition now aw ty st reason message)) = Phase (AwStatus aw).
Proof. done. Qed.

Lemma Retries_setCondition now aw ty st reason message :
  Retries (AwStatus (setCondition now aw ty st reason message)) = Retries (AwStatus aw).
Proof. done. Qed.

Lemma Annotations_setCondition now aw ty st reason message :
  Annotations (setCondition now aw ty st reason message) = Annotations aw.
Proof. done. Qed.

Lemma Finalizers_setCondition now aw ty st reason message :
  Finalizers (setCondition now aw ty st reason message) = Finalizers aw.
Proof. done. Qed.

Lemma Phase_clearCondition now aw ty reason message :
  Phase (AwStatus (clearCondition now aw ty reason message)) = Phase (AwStatus aw).
Proof. unfold clearCondition. by destruct (isTrue aw ty). Qed.

Lemma Retries_clearCondition now aw ty reason message :
  Retries (AwStatus (clearCondition now aw ty reason message)) = Retries (AwStatus aw).
Proof. unfold clearCondition. by destruct (isTrue aw ty). Qed.

Lemma Annotations_clearCondition now aw ty reason message :
  Annotations (clearCondition now aw ty reason message) = Annotations aw.
Proof. unfold clearCondition. by destruct (isTrue aw ty). Qed.

Lemma Finalizers_clearCondition now aw ty reason message :
  Finalizers (clearCondition now aw ty reason message) = Finalizers aw.
Proof. unfold clearCondition. by destruct (isTrue aw ty). Qed.

(** Pushes the projections of a walked branch through the condition writes. *)
Ltac through_conditions :=
  repeat first
    [ rewrite Phase_setCondition in * | rewrite Phase_clearCondition in *
    | rewrite Retries_setCondition in * | rewrite Retries_clearCondition in *
    | rewrite Annotations_setCondition in * | rewrite Annotations_clearCondition in *
    | rewrite Finalizers_setCondition in * | rewrite Finalizers_clearCondition in *
    | progress simpl in * ].

(** Instantiates what is assumed of the orchestrators at the calls of a
    walked branch. *)
Ltac at_calls Hd :=
  repeat match goal with
         | Hcall : deleteComponents ?e ?a = (?s, _) |- _ =>
             let Hp := fresh "Hkept" in
             pose proof (Hd a) as Hp; rewrite Hcall in Hp; simpl in Hp;
             clear Hcall
         | Hcall : createComponents ?e ?a = (?s, _) |- _ =>
             let Hp := fresh "Hkept" in
             pose proof (Hd a) as Hp; rewrite Hcall in Hp; simpl in Hp;
             clear Hcall
         end.


(** The transition time a condition write leaves. *)
Lemma writtenCondition_time now found ty st reason message :
  LastTransitionTime (writtenCondition now found (newCondition ty st reason message))
  = match found with
    | Some c => if decide (Status c = st) then LastTransitionTime c else now
    | None => now
    end.
Proof.
  unfold writtenCondition, mergeCondition, newCondition.
  destruct found; simpl; [by destruct (decide _)|done].
Qed.

Lemma transitionTimeOf_setCondition now aw ty st reason message :
  transitionTimeOf (setCondition now aw ty st reason message) ty
  = Some (since now aw ty st).
Proof.
  unfold transitionTimeOf, since.
  rewrite findCondition_setCondition_same. cbn [fmap option_fmap option_map].
  by rewrite writtenCondition_time.
Qed.

Lemma findCondition_ext aw aw' ty :
  Conditions (AwStatus aw') = Conditions (AwStatus aw) →
  findCondition aw' ty = findCondition aw ty.
Proof. unfold findCondition. by intros ->. Qed.

Lemma isTrue_ext aw aw' ty :
  Conditions (AwStatus aw') = Conditions (AwStatus aw) →
  isTrue aw' ty = isTrue aw ty.
Proof. unfold isTrue. by intros ->. Qed.

Lemma isTrue_statusOf aw ty :
  isTrue aw ty = bool_decide (statusOf aw ty = Some ConditionTrue).
Proof.
  unfold isTrue, statusOf, IsStatusConditionTrue, findCondition.
  destruct (FindStatusCondition _ _) as [c|]; simpl; [|done].
  destruct (Status c); done.
Qed.

(** Reads a condition of a workload through the condition writes that led
    to it. *)
Ltac read_conditions :=
  repeat first
    [ rewrite findCondition_setCondition_same
    | rewrite findCondition_setCondition_other by done
    | rewrite findCondition_clearCondition_other by done
    | rewrite isTrue_setCondition_same
    | rewrite isTrue_setCondition_other by done
    | rewrite isTrue_clearCondition_same
    | rewrite isTrue_clearCondition_other by done ].
Section Whole.
Context `{Externals}.
Variable r : AppWrapperReconciler.


(** X12.  An invocation never asks for a negative requeue delay: whatever
    the store holds and the environment answers, the delay it returns is
    zero or positive. *)
Theorem requeue_never_negative (env : Env) (store : option AppWrapper) res err :
  ret (Reconcile r env store) = Returned res err → 0 ≤ RequeueAfter res.
Proof.
  destruct store as [aw|]; [|unfold Reconcile, get; destruct (getErr env); by intros [= <- _]].
  by_branch env aw.
  all: try discriminate.
  all: intros [= <- _]; simpl; try done.
  all: use_before; lia.
Qed.

(** X13.  The deletion orchestrator is invoked only for a workload whose
    [ResourcesDeployed] condition is true. *)
Theorem delete_only_when_deployed (env : Env) (aw : AppWrapper) :
  CallDeleteComponents ∈ issued (Reconcile r env (Some aw)) →
  isTrue aw ResourcesDeployed = true.
Proof.
  by_branch env aw.
  all: intros Hin; in_calls.
  all: to_fetched; try done; congruence.
Qed.

(** X14.  Child resources are created only for a workload that is in phase
    [Resuming], not suspended and not marked for deletion. *)
Theorem create_only_when_resuming (env : Env) (aw : AppWrapper) :
  CallCreateComponents ∈ issued (Reconcile r env (Some aw)) →
  deletionTimestampIsZero aw = true ∧
  Phase (AwStatus aw) = AppWrapperResuming ∧
  Suspend aw = false.
Proof.
  by_branch env aw.
  all: intros Hin; in_calls.
  all: done.
Qed.


(** X15.  An invocation writes nothing but the status and the controller's
    own finalizer: the persisted workload keeps its name, namespace,
    annotations, deletion timestamp and suspend flag; its finalizers are
    unchanged, or gained the controller's finalizer (only from phase
    [Empty], when not marked for deletion), or lost it (only when marked
    for deletion), the finalizers of others being kept in order. *)
Theorem invocation_writes_status_and_finalizer_only (env : Env) (aw aw' : AppWrapper) :
  persisted (Reconcile r env (Some aw)) = Some aw' →
  Name aw' = Name aw ∧ Namespace aw' = Namespace aw ∧
  Annotations aw' = Annotations aw ∧
  DeletionTimestamp aw' = DeletionTimestamp aw ∧ Suspend aw' = Suspend aw ∧
  (Finalizers aw' = Finalizers aw ∨
   (deletionTimestampIsZero aw = true ∧ Phase (AwStatus aw) = AppWrapperEmpty ∧
    Finalizers aw' = Finalizers aw ++ [AppWrapperFinalizer]) ∨
   (deletionTimestampIsZero aw = false ∧
    Finalizers aw' = filter (λ g, g ≠ AppWrapperFinalizer) (Finalizers aw))).
Proof.
  by_branch env aw.
  all: repeat match goal with
       | Hp : (if ContainsFinalizer ?a ?f then _ else _) = _ |- _ =>
           destruct (ContainsFinalizer a f) eqn:?; simplify_eq
       end.
  all: intros [= <-]; simpl; repeat split; auto.
Qed.

(** X16.  An invocation can panic in two places only, both outside the
    deletion branch: in phase [Running] when the workload has no
    [ResourcesDeployed] condition, and in phase [Resetting] when it has no
    [Unhealthy] condition or the deletion orchestrator has been invoked.  A
    panicking invocation has written nothing. *)
Theorem panic_only_without_anchor_condition (env : Env) (aw : AppWrapper) :
  ret (Reconcile r env (Some aw)) = Panicked →
  deletionTimestampIsZero aw = true ∧
  persisted (Reconcile r env (Some aw)) = Some aw ∧
  (CallStatusUpdate ∉ issued (Reconcile r env (Some aw))) ∧
  (CallUpdate ∉ issued (Reconcile r env (Some aw))) ∧
  ((Phase (AwStatus aw) = AppWrapperRunning ∧
    findCondition aw ResourcesDeployed = None) ∨
   (Phase (AwStatus aw) = AppWrapperResetting ∧
    (findCondition aw Unhealthy = None ∨
     CallDeleteComponents ∈ issued (Reconcile r env (Some aw))))).
Proof.
  by_branch env aw.
  all: try discriminate.
  all: intros _; to_fetched; try discriminate.
  all: try (unfold isTrue, IsStatusConditionTrue, findCondition in *;
            match goal with
            | Hfind : FindStatusCondition ?l ?t = None,
              Htrue : match FindStatusCondition ?l ?t with _ => _ end = true |- _ =>
                rewrite Hfind in Htrue; discriminate
            end).
  all: repeat split; try done; try (by apply (bool_decide_unpack _)).
  all: first [ left; split; [done|assumption]
             | right; split; [done|]; first [ left; assumption | right; by left ] ].
Qed.

(** X17.  Outside the deletion branch a failed status write is always
    returned to the dispatcher, together with the requeue delay if there is
    one, and leaves the persisted status as it was. *)
Theorem failed_status_write_is_returned (env : Env) (aw : AppWrapper) (e : Error) :
  deletionTimestampIsZero aw = true →
  statusUpdateErr env = Some e →
  CallStatusUpdate ∈ issued (Reconcile r env (Some aw)) →
  (∃ res, ret (Reconcile r env (Some aw)) = Returned res (Some e)) ∧
  AwStatus <$> persisted (Reconcile r env (Some aw)) = Some (AwStatus aw).
Proof.
  intros Hdel Hsu. revert Hdel.
  by_branch env aw.
  all: try discriminate.
  all: intros _ Hin; in_calls.
  all: try congruence.
  all: split; [eexists; repeat f_equal; congruence | done].
Qed.

(** X18.  The phase moves along the edges of the phase graph only.  Provided
    the deletion orchestrator leaves the phase alone, an invocation on a
    workload not marked for deletion leaves the persisted phase where it
    was or moves it along one edge of the graph ([Failed], [Succeeded] and
    [Terminating] have no outgoing edge); on a workload marked for deletion
    the phase stays or becomes [Terminating]. *)
Theorem phase_follows_the_graph (env : Env) (aw aw' : AppWrapper) :
  (∀ a, Phase (fst (deleteComponents env a)) = Phase (AwStatus a)) →
  persisted (Reconcile r env (Some aw)) = Some aw' →
  if deletionTimestampIsZero aw
  then phaseEdge (Phase (AwStatus aw)) (Phase (AwStatus aw')) = true
  else Phase (AwStatus aw') = Phase (AwStatus aw)
       ∨ Phase (AwStatus aw') = AppWrapperTerminating.
Proof.
  intros Hd. by_branch env aw.
  all: at_calls Hd.
  all: intros [= <-]; to_fetched; through_conditions.
  all: try done.
  all: try match goal with
           | Hp : Phase (AwStatus _) = _ |- _ => rewrite ?Hp in *
           end.
  all: try done.
  all: first [ congruence | left; congruence | by right
             | unfold phaseEdge; by rewrite bool_decide_eq_true_2 ].
Qed.
(** X19.  The retry counter moves only when a retry is granted.  Provided
    the orchestrators and the component-status initializer leave the
    counter alone, the persisted counter after an invocation is the one
    before, or that one plus one; in the second case the workload has moved
    to [Resetting] and the counter was below the retry limit. *)
Theorem retries_count_granted_resets (env : Env) (aw aw' : AppWrapper) :
  (∀ a, Retries (fst (deleteComponents env a)) = Retries (AwStatus a)) →
  (∀ a, Retries (fst (createComponents env a)) = Retries (AwStatus a)) →
  (∀ a a', EnsureComponentStatusInitialized a = inr a' →
           Retries (AwStatus a') = Retries (AwStatus a)) →
  persisted (Reconcile r env (Some aw)) = Some aw' →
  Retries (AwStatus aw') = Retries (AwStatus aw)
  ∨ (Retries (AwStatus aw') = wrap32 (Retries (AwStatus aw) + 1) ∧
     Retries (AwStatus aw) < retryLimit r aw ∧
     Phase (AwStatus aw') = AppWrapperResetting).
Proof.
  intros Hd Hc Hi. by_branch env aw.
  all: at_calls Hd; at_calls Hc.
  all: repeat match goal with
         | Hp : (if ContainsFinalizer ?a ?f then _ else _) = _ |- _ =>
             destruct (ContainsFinalizer a f) eqn:?; simplify_eq
         | Hinit : EnsureComponentStatusInitialized _ = inr _ |- _ =>
             apply Hi in Hinit
         end.
  all: intros [= <-]; to_fetched; unfold retryLimit in *; through_conditions.
  all: try (left; congruence).
  all: right; repeat split; try congruence.
  all: match goal with
       | Hlt : (_ <? _) = true |- _ => apply Z.ltb_lt in Hlt
       end; try congruence.
Qed.
(** X20.  The initial state installs the finalizer before anything else.
    For a workload in phase [Empty] that is not marked for deletion and
    does not carry the controller's finalizer, the first call is the write
    of the finalizer; if that write fails its error is returned and nothing
    else is done; if it succeeds the finalizer is persisted whatever
    happens next, a failure of the component-status initializer is returned
    with the phase still [Empty], and otherwise the status the initializer
    left is written with phase [Suspended]. *)
Theorem empty_installs_finalizer_first (env : Env) (aw : AppWrapper) :
  getErr env = None →
  deletionTimestampIsZero aw = true →
  Phase (AwStatus aw) = AppWrapperEmpty →
  ContainsFinalizer aw AppWrapperFinalizer = false →
  let out := Reconcile r env (Some aw) in
  let guarded := withFinalizers aw (Finalizers aw ++ [AppWrapperFinalizer]) in
  head (issued out) = Some CallUpdate ∧
  match updateErr env with
  | Some e =>
      ret out = Returned emptyResult (Some e) ∧ persisted out = Some aw ∧
      issued out = [CallUpdate]
  | None =>
      match EnsureComponentStatusInitialized guarded with
      | inl e =>
          ret out = Returned emptyResult (Some e) ∧ persisted out = Some guarded
      | inr aw1 =>
          ret out = Returned emptyResult (statusUpdateErr env) ∧
          persisted out
          = Some (afterStatusWrite env guarded
                    (withStatus guarded (AwStatus (withPhase aw1 AppWrapperSuspended))))
      end
  end.
Proof.
  intros Hget Hts Hphase Hfin out guarded. subst out guarded.
  unfold Reconcile, get, reconcileFetched, fetched. simpl.
  rewrite Hget, Hts, Hphase. simpl.
  unfold reconcileEmpty, AddFinalizer. simpl. rewrite Hfin. simpl.
  unfold update, logCall. simpl.
  destruct (updateErr env) as [e|]; simpl; [done|].
  unfold initializeComponents. simpl.
  replace (withStatus (withFinalizers aw (Finalizers aw ++ [AppWrapperFinalizer]))
             (AwStatus aw))
    with (withFinalizers aw (Finalizers aw ++ [AppWrapperFinalizer]))
    by (by destruct aw).
  destruct (EnsureComponentStatusInitialized _) as [e|aw1]; simpl; [done|].
  unfold updateStatus, statusUpdate, afterStatusWrite, logCall, setMem. simpl.
  by destruct (statusUpdateErr env).
Qed.
(** X21.  Admission.  A [Suspended] workload whose suspend flag is set is
    left alone: nothing is written and no requeue is asked.  Once the flag
    is cleared one status write is issued and nothing is created yet; when
    the write succeeds the workload is [Resuming] with [QuotaReserved] and
    [ResourcesDeployed] true, [PodsReady] and [Unhealthy] false, and the
    transition time of [ResourcesDeployed], from which the admission and
    warmup grace periods are counted, is the instant of this invocation
    unless the condition was already true. *)
Theorem suspended_admission (env : Env) (aw : AppWrapper) :
  getErr env = None →
  deletionTimestampIsZero aw = true →
  Phase (AwStatus aw) = AppWrapperSuspended →
  let out := Reconcile r env (Some aw) in
  if Suspend aw
  then ret out = Returned emptyResult None ∧ persisted out = Some aw ∧ issued out = []
  else
    issued out = [CallStatusUpdate] ∧
    ret out = Returned emptyResult (statusUpdateErr env) ∧
    (statusUpdateErr env = None →
     ∃ aw', persisted out = Some aw' ∧
       Phase (AwStatus aw') = AppWrapperResuming ∧
       statusOf aw' QuotaReserved = Some ConditionTrue ∧
       statusOf aw' ResourcesDeployed = Some ConditionTrue ∧
       statusOf aw' PodsReady = Some ConditionFalse ∧
       statusOf aw' Unhealthy = Some ConditionFalse ∧
       transitionTimeOf aw' ResourcesDeployed
       = Some (since (now env) aw ResourcesDeployed ConditionTrue)).
Proof.
  intros Hget Hts Hphase out. subst out.
  unfold Reconcile, get, reconcileFetched, fetched. simpl.
  rewrite Hget, Hts, Hphase. simpl.
  unfold reconcileSuspended. simpl.
  destruct (Suspend aw); [done|].
  unfold updateStatus, statusUpdate, setCond, logCall, setMem, finish.
  cbn [mem stored calls ret persisted issued app].
  destruct (statusUpdateErr env) as [e|]; cbn [mem stored calls ret persisted issued app];
    [done|].
  repeat split; try done. intros _. eexists. split; [done|].
  unfold statusOf, transitionTimeOf.
  repeat split.
  all: try match goal with
       | |- context [findCondition (withStatus _ (AwStatus (withPhase ?x _))) ?ty] =>
           rewrite (findCondition_ext x) by done
       end.
  all: read_conditions; cbn [fmap option_fmap option_map];
    rewrite ?writtenCondition_status, ?writtenCondition_time; try done.
Qed.
(** X22.  Deployment.  For a [Resuming] workload that is not suspended the
    materializer is called and its error, if any, is never returned to the
    dispatcher: the invocation returns what the status write returns.  When
    that write succeeds, a materializer success leaves the status the
    materializer left with phase [Running]; a failure is recorded as
    [Unhealthy] with reason [CreateFailed]; a fatal failure moves to
    [Failed] without consuming a retry, and a non-fatal one moves to
    [Resetting] with one more retry while the counter is below the retry
    limit, to [Failed] otherwise. *)
Theorem resuming_records_creation_failures (env : Env) (aw : AppWrapper)
    (status' : AppWrapperStatus) (outcome : option (Error * bool)) :
  getErr env = None →
  deletionTimestampIsZero aw = true →
  Phase (AwStatus aw) = AppWrapperResuming →
  Suspend aw = false →
  createComponents env aw = (status', outcome) →
  let out := Reconcile r env (Some aw) in
  ret out = Returned emptyResult (statusUpdateErr env) ∧
  (statusUpdateErr env = None →
   ∃ aw', persisted out = Some aw' ∧
     match outcome with
     | None => AwStatus aw' = AwStatus (withPhase (withStatus aw status') AppWrapperRunning)
     | Some (err, fatal) =>
         statusOf aw' Unhealthy = Some ConditionTrue ∧
         Reason <$> findCondition aw' Unhealthy = Some "CreateFailed" ∧
         if fatal || negb (Retries status' <? retryLimit r aw)
         then Phase (AwStatus aw') = AppWrapperFailed ∧
              Retries (AwStatus aw') = Retries status'
         else Phase (AwStatus aw') = AppWrapperResetting ∧
              Retries (AwStatus aw') = wrap32 (Retries status' + 1)
     end).
Proof.
  intros Hget Hts Hphase Hsuspend Hcreate out. subst out.
  unfold Reconcile, get, reconcileFetched, fetched. simpl.
  rewrite Hget, Hts, Hphase. simpl.
  unfold reconcileResuming, callCreateComponents. simpl.
  rewrite Hsuspend, Hcreate. simpl.
  assert (Hlimit : ∀ c, retryLimit r (setCondition (now env) (withStatus aw status')
                           Unhealthy ConditionTrue "CreateFailed" c)
                        = retryLimit r aw) by done.
  destruct outcome as [[err fatal]|]; [destruct fatal|].
  all: unfold resetOrFail, updateStatus, statusUpdate, setCond, logCall, setMem, finish.
  all: cbn [mem stored calls ret persisted issued app].
  all: rewrite ?Hlimit, ?Retries_setCondition.
  all: cbn [AwStatus withStatus Retries orb negb].
  all: try destruct (Retries status' <? retryLimit r aw) eqn:Hgate.
  all: cbn [mem stored calls ret persisted issued app negb].
  all: destruct (statusUpdateErr env) as [e|];
    cbn [mem stored calls ret persisted issued app]; (split; [done|]); [done|].
  all: intros _; eexists; (split; [done|]).
  all: try done.
  all: unfold statusOf.
  all: repeat split; try done.
  all: try match goal with
       | |- context [findCondition (withStatus _ (AwStatus (withPhase ?x _))) ?ty] =>
           rewrite (findCondition_ext x) by done
       end.
  all: try match goal with
       | |- context [findCondition (withRetries ?x _) ?ty] =>
           rewrite (findCondition_ext x) by done
       end.
  all: read_conditions; cbn [fmap option_fmap option_map];
    rewrite ?writtenCondition_status, ?writtenCondition_reason; try done.
Qed.
(** X23.  Reads that fail.  For a [Running] workload that is not suspended,
    an error of the component scan (other than a child not found) and an
    error of the pod listing are returned to the dispatcher as they are,
    with no requeue delay, no call issued and nothing persisted. *)
Theorem running_read_errors_are_returned (env : Env) (aw aw1 : AppWrapper)
    (answer : Error + componentStatusSummary) :
  getErr env = None →
  deletionTimestampIsZero aw = true →
  Phase (AwStatus aw) = AppWrapperRunning →
  Suspend aw = false →
  getComponentStatus env aw = (aw1, answer) →
  let out := Reconcile r env (Some aw) in
  let returned e :=
    ret out = Returned emptyResult (Some e) ∧ issued out = [] ∧ persisted out = Some aw in
  match answer with
  | inl e => returned e
  | inr compStatus =>
      cs_deployed compStatus = cs_expected compStatus →
      ∀ e, getPodStatus env aw1 = inl e → returned e
  end.
Proof.
  intros Hget Hts Hphase Hsuspend Hcomp out returned. subst out returned.
  unfold Reconcile, get, reconcileFetched, fetched. simpl.
  rewrite Hget, Hts, Hphase. simpl.
  unfold reconcileRunning. simpl. rewrite Hsuspend, Hcomp. simpl.
  destruct answer as [e|compStatus]; [done|].
  intros Hall e Hpods.
  rewrite decide_False by (by intros Hne; apply Hne).
  by rewrite Hpods.
Qed.

(** The outcome of the success branch of [Running]. *)
Lemma running_success_outcome (env : Env) (aw aw1 : AppWrapper)
    (compStatus : componentStatusSummary) (podStatus : podStatusSummary) :
  getErr env = None →
  deletionTimestampIsZero aw = true →
  Phase (AwStatus aw) = AppWrapperRunning →
  Suspend aw = false →
  getComponentStatus env aw = (aw1, inr compStatus) →
  cs_deployed compStatus = cs_expected compStatus →
  getPodStatus env aw1 = inr podStatus →
  ps_expected podStatus ≤ ps_succeeded podStatus →
  wrap32 (wrap32 (ps_pending podStatus + ps_running podStatus) + ps_failed podStatus) = 0 →
  ∃ msg records',
    let written :=
      withPhase
        (setCondition (now env)
           (setCondition (now env) (withComponentStatus aw records') QuotaReserved
              ConditionFalse "Succeeded" msg)
           ResourcesDeployed ConditionTrue "Succeeded" msg)
        AppWrapperSucceeded in
    Reconcile r env (Some aw)
    = {| ret := Returned emptyResult (statusUpdateErr env);
         inMemory := Some (afterStatusWrite env written (withStatus aw (AwStatus written)));
         persisted := Some (afterStatusWrite env aw (withStatus aw (AwStatus written)));
         issued := [CallStatusUpdate] |}.
Proof.
  intros Hget Hts Hphase Hsuspend Hcomp Hall Hpods Hdone Hnone.
  unfold Reconcile, get, reconcileFetched, fetched. simpl.
  rewrite Hget, Hts, Hphase. simpl.
  unfold reconcileRunning. simpl. rewrite Hsuspend, Hcomp. simpl.
  rewrite decide_False by (by intros Hne; apply Hne).
  rewrite Hpods, Hnone.
  assert ((ps_succeeded podStatus >=? ps_expected podStatus) = true) as ->
    by (rewrite Z.geb_leb; by apply Z.leb_le).
  destruct (getComponentStatus_frame _ _ _ _ Hcomp) as [records' ->].
  eexists _, records'.
  unfold updateStatus, statusUpdate, setCond, logCall, setMem, finish, afterStatusWrite.
  cbn [mem stored calls ret persisted issued app andb Z.eqb].
  by destruct (statusUpdateErr env) as [e|].
Qed.

(** X24.  Success.  For a [Running] workload that is not suspended, with
    every component deployed, when at least the expected number of pods has
    succeeded and none is pending, running or failed, one status write is
    issued and no child is deleted yet; when the write succeeds the
    workload is [Succeeded], [QuotaReserved] is false, [ResourcesDeployed]
    is true, and the transition time of [ResourcesDeployed] is still the
    instant of deployment if the condition was true. *)
Theorem running_success_keeps_deployment_time (env : Env) (aw aw1 : AppWrapper)
    (compStatus : componentStatusSummary) (podStatus : podStatusSummary) :
  getErr env = None →
  deletionTimestampIsZero aw = true →
  Phase (AwStatus aw) = AppWrapperRunning →
  Suspend aw = false →
  getComponentStatus env aw = (aw1, inr compStatus) →
  cs_deployed compStatus = cs_expected compStatus →
  getPodStatus env aw1 = inr podStatus →
  ps_expected podStatus ≤ ps_succeeded podStatus →
  wrap32 (wrap32 (ps_pending podStatus + ps_running podStatus) + ps_failed podStatus) = 0 →
  let out := Reconcile r env (Some aw) in
  ret out = Returned emptyResult (statusUpdateErr env) ∧
  issued out = [CallStatusUpdate] ∧
  (statusUpdateErr env = None →
   ∃ aw', persisted out = Some aw' ∧
     Phase (AwStatus aw') = AppWrapperSucceeded ∧
     statusOf aw' QuotaReserved = Some ConditionFalse ∧
     statusOf aw' ResourcesDeployed = Some ConditionTrue ∧
     transitionTimeOf aw' ResourcesDeployed
     = Some (since (now env) aw ResourcesDeployed ConditionTrue)).
Proof.
  intros Hget Hts Hphase Hsuspend Hcomp Hall Hpods Hdone Hnone out. subst out.
  destruct (running_success_outcome env aw aw1 compStatus podStatus)
    as (msg & records' & ->); try done.
  cbn [ret issued persisted]. repeat split; try done.
  intros Hwrite. unfold afterStatusWrite. rewrite Hwrite.
  eexists. split; [done|].
  unfold statusOf, transitionTimeOf, since.
  repeat split.
  all: try match goal with
       | |- context [findCondition (withStatus _ (AwStatus (withPhase ?x _))) ?ty] =>
           rewrite (findCondition_ext x) by done
       end.
  all: read_conditions; cbn [fmap option_fmap option_map];
    rewrite ?(findCondition_ext aw (withComponentStatus aw records')) by done;
    rewrite ?writtenCondition_status, ?writtenCondition_time; try done.
Qed.

(** The [Succeeded] branch, for a workload whose resources are deployed. *)
Lemma succeeded_outcome (env : Env) (aw : AppWrapper) (c : Condition) :
  getErr env = None →
  deletionTimestampIsZero aw = true →
  Phase (AwStatus aw) = AppWrapperSucceeded →
  findCondition aw ResourcesDeployed = Some c →
  Status c = ConditionTrue →
  let out := Reconcile r env (Some aw) in
  let deadline := LastTransitionTime c + timeToLiveAfterSucceededDuration r aw in
  if bool_decide (now env < deadline)
  then ret out = Returned {| RequeueAfter := deadline - now env |} (statusUpdateErr env) ∧
       issued out = [CallStatusUpdate]
  else CallDeleteComponents ∈ issued out.
Proof.
  intros Hget Hts Hphase Hfind Htrue out deadline. subst out deadline.
  unfold Reconcile, get, reconcileFetched, fetched. simpl.
  rewrite Hget, Hts, Hphase. simpl.
  unfold reconcileSucceeded. simpl.
  assert (isTrue aw ResourcesDeployed = true) as ->.
  { unfold isTrue, IsStatusConditionTrue. unfold findCondition in Hfind.
    rewrite Hfind. by apply bool_decide_eq_true_2. }
  rewrite Hfind. unfold Before, Add, Sub.
  destruct (bool_decide (now env < _)) eqn:Hbefore.
  - unfold statusUpdate, logCall, finish. simpl.
    by destruct (statusUpdateErr env).
  - unfold callDeleteComponents, statusUpdate, setCond, logCall, setMem, finish.
    simpl. destruct (deleteComponents env aw) as [status' allGone]. simpl.
    destruct allGone; simpl; [destruct (statusUpdateErr env); simpl|];
      apply elem_of_cons; by left.
Qed.
(** X25.  The time to live of a succeeded workload is counted from its
    deployment, not from its success.  Let an invocation record the success
    of a [Running] workload whose [ResourcesDeployed] condition has been
    true since [t0].  The next invocation on the persisted workload, at
    whatever later instant, asks to be requeued at [t0] plus the time to
    live while that instant is in the future, deleting nothing; and it
    calls the deletion orchestrator as soon as it is not. *)
Theorem success_ttl_counts_from_deployment (env1 env2 : Env) (aw aw1 : AppWrapper)
    (compStatus : componentStatusSummary) (podStatus : podStatusSummary)
    (c : Condition) :
  getErr env1 = None →
  deletionTimestampIsZero aw = true →
  Phase (AwStatus aw) = AppWrapperRunning →
  Suspend aw = false →
  getComponentStatus env1 aw = (aw1, inr compStatus) →
  cs_deployed compStatus = cs_expected compStatus →
  getPodStatus env1 aw1 = inr podStatus →
  ps_expected podStatus ≤ ps_succeeded podStatus →
  wrap32 (wrap32 (ps_pending podStatus + ps_running podStatus) + ps_failed podStatus) = 0 →
  statusUpdateErr env1 = None →
  findCondition aw ResourcesDeployed = Some c →
  Status c = ConditionTrue →
  getErr env2 = None →
  let out1 := Reconcile r env1 (Some aw) in
  let out2 := Reconcile r env2 (persisted out1) in
  let deadline := LastTransitionTime c + timeToLiveAfterSucceededDuration r aw in
  if bool_decide (now env2 < deadline)
  then ret out2 = Returned {| RequeueAfter := deadline - now env2 |} (statusUpdateErr env2) ∧
       issued out2 = [CallStatusUpdate]
  else CallDeleteComponents ∈ issued out2.
Proof.
  intros Hget Hts Hphase Hsuspend Hcomp Hall Hpods Hdone Hnone Hwrite Hfind Htrue Hget2
    out1 out2 deadline. subst out1 out2 deadline.
  destruct (running_success_outcome env1 aw aw1 compStatus podStatus)
    as (msg & records' & ->); try done.
  cbn [persisted]. unfold afterStatusWrite. rewrite Hwrite.
  match goal with
  | |- context [Reconcile r env2 (Some ?w)] => set (succeeded := w)
  end.
  pose (c' := writtenCondition (now env1) (Some c)
                (newCondition (conditionString ResourcesDeployed) ConditionTrue
                   "Succeeded" msg)).
  assert (Hfind' : findCondition succeeded ResourcesDeployed = Some c').
  { subst succeeded.
    match goal with
    | |- context [findCondition (withStatus _ (AwStatus (withPhase ?x _))) ?ty] =>
        rewrite (findCondition_ext x) by done
    end.
    read_conditions.
    by rewrite (findCondition_ext aw (withComponentStatus aw records')), Hfind. }
  assert (Htime : LastTransitionTime c' = LastTransitionTime c).
  { subst c'. rewrite writtenCondition_time. by rewrite decide_True. }
  assert (Hstatus : Status c' = ConditionTrue)
    by (subst c'; by rewrite writtenCondition_status).
  assert (Httl : timeToLiveAfterSucceededDuration r succeeded
                 = timeToLiveAfterSucceededDuration r aw) by done.
  rewrite <- Htime, <- Httl.
  by apply succeeded_outcome.
Qed.
(** X26.  Failed pods.  For a [Running] workload that is not suspended, with
    every component deployed, that has not succeeded and has a failed pod,
    [Unhealthy] is set and the failure grace period is counted from the
    instant since which [Unhealthy] has been true (this invocation, at the
    first detection).  While that deadline is in the future the workload
    stays [Running] and the requeue delay is exactly what is left of the
    grace period; from the deadline on a reset is asked for: [Resetting]
    with one more retry while the counter is below the retry limit,
    [Failed] otherwise. *)
Theorem failed_pods_deadline_from_first_detection (env : Env) (aw aw1 : AppWrapper)
    (compStatus : componentStatusSummary) (podStatus : podStatusSummary) :
  getErr env = None →
  deletionTimestampIsZero aw = true →
  Phase (AwStatus aw) = AppWrapperRunning →
  Suspend aw = false →
  getComponentStatus env aw = (aw1, inr compStatus) →
  cs_deployed compStatus = cs_expected compStatus →
  getPodStatus env aw1 = inr podStatus →
  ps_succeeded podStatus < ps_expected podStatus
  ∨ wrap32 (wrap32 (ps_pending podStatus + ps_running podStatus) + ps_failed podStatus) ≠ 0 →
  0 < ps_failed podStatus →
  let out := Reconcile r env (Some aw) in
  let deadline := since (now env) aw Unhealthy ConditionTrue + failureGraceDuration r aw in
  issued out = [CallStatusUpdate] ∧
  ret out = Returned {| RequeueAfter := if bool_decide (now env < deadline)
                                        then deadline - now env else 0 |}
              (statusUpdateErr env) ∧
  (statusUpdateErr env = None →
   ∃ aw', persisted out = Some aw' ∧
     statusOf aw' Unhealthy = Some ConditionTrue ∧
     if bool_decide (now env < deadline)
     then Phase (AwStatus aw') = AppWrapperRunning ∧
          Retries (AwStatus aw') = Retries (AwStatus aw)
     else if Retries (AwStatus aw) <? retryLimit r aw
     then Phase (AwStatus aw') = AppWrapperResetting ∧
          Retries (AwStatus aw') = wrap32 (Retries (AwStatus aw) + 1)
     else Phase (AwStatus aw') = AppWrapperFailed ∧
          Retries (AwStatus aw') = Retries (AwStatus aw)).
Proof.
  intros Hget Hts Hphase Hsuspend Hcomp Hall Hpods Hnot Hfailed out deadline.
  subst out deadline.
  unfold Reconcile, get, reconcileFetched, fetched. simpl.
  rewrite Hget, Hts, Hphase. simpl.
  unfold reconcileRunning. simpl. rewrite Hsuspend, Hcomp. simpl.
  rewrite decide_False by (by intros Hne; apply Hne).
  rewrite Hpods.
  assert ((ps_succeeded podStatus >=? ps_expected podStatus)
          && (wrap32 (wrap32 (ps_pending podStatus + ps_running podStatus)
                      + ps_failed podStatus) =? 0) = false) as ->.
  { apply andb_false_iff. destruct Hnot as [Hfew|Hsome].
    - left. rewrite Z.geb_leb. by apply Z.leb_gt.
    - right. by apply Z.eqb_neq. }
  assert ((ps_failed podStatus >? 0) = true) as ->
    by (rewrite Z.gtb_ltb; by apply Z.ltb_lt).
  destruct (getComponentStatus_frame _ _ _ _ Hcomp) as [records' ->].
  unfold setCond, setMem. cbn [mem stored calls].
  rewrite findCondition_setCondition_same. cbv beta iota.
  rewrite (findCondition_ext aw (withComponentStatus aw records')) by done.
  rewrite writtenCondition_time.
  fold (since (now env) aw Unhealthy ConditionTrue).
  assert (Hgrace : ∀ x, Annotations x = Annotations aw →
            failureGraceDuration r x = failureGraceDuration r aw).
  { intros x Hann. unfold failureGraceDuration. by rewrite Hann. }
  assert (Hlimit : ∀ x, Annotations x = Annotations aw →
            retryLimit r x = retryLimit r aw).
  { intros x Hann. unfold retryLimit. by rewrite Hann. }
  rewrite Hgrace by done.
  unfold Before, Add, Sub.
  destruct (bool_decide (now env < _)) eqn:Hbefore.
  - unfold statusUpdate, logCall, finish.
    cbn [mem stored calls ret persisted issued app].
    destruct (statusUpdateErr env) as [e|];
      cbn [mem stored calls ret persisted issued app]; [done|].
    repeat split; try done. intros _. eexists. split; [done|].
    split; [|done]. unfold statusOf.
    match goal with
    | |- context [findCondition (withStatus _ (AwStatus ?x)) ?ty] =>
        rewrite (findCondition_ext x) by done
    end.
    read_conditions. cbn [fmap option_fmap option_map].
    by rewrite writtenCondition_status.
  - unfold resetOrFail, updateStatus, statusUpdate, logCall, setMem, finish.
    cbn [mem stored calls ret persisted issued app].
    rewrite Hlimit by done. rewrite Retries_setCondition.
    change (Retries (AwStatus (withComponentStatus aw records')))
      with (Retries (AwStatus aw)).
    destruct (Retries (AwStatus aw) <? retryLimit r aw) eqn:Hgate;
      cbn [mem stored calls ret persisted issued app];
      (destruct (statusUpdateErr env) as [e|];
       cbn [mem stored calls ret persisted issued app]; [done|]).
    all: repeat split; try done; intros _; eexists; (split; [done|]).
    all: (split; [|done]); unfold statusOf.
    all: match goal with
         | |- context [findCondition (withStatus _ (AwStatus (withPhase ?x _))) ?ty] =>
             rewrite (findCondition_ext x) by done
         end.
    all: try match goal with
         | |- context [findCondition (withRetries ?x _) ?ty] =>
             rewrite (findCondition_ext x) by done
         end.
    all: read_conditions; cbn [fmap option_fmap option_map];
      by rewrite writtenCondition_status.
Qed.
(** X27.  Ready.  For a [Running] workload that is not suspended, with every
    component deployed, that has not succeeded and has no failed pod, when
    the running and succeeded pods together reach the expected count, the
    workload stays [Running], [PodsReady] becomes true, [Unhealthy] is not
    true afterwards, the retry counter is untouched and the next look is
    asked for in one minute. *)
Theorem running_ready_polls_every_minute (env : Env) (aw aw1 : AppWrapper)
    (compStatus : componentStatusSummary) (podStatus : podStatusSummary) :
  getErr env = None →
  deletionTimestampIsZero aw = true →
  Phase (AwStatus aw) = AppWrapperRunning →
  Suspend aw = false →
  getComponentStatus env aw = (aw1, inr compStatus) →
  cs_deployed compStatus = cs_expected compStatus →
  getPodStatus env aw1 = inr podStatus →
  ps_succeeded podStatus < ps_expected podStatus
  ∨ wrap32 (wrap32 (ps_pending podStatus + ps_running podStatus) + ps_failed podStatus) ≠ 0 →
  ps_failed podStatus ≤ 0 →
  ps_expected podStatus ≤ wrap32 (ps_running podStatus + ps_succeeded podStatus) →
  let out := Reconcile r env (Some aw) in
  issued out = [CallStatusUpdate] ∧
  ret out = Returned {| RequeueAfter := Minute |} (statusUpdateErr env) ∧
  (statusUpdateErr env = None →
   ∃ aw', persisted out = Some aw' ∧
     Phase (AwStatus aw') = AppWrapperRunning ∧
     Retries (AwStatus aw') = Retries (AwStatus aw) ∧
     statusOf aw' PodsReady = Some ConditionTrue ∧
     isTrue aw' Unhealthy = false).
Proof.
  intros Hget Hts Hphase Hsuspend Hcomp Hall Hpods Hnot Hnofail Hready out. subst out.
  unfold Reconcile, get, reconcileFetched, fetched. simpl.
  rewrite Hget, Hts, Hphase. simpl.
  unfold reconcileRunning. simpl. rewrite Hsuspend, Hcomp. simpl.
  rewrite decide_False by (by intros Hne; apply Hne).
  rewrite Hpods.
  assert ((ps_succeeded podStatus >=? ps_expected podStatus)
          && (wrap32 (wrap32 (ps_pending podStatus + ps_running podStatus)
                      + ps_failed podStatus) =? 0) = false) as ->.
  { apply andb_false_iff. destruct Hnot as [Hfew|Hsome].
    - left. rewrite Z.geb_leb. by apply Z.leb_gt.
    - right. by apply Z.eqb_neq. }
  assert ((ps_failed podStatus >? 0) = false) as ->
    by (rewrite Z.gtb_ltb; by apply Z.ltb_ge).
  assert ((wrap32 (ps_running podStatus + ps_succeeded podStatus)
           >=? ps_expected podStatus) = true) as ->
    by (rewrite Z.geb_leb; by apply Z.leb_le).
  destruct (getComponentStatus_frame _ _ _ _ Hcomp) as [records' ->].
  unfold statusUpdate, setCond, clearCond, logCall, setMem, finish.
  cbn [mem stored calls ret persisted issued app].
  destruct (statusUpdateErr env) as [e|];
    cbn [mem stored calls ret persisted issued app]; [done|].
  repeat split; try done. intros _. eexists. split; [done|].
  unfold statusOf.
  repeat split.
  - simpl. by rewrite Phase_clearCondition.
  - simpl. by rewrite Retries_clearCondition.
  - match goal with
    | |- context [findCondition (withStatus _ (AwStatus ?x)) ?ty] =>
        rewrite (findCondition_ext x) by done
    end.
    read_conditions. cbn [fmap option_fmap option_map].
    by rewrite writtenCondition_status.
  - match goal with
    | |- context [isTrue (withStatus _ (AwStatus ?x)) ?ty] =>
        rewrite (isTrue_ext x) by done
    end.
    by read_conditions.
Qed.
(** X28.  Suspension.  For a [Suspending] workload, whatever its suspend
    flag says: while [ResourcesDeployed] is true and the deletion
    orchestrator reports children left, the invocation asks to be requeued
    in five seconds and persists nothing; otherwise one status write is
    issued, and when it succeeds the workload is [Suspended] and none of
    [QuotaReserved], [ResourcesDeployed], [PodsReady] and [Unhealthy] is
    true. *)
Theorem suspending_releases_everything (env : Env) (aw : AppWrapper) :
  getErr env = None →
  deletionTimestampIsZero aw = true →
  Phase (AwStatus aw) = AppWrapperSuspending →
  let out := Reconcile r env (Some aw) in
  if isTrue aw ResourcesDeployed && negb (snd (deleteComponents env aw))
  then ret out = Returned {| RequeueAfter := 5 * Second |} None ∧
       persisted out = Some aw ∧ issued out = [CallDeleteComponents]
  else ret out = Returned emptyResult (statusUpdateErr env) ∧
       (statusUpdateErr env = None →
        ∃ aw', persisted out = Some aw' ∧
          Phase (AwStatus aw') = AppWrapperSuspended ∧
          isTrue aw' QuotaReserved = false ∧
          isTrue aw' ResourcesDeployed = false ∧
          isTrue aw' PodsReady = false ∧
          isTrue aw' Unhealthy = false).
Proof.
  intros Hget Hts Hphase out. subst out.
  unfold Reconcile, get, reconcileFetched, fetched. simpl.
  rewrite Hget, Hts, Hphase. simpl.
  unfold reconcileSuspending, callDeleteComponents. simpl.
  destruct (isTrue aw ResourcesDeployed) eqn:Hdeployed; simpl;
    [destruct (deleteComponents env aw) as [status' allGone]; simpl;
     destruct allGone; simpl; [|done] |].
  all: unfold finishSuspending, updateStatus, statusUpdate, setCond, clearCond,
         logCall, setMem, finish.
  all: cbn [mem stored calls ret persisted issued app].
  all: destruct (statusUpdateErr env) as [e|];
         cbn [mem stored calls ret persisted issued app]; [done|].
  all: split; [done|]; intros _; eexists; (split; [done|]).
  all: repeat split.
  all: try (simpl; by rewrite !Phase_clearCondition).
  all: match goal with
       | |- context [isTrue (withStatus _ (AwStatus (withPhase ?x _))) ?ty] =>
           rewrite (isTrue_ext x) by done
       end.
  all: by read_conditions.
Qed.
(** X29.  The pause before a retry.  For a [Resetting] workload that is not
    suspended and whose children are gone ([ResourcesDeployed] not true),
    the retry pause is counted from the transition time of [Unhealthy].
    While it lasts, the workload stays [Resetting] and the requeue delay is
    exactly what is left of the pause; afterwards the workload moves to
    [Resuming] with [ResourcesDeployed] true since this invocation, so
    that the admission and warmup grace periods start afresh.  [PodsReady]
    is not true in either case. *)
Theorem resetting_pauses_before_resuming (env : Env) (aw : AppWrapper) (c : Condition) :
  getErr env = None →
  deletionTimestampIsZero aw = true →
  Phase (AwStatus aw) = AppWrapperResetting →
  Suspend aw = false →
  isTrue aw ResourcesDeployed = false →
  findCondition aw Unhealthy = Some c →
  let out := Reconcile r env (Some aw) in
  let deadline := LastTransitionTime c + retryPauseDuration r aw in
  issued out = [CallStatusUpdate] ∧
  ret out = Returned {| RequeueAfter := if bool_decide (now env < deadline)
                                        then deadline - now env else 0 |}
              (statusUpdateErr env) ∧
  (statusUpdateErr env = None →
   ∃ aw', persisted out = Some aw' ∧
     isTrue aw' PodsReady = false ∧
     if bool_decide (now env < deadline)
     then Phase (AwStatus aw') = AppWrapperResetting ∧
          isTrue aw' ResourcesDeployed = false
     else Phase (AwStatus aw') = AppWrapperResuming ∧
          statusOf aw' ResourcesDeployed = Some ConditionTrue ∧
          transitionTimeOf aw' ResourcesDeployed = Some (now env)).
Proof.
  intros Hget Hts Hphase Hsuspend Hgone Hfind out deadline. subst out deadline.
  unfold Reconcile, get, reconcileFetched, fetched. simpl.
  rewrite Hget, Hts, Hphase. simpl.
  unfold reconcileResetting, clearCond, setMem. simpl. rewrite Hsuspend.
  rewrite isTrue_clearCondition_other, Hgone by done.
  unfold pauseBeforeResuming. cbn [mem stored calls].
  rewrite findCondition_clearCondition_other, Hfind by done.
  assert (Hpause : ∀ x, Annotations x = Annotations aw →
            retryPauseDuration r x = retryPauseDuration r aw).
  { intros x Hann. unfold retryPauseDuration. by rewrite Hann. }
  rewrite Hpause by apply Annotations_clearCondition.
  unfold Before, Add, Sub.
  destruct (bool_decide (now env < _)) eqn:Hbefore.
  all: unfold updateStatus, statusUpdate, setCond, logCall, setMem, finish.
  all: cbn [mem stored calls ret persisted issued app].
  all: destruct (statusUpdateErr env) as [e|];
         cbn [mem stored calls ret persisted issued app]; [done|].
  all: repeat split; try done; intros _; eexists; (split; [done|]).
  all: unfold statusOf, transitionTimeOf.
  all: repeat split.
  all: try (simpl; by rewrite Phase_clearCondition).
  all: try match goal with
       | |- context [isTrue (withStatus _ (AwStatus (withPhase ?x _))) ?ty] =>
           rewrite (isTrue_ext x) by done
       | |- context [isTrue (withStatus _ (AwStatus ?x)) ?ty] =>
           rewrite (isTrue_ext x) by done
       | |- context [findCondition (withStatus _ (AwStatus (withPhase ?x _))) ?ty] =>
           rewrite (findCondition_ext x) by done
       end.
  all: read_conditions; cbn [fmap option_fmap option_map];
         rewrite ?writtenCondition_status, ?writtenCondition_time; try done.
  unfold isTrue, IsStatusConditionTrue in Hgone. unfold findCondition.
  destruct (FindStatusCondition _ _) as [c0|]; [|done].
  destruct (decide _) as [Htrue|]; [|done].
  rewrite Htrue in Hgone. done.
Qed.
(** X30.  The debugging window of a failed workload.  For a [Failed]
    workload with a positive deletion-on-failure delay that is not
    suspended, the delay is counted from the instant since which
    [DeletingResources] has been false (this invocation, the first time).
    While it lasts nothing is deleted, the quota and the resources are
    kept as they are and the requeue delay is exactly what is left of the
    window.  Without a delay, once suspended, or after the window, the
    deletion orchestrator is the first call if [ResourcesDeployed] is
    true; if it is not, the quota is released by one status write. *)
Theorem failed_debugging_window (env : Env) (aw : AppWrapper) :
  getErr env = None →
  deletionTimestampIsZero aw = true →
  Phase (AwStatus aw) = AppWrapperFailed →
  let out := Reconcile r env (Some aw) in
  let delay := deletionOnFailureGraceDuration r aw in
  let deadline := since (now env) aw DeletingResources ConditionFalse + delay in
  if (delay >? 0) && negb (Suspend aw) && bool_decide (now env < deadline)
  then
    issued out = [CallStatusUpdate] ∧
    ret out = Returned {| RequeueAfter := deadline - now env |} (statusUpdateErr env) ∧
    (statusUpdateErr env = None →
     ∃ aw', persisted out = Some aw' ∧
       Phase (AwStatus aw') = AppWrapperFailed ∧
       statusOf aw' DeletingResources = Some ConditionFalse ∧
       isTrue aw' ResourcesDeployed = isTrue aw ResourcesDeployed ∧
       isTrue aw' QuotaReserved = isTrue aw QuotaReserved)
  else
    if isTrue aw ResourcesDeployed
    then head (issued out) = Some CallDeleteComponents
    else
      issued out = [CallStatusUpdate] ∧
      ret out = Returned emptyResult (statusUpdateErr env) ∧
      (statusUpdateErr env = None →
       ∃ aw', persisted out = Some aw' ∧
         Phase (AwStatus aw') = AppWrapperFailed ∧
         isTrue aw' QuotaReserved = false ∧
         isTrue aw' ResourcesDeployed = false).
Proof.
  intros Hget Hts Hphase out delay deadline. subst out delay deadline.
  unfold Reconcile, get, reconcileFetched, fetched. simpl.
  rewrite Hget, Hts, Hphase. simpl.
  unfold reconcileFailed. cbn [mem stored calls].
  assert (Hcleanup : ∀ st, stored st = aw → calls st = [] →
            Phase (AwStatus (mem st)) = AppWrapperFailed →
            isTrue (mem st) ResourcesDeployed = isTrue aw ResourcesDeployed →
            let out := cleanupFailed env st (deletionOnFailureGraceDuration r aw) in
            if isTrue aw ResourcesDeployed
            then head (issued out) = Some CallDeleteComponents
            else
              issued out = [CallStatusUpdate] ∧
              ret out = Returned emptyResult (statusUpdateErr env) ∧
              (statusUpdateErr env = None →
               ∃ aw', persisted out = Some aw' ∧
                 Phase (AwStatus aw') = AppWrapperFailed ∧
                 isTrue aw' QuotaReserved = false ∧
                 isTrue aw' ResourcesDeployed = false)).
  { intros [m s cs] Hs Hc Hp Hrd. simpl in Hs, Hc, Hp, Hrd. subst s cs.
    unfold cleanupFailed, callDeleteComponents. cbn [mem stored calls]. rewrite Hrd.
    destruct (isTrue aw ResourcesDeployed) eqn:Hdeployed.
    - destruct (deleteComponents env m) as [status' allGone].
      unfold releaseFailed, statusUpdate, setCond, logCall, setMem, finish.
      cbn [mem stored calls ret persisted issued app negb].
      destruct allGone; cbn [mem stored calls ret persisted issued app negb]; [|done].
      by destruct (statusUpdateErr env).
    - unfold releaseFailed, statusUpdate, setCond, logCall, setMem, finish.
      cbn [mem stored calls ret persisted issued app].
      destruct (statusUpdateErr env) as [e|];
        cbn [mem stored calls ret persisted issued app]; [done|].
      repeat split; try done. intros _. eexists. split; [done|].
      repeat split; [by simpl| |].
      all: match goal with
           | |- context [isTrue (withStatus _ (AwStatus ?x)) ?ty] =>
               rewrite (isTrue_ext x) by done
           end.
      all: by read_conditions. }
  destruct (deletionOnFailureGraceDuration r aw >? 0) eqn:Hdelay;
    [destruct (Suspend aw) eqn:Hsuspend|]; cbn [andb negb].
  - by apply Hcleanup.
  - unfold setCond, setMem. cbn [mem stored calls].
    rewrite findCondition_setCondition_same. cbv beta iota.
    rewrite writtenCondition_time. fold (since (now env) aw DeletingResources ConditionFalse).
    unfold Before, Add, Sub.
    destruct (bool_decide (now env < _)) eqn:Hbefore.
    + unfold statusUpdate, logCall, finish.
      cbn [mem stored calls ret persisted issued app].
      destruct (statusUpdateErr env) as [e|];
        cbn [mem stored calls ret persisted issued app]; [done|].
      repeat split; try done. intros _. eexists. split; [done|].
      unfold statusOf. repeat split; [by simpl| | |].
      all: match goal with
           | |- context [isTrue (withStatus _ (AwStatus ?x)) ?ty] =>
               rewrite (isTrue_ext x) by done
           | |- context [findCondition (withStatus _ (AwStatus ?x)) ?ty] =>
               rewrite (findCondition_ext x) by done
           end.
      all: read_conditions; cbn [fmap option_fmap option_map];
             by rewrite ?writtenCondition_status.
    + apply Hcleanup; try done. cbn [mem]. by rewrite isTrue_setCondition_other.
  - by apply Hcleanup.
Qed.

End Whole.

(** ** The properties of an invocation, on sample workloads *)

Lemma requeue_never_negative_witness :
  ∃ res,
    ret (Reconcile sampleReconciler (quietEnv (10 * Second))
           (Some (deployedWorkload AppWrapperRunning 0)))
    = Returned res None ∧
    0 ≤ RequeueAfter res.
Proof.
  exists {| RequeueAfter := 5 * Second |}.
  assert (Hret : ret (Reconcile sampleReconciler (quietEnv (10 * Second))
                        (Some (deployedWorkload AppWrapperRunning 0)))
                 = Returned {| RequeueAfter := 5 * Second |} None) by (by vm_compute).
  split; [exact Hret|].
  exact (requeue_never_negative sampleReconciler _ _ _ _ Hret).
Defined.

Lemma delete_only_when_deployed_witness :
  isTrue deletingWorkload ResourcesDeployed = true.
Proof.
  apply (delete_only_when_deployed sampleReconciler (quietEnv (30 * Second))).
  vm_compute. by left.
Defined.

Lemma create_only_when_resuming_witness :
  deletionTimestampIsZero (deployedWorkload AppWrapperResuming 0) = true ∧
  Phase (AwStatus (deployedWorkload AppWrapperResuming 0)) = AppWrapperResuming ∧
  Suspend (deployedWorkload AppWrapperResuming 0) = false.
Proof.
  apply (create_only_when_resuming sampleReconciler (quietEnv 0)).
  vm_compute. by left.
Defined.

Lemma invocation_writes_status_and_finalizer_only_witness :
  ∃ aw',
    persisted (Reconcile sampleReconciler (quietEnv 0) (Some freshWorkload)) = Some aw' ∧
    Annotations aw' = Annotations freshWorkload ∧
    Suspend aw' = Suspend freshWorkload.
Proof.
  assert (∃ aw', persisted (Reconcile sampleReconciler (quietEnv 0) (Some freshWorkload))
                 = Some aw') as [aw' Hstore] by (eexists; by vm_compute).
  exists aw'. split; [exact Hstore|].
  destruct (invocation_writes_status_and_finalizer_only sampleReconciler
              (quietEnv 0) freshWorkload aw' Hstore) as (_ & _ & Hann & _ & Hsuspend & _).
  by split.
Defined.

Lemma panic_only_without_anchor_condition_witness :
  Phase (AwStatus plainWorkload) = AppWrapperRunning ∧
  findCondition plainWorkload ResourcesDeployed = None.
Proof.
  destruct (panic_only_without_anchor_condition sampleReconciler (quietEnv 0) plainWorkload)
    as (_ & _ & _ & _ & [Hrunning | [Hresetting _]]).
  - by vm_compute.
  - exact Hrunning.
  - discriminate Hresetting.
Defined.

Lemma failed_status_write_is_returned_witness :
  ∃ res,
    ret (Reconcile sampleReconciler (withStatusUpdateErr (quietEnv 0) conflict)
           (Some (deployedWorkload AppWrapperSuspended 0)))
    = Returned res (Some conflict).
Proof.
  apply (failed_status_write_is_returned sampleReconciler
           (withStatusUpdateErr (quietEnv 0) conflict)
           (deployedWorkload AppWrapperSuspended 0) conflict).
  - reflexivity.
  - reflexivity.
  - vm_compute. by left.
Defined.

Lemma phase_follows_the_graph_witness :
  ∃ aw',
    persisted (Reconcile sampleReconciler (quietEnv 0)
                 (Some (deployedWorkload AppWrapperResuming 0))) = Some aw' ∧
    phaseEdge AppWrapperResuming (Phase (AwStatus aw')) = true.
Proof.
  assert (∃ aw', persisted (Reconcile sampleReconciler (quietEnv 0)
                              (Some (deployedWorkload AppWrapperResuming 0)))
                 = Some aw') as [aw' Hstore] by (eexists; by vm_compute).
  exists aw'. split; [exact Hstore|].
  apply (phase_follows_the_graph sampleReconciler (quietEnv 0)
           (deployedWorkload AppWrapperResuming 0) aw'); [reflexivity | exact Hstore].
Defined.

Lemma retries_count_granted_resets_witness :
  ∃ aw',
    persisted (Reconcile sampleReconciler (quietEnv (10 * Minute))
                 (Some (deployedWorkload AppWrapperRunning 0))) = Some aw' ∧
    (Retries (AwStatus aw') = 0 ∨
     Retries (AwStatus aw') = wrap32 (0 + 1) ∧
     0 < retryLimit sampleReconciler (deployedWorkload AppWrapperRunning 0) ∧
     Phase (AwStatus aw') = AppWrapperResetting).
Proof.
  assert (∃ aw', persisted (Reconcile sampleReconciler (quietEnv (10 * Minute))
                              (Some (deployedWorkload AppWrapperRunning 0)))
                 = Some aw') as [aw' Hstore] by (eexists; by vm_compute).
  exists aw'. split; [exact Hstore|].
  apply (retries_count_granted_resets sampleReconciler (quietEnv (10 * Minute))
           (deployedWorkload AppWrapperRunning 0) aw').
  - reflexivity.
  - reflexivity.
  - intros a a' Hinit. injection Hinit as <-. reflexivity.
  - exact Hstore.
Defined.

Lemma empty_installs_finalizer_first_witness :
  head (issued (Reconcile sampleReconciler (quietEnv 0) (Some freshWorkload)))
  = Some CallUpdate.
Proof.
  by destruct (empty_installs_finalizer_first sampleReconciler (quietEnv 0) freshWorkload)
    as [Hfirst _].
Defined.

Lemma suspended_admission_witness :
  issued (Reconcile sampleReconciler (quietEnv 0)
            (Some (sampleWorkload ∅ (sampleStatus AppWrapperSuspended []))))
  = [CallStatusUpdate].
Proof.
  by destruct (suspended_admission sampleReconciler (quietEnv 0)
                 (sampleWorkload ∅ (sampleStatus AppWrapperSuspended [])))
    as [Hissued _].
Defined.

Lemma resuming_records_creation_failures_witness :
  ret (Reconcile sampleReconciler (withCreateAnswer (quietEnv 0) (Some (unavailable, false)))
         (Some (deployedWorkload AppWrapperResuming 0)))
  = Returned emptyResult None.
Proof.
  by destruct (resuming_records_creation_failures sampleReconciler
                 (withCreateAnswer (quietEnv 0) (Some (unavailable, false)))
                 (deployedWorkload AppWrapperResuming 0)
                 (AwStatus (deployedWorkload AppWrapperResuming 0))
                 (Some (unavailable, false)))
    as [Hret _].
Defined.

Lemma running_read_errors_are_returned_witness :
  ret (Reconcile sampleReconciler (withUnavailableChild (quietEnv 0) "trainer")
         (Some (twoComponentWorkload 0)))
  = Returned emptyResult (Some unavailable).
Proof.
  pose proof (running_read_errors_are_returned sampleReconciler
                (withUnavailableChild (quietEnv 0) "trainer")
                (twoComponentWorkload 0) (twoComponentWorkload 0) (inl unavailable))
    as Hreturned.
  by destruct Hreturned as [Hret _].
Defined.

Lemma running_success_keeps_deployment_time_witness :
  issued (Reconcile sampleReconciler
            (withPods (quietEnv (1 * Hour)) [samplePod PodSucceeded])
            (Some (deployedWorkload AppWrapperRunning 0)))
  = [CallStatusUpdate].
Proof.
  by destruct (running_success_keeps_deployment_time sampleReconciler
                 (withPods (quietEnv (1 * Hour)) [samplePod PodSucceeded])
                 (deployedWorkload AppWrapperRunning 0)
                 (deployedWorkload AppWrapperRunning 0)
                 {| cs_expected := 0; cs_deployed := 0 |}
                 {| ps_expected := 1; ps_pending := 0; ps_running := 0;
                    ps_succeeded := 1; ps_failed := 0 |})
    as (_ & Hissued & _).
Defined.

Lemma success_ttl_counts_from_deployment_witness :
  let out1 := Reconcile sampleReconciler
                (withPods (quietEnv (1 * Hour)) [samplePod PodSucceeded])
                (Some (deployedWorkload AppWrapperRunning 0)) in
  ret (Reconcile sampleReconciler (quietEnv (2 * Hour)) (persisted out1))
  = Returned {| RequeueAfter := 166 * Hour |} None.
Proof.
  pose proof (success_ttl_counts_from_deployment sampleReconciler
                (withPods (quietEnv (1 * Hour)) [samplePod PodSucceeded])
                (quietEnv (2 * Hour))
                (deployedWorkload AppWrapperRunning 0)
                (deployedWorkload AppWrapperRunning 0)
                {| cs_expected := 0; cs_deployed := 0 |}
                {| ps_expected := 1; ps_pending := 0; ps_running := 0;
                   ps_succeeded := 1; ps_failed := 0 |}
                (mkCondition "ResourcesDeployed" ConditionTrue 0 0 "Resuming"
                   "Suspend is false"))
    as Hnext.
  by destruct Hnext as [Hret _].
Defined.

Lemma failed_pods_deadline_from_first_detection_witness :
  ret (Reconcile sampleReconciler
         (withPods (quietEnv (1 * Hour)) [samplePod PodFailed])
         (Some (deployedWorkload AppWrapperRunning 0)))
  = Returned {| RequeueAfter := 1 * Minute |} None.
Proof.
  by destruct (failed_pods_deadline_from_first_detection sampleReconciler
                 (withPods (quietEnv (1 * Hour)) [samplePod PodFailed])
                 (deployedWorkload AppWrapperRunning 0)
                 (deployedWorkload AppWrapperRunning 0)
                 {| cs_expected := 0; cs_deployed := 0 |}
                 {| ps_expected := 1; ps_pending := 0; ps_running := 0;
                    ps_succeeded := 0; ps_failed := 1 |})
    as (_ & Hret & _); [| | | | | | | left | |].
Defined.

Lemma running_ready_polls_every_minute_witness :
  ret (Reconcile sampleReconciler
         (withPods (quietEnv (1 * Hour)) [samplePod PodRunning])
         (Some (deployedWorkload AppWrapperRunning 0)))
  = Returned {| RequeueAfter := Minute |} None.
Proof.
  by destruct (running_ready_polls_every_minute sampleReconciler
                 (withPods (quietEnv (1 * Hour)) [samplePod PodRunning])
                 (deployedWorkload AppWrapperRunning 0)
                 (deployedWorkload AppWrapperRunning 0)
                 {| cs_expected := 0; cs_deployed := 0 |}
                 {| ps_expected := 1; ps_pending := 0; ps_running := 1;
                    ps_succeeded := 0; ps_failed := 0 |})
    as (_ & Hret & _); [| | | | | | | left | | |].
Defined.

Lemma suspending_releases_everything_witness :
  ret (Reconcile sampleReconciler (withDeleteAnswer (quietEnv 0) false)
         (Some (deployedWorkload AppWrapperSuspending 0)))
  = Returned {| RequeueAfter := 5 * Second |} None.
Proof.
  by destruct (suspending_releases_everything sampleReconciler
                 (withDeleteAnswer (quietEnv 0) false)
                 (deployedWorkload AppWrapperSuspending 0))
    as [Hret _].
Defined.

Lemma resetting_pauses_before_resuming_witness :
  ret (Reconcile sampleReconciler (quietEnv (30 * Second)) (Some (resettingWorkload 0)))
  = Returned {| RequeueAfter := 60 * Second |} None.
Proof.
  by destruct (resetting_pauses_before_resuming sampleReconciler (quietEnv (30 * Second))
                 (resettingWorkload 0)
                 (mkCondition "Unhealthy" ConditionTrue 0 0 "FoundFailedPods" EmptyString))
    as (_ & Hret & _).
Defined.

Lemma failed_debugging_window_witness :
  ret (Reconcile sampleReconciler (quietEnv (1 * Hour)) (Some debuggedWorkload))
  = Returned {| RequeueAfter := 24 * Hour |} None.
Proof.
  by destruct (failed_debugging_window sampleReconciler (quietEnv (1 * Hour))
                 debuggedWorkload)
    as (_ & Hret & _).
Defined.
